(** * CK metrics for Python code: a shallow embedding of [ck_metrics.py]
      and [combine.py], with the properties of the metrics engine.

    Layout
    - [Ast]      the part of Python's [ast] the two visitors look at,
                 [ComplexityVisitor] and [MethodVisitor];
    - [Nx]       the graph operations taken from networkx
                 ([DiGraph], [all_simple_paths], [Graph],
                 [number_connected_components]);
    - [CK]       [ClassInfo], [CKMetrics._process_ast] and the six metric
                 calculators;
    - [Combine]  the aggregation functions of [combine.py].

    Python [set]s of names are [gset string], the per-class [dict]s keyed by
    method name are [gmap string _]; the two project-level [dict]s whose
    iteration order reaches the output ([CKMetrics.classes],
    [class_summary]) are insertion-ordered association lists.  The integer
    metrics are in [Z]; the quotient of two integers is the exact rational in
    [Q] that Python rounds to a float; the aggregation is written over a
    number type given by its operations, so that what is proved of it holds
    for any arithmetic.  Exceptions are results in an error monad.

    The definitions come first: the four modules of the model, with the
    notions of the specification they are compared with, and the example
    projects.  The properties follow, module by module: [AstProps] and
    [AstMore] for the visitors, [NxProps] for the graphs, [CKProps] and
    [CKMore] for the class model and the metrics, [CombineProps] and
    [CombineMore] for the aggregation. *)

From Stdlib Require Import ZArith QArith List String Lia.
From stdpp Require Import gmap strings list fin_maps relations.

Local Open Scope string_scope.
Local Open Scope Z_scope.

(* ===================================================================== *)
(** * Python's [ast], as far as the visitors distinguish node kinds        *)
(* ===================================================================== *)

Module Ast.

Inductive boolop := And | Or.

(** The induction principle of [node] below needs the "all elements satisfy"
    predicates of the containers it nests through. *)
Scheme All for list.
Scheme All for option.

(** [ast.comprehension] and [ast.withitem], parametric in the node type so
    that [node] can nest through them. *)
Record comprehension (N : Type) : Type :=
  Comprehension { target : N; iter : N; ifs : list N }.
Arguments Comprehension {N}.
Arguments target {N}.
Arguments iter {N}.
Arguments ifs {N}.
Scheme All for comprehension.

Record withitem (N : Type) : Type :=
  WithItem { context_expr : N; optional_vars : option N }.
Arguments WithItem {N}.
Arguments context_expr {N}.
Arguments optional_vars {N}.
Scheme All for withitem.

(** One type for statements and expressions: [ast.NodeVisitor] dispatches on
    the class of the node only.  Every kind that has a [visit_] method in one
    of the two visitors has its own constructor, with its child fields in the
    order of [_fields]; [FunctionDef.args] is the list of expression children
    of the [arguments] node (annotations and defaults).  [Other] is any kind
    neither visitor names (Pass, BinOp, Subscript, Dict, ...), with its child
    nodes. *)
Inductive node : Type :=
| FunctionDef (name : string) (args body decorator_list : list node)
              (returns : option node)
| AsyncFunctionDef (name : string) (args body decorator_list : list node)
                   (returns : option node)
| Return (value : option node)
| Assign (targets : list node) (value : node)
| AnnAssign (tgt annotation : node) (value : option node)
| For (tgt it : node) (body orelse : list node)
| AsyncFor (tgt it : node) (body orelse : list node)
| While (test : node) (body orelse : list node)
| If (test : node) (body orelse : list node)
| With (items : list (withitem node)) (body : list node)
| AsyncWith (items : list (withitem node)) (body : list node)
| Match (subject : node) (cases : list node)
| MatchCase (pattern : node) (guard : option node) (body : list node)
| Raise (exc cause : option node)
| Try (body handlers orelse finalbody : list node)
| ExceptHandler (type : option node) (body : list node)
| Assert (test : node) (msg : option node)
| Expr (value : node)
| BoolOp (op : boolop) (values : list node)
| NamedExpr (tgt value : node)
| Lambda (args : list node) (body : node)
| IfExp (test body orelse : node)
| ListComp (elt : node) (generators : list (comprehension node))
| SetComp (elt : node) (generators : list (comprehension node))
| DictComp (key value : node) (generators : list (comprehension node))
| GeneratorExp (elt : node) (generators : list (comprehension node))
| Yield (value : option node)
| YieldFrom (value : node)
| Compare (lhs : node) (comparators : list node)
| Call (func : node) (args keywords : list node)
| Constant (repr : string)
| Attribute (value : node) (attr : string)
| Name (id : string)
| Other (kind : string) (children : list node).

(** ** [ComplexityVisitor]

    The visitor's only state is the counter [self.complexity]; a visit is a
    function from the counter before to the counter after.  [__init__] sets
    it to [1]. *)

Definition ComplexityVisitor_init : Z := 1.

Section GenericVisit.
Context {S : Type} (visit : node -> S -> S).

Definition visit_list (l : list node) (s : S) : S :=
  fold_left (fun s n => visit n s) l s.

Definition visit_opt (o : option node) (s : S) : S :=
  match o with Some n => visit n s | None => s end.

(** [generic_visit] on a [comprehension]: target, iter, ifs. *)
Definition visit_comprehensions (l : list (comprehension node)) (s : S) : S :=
  fold_left (fun s g => visit_list (ifs g) (visit (iter g) (visit (target g) s))) l s.

(** [generic_visit] on a [withitem]: context_expr, optional_vars. *)
Definition visit_withitems (l : list (withitem node)) (s : S) : S :=
  fold_left (fun s w => visit_opt (optional_vars w) (visit (context_expr w) s)) l s.
End GenericVisit.

(** [for generator in node.generators: self.complexity += len(generator.ifs)] *)
Definition add_ifs (gens : list (comprehension node)) (c : Z) : Z :=
  fold_left (fun c g => c + Z.of_nat (length (ifs g))) gens c.

Fixpoint cvisit (n : node) (c : Z) {struct n} : Z :=
  match n with
  (* kinds with a visit_ method that adds to the counter *)
  | If test body orelse =>
      visit_list cvisit orelse (visit_list cvisit body (cvisit test (c + 1)))
  | For tgt it body orelse
  | AsyncFor tgt it body orelse =>
      visit_list cvisit orelse
        (visit_list cvisit body (cvisit it (cvisit tgt (c + 1))))
  | While test body orelse =>
      visit_list cvisit orelse (visit_list cvisit body (cvisit test (c + 1)))
  | BoolOp op values =>
      (* isinstance(node.op, (ast.And, ast.Or)) holds for both operators *)
      let c' := match op with
                | And | Or => c + (Z.of_nat (length values) - 1)
                end in
      visit_list cvisit values c'
  | ExceptHandler type body =>
      visit_list cvisit body (visit_opt cvisit type (c + 1))
  | ListComp elt gens | SetComp elt gens | GeneratorExp elt gens =>
      visit_comprehensions cvisit gens (cvisit elt (add_ifs gens c))
  | DictComp key value gens =>
      visit_comprehensions cvisit gens
        (cvisit value (cvisit key (add_ifs gens c)))
  | Match subject cases =>
      visit_list cvisit cases
        (cvisit subject (c + 1 + Z.of_nat (length cases)))
  | IfExp test body orelse =>
      cvisit orelse (cvisit body (cvisit test (c + 1)))
  (* kinds with a visit_ method that only calls generic_visit *)
  | Try body handlers orelse finalbody =>
      visit_list cvisit finalbody
        (visit_list cvisit orelse
           (visit_list cvisit handlers (visit_list cvisit body c)))
  | Lambda args body => cvisit body (visit_list cvisit args c)
  | Assert test msg => visit_opt cvisit msg (cvisit test c)
  | Yield value => visit_opt cvisit value c
  | YieldFrom value => cvisit value c
  | Return value => visit_opt cvisit value c
  | Raise exc cause => visit_opt cvisit cause (visit_opt cvisit exc c)
  | NamedExpr tgt value => cvisit value (cvisit tgt c)
  (* kinds without a visit_ method: generic_visit *)
  | FunctionDef _ args body decos returns
  | AsyncFunctionDef _ args body decos returns =>
      visit_opt cvisit returns
        (visit_list cvisit decos
           (visit_list cvisit body (visit_list cvisit args c)))
  | Assign targets value => cvisit value (visit_list cvisit targets c)
  | AnnAssign tgt annotation value =>
      visit_opt cvisit value (cvisit annotation (cvisit tgt c))
  | With items body | AsyncWith items body =>
      visit_list cvisit body (visit_withitems cvisit items c)
  | MatchCase pattern guard body =>
      visit_list cvisit body (visit_opt cvisit guard (cvisit pattern c))
  | Expr value => cvisit value c
  | Compare lhs comparators => visit_list cvisit comparators (cvisit lhs c)
  | Call func args keywords =>
      visit_list cvisit keywords (visit_list cvisit args (cvisit func c))
  | Attribute value _ => cvisit value c
  | Constant _ | Name _ => c
  | Other _ children => visit_list cvisit children c
  end.

(** [complexity_visitor = ComplexityVisitor(); complexity_visitor.visit(item);
    complexity_visitor.complexity] *)
Definition complexity (item : node) : Z := cvisit item ComplexityVisitor_init.

(** What visiting [n] adds to the counter. *)
Definition added (n : node) : Z := cvisit n 0.
Definition added_list (l : list node) : Z := visit_list cvisit l 0.

(** The method of the scenario:
<<
    def f(self, x, y):
        if x > 0 and y > 0:
            return 1
        return 0
>> *)
Definition scenario_body : list node :=
  [ If (BoolOp And [ Compare (Name "x") [Constant "0"];
                     Compare (Name "y") [Constant "0"] ])
       [ Return (Some (Constant "1")) ]
       [];
    Return (Some (Constant "0")) ].

Definition scenario_method : node :=
  FunctionDef "f" [] scenario_body [] None.

(** ** The nodes of a tree

    [ast.iter_child_nodes]: the nodes in the fields of a node, in the order
    of [_fields]; the children of a [comprehension] or of a [withitem] stand
    in its place. *)
Definition comprehension_children (g : comprehension node) : list node :=
  target g :: iter g :: ifs g.

Definition withitem_children (w : withitem node) : list node :=
  context_expr w :: option_list (optional_vars w).

Definition children (n : node) : list node :=
  match n with
  | FunctionDef _ args body decos returns
  | AsyncFunctionDef _ args body decos returns =>
      args ++ body ++ decos ++ option_list returns
  | Return value | Yield value => option_list value
  | Assign targets value => targets ++ [value]
  | AnnAssign tgt annotation value => tgt :: annotation :: option_list value
  | For tgt it body orelse | AsyncFor tgt it body orelse =>
      tgt :: it :: body ++ orelse
  | While test body orelse | If test body orelse => test :: body ++ orelse
  | With items body | AsyncWith items body =>
      flat_map withitem_children items ++ body
  | Match subject cases => subject :: cases
  | MatchCase pattern guard body => pattern :: option_list guard ++ body
  | Raise exc cause => option_list exc ++ option_list cause
  | Try body handlers orelse finalbody =>
      body ++ handlers ++ orelse ++ finalbody
  | ExceptHandler type body => option_list type ++ body
  | Assert test msg => test :: option_list msg
  | Expr value | YieldFrom value | Attribute value _ => [value]
  | BoolOp _ values => values
  | NamedExpr tgt value => [tgt; value]
  | Lambda args body => args ++ [body]
  | IfExp test body orelse => [test; body; orelse]
  | ListComp elt gens | SetComp elt gens | GeneratorExp elt gens =>
      elt :: flat_map comprehension_children gens
  | DictComp key value gens =>
      key :: value :: flat_map comprehension_children gens
  | Compare lhs comparators => lhs :: comparators
  | Call func args keywords => func :: args ++ keywords
  | Constant _ | Name _ => []
  | Other _ l => l
  end.

Section Nodes.
Variable nodes : node -> list node.

Definition nodes_opt (o : option node) : list node :=
  match o with Some n => nodes n | None => [] end.

Definition nodes_comprehensions (l : list (comprehension node)) : list node :=
  flat_map
    (fun g =>
       (nodes (target g) ++ nodes (iter g) ++ flat_map nodes (ifs g))%list)
    l.

Definition nodes_withitems (l : list (withitem node)) : list node :=
  flat_map
    (fun w => (nodes (context_expr w) ++ nodes_opt (optional_vars w))%list) l.
End Nodes.

(** The nodes of the tree under [n], [n] first and then the nodes under
    each child in turn: the nodes [ast.walk] yields (breadth-first there),
    without the [comprehension] and [withitem] nodes, whose children stand
    in their place. *)
Fixpoint subnodes (n : node) {struct n} : list node :=
  n ::
  match n with
  | FunctionDef _ args body decos returns
  | AsyncFunctionDef _ args body decos returns =>
      flat_map subnodes args ++ flat_map subnodes body
      ++ flat_map subnodes decos ++ nodes_opt subnodes returns
  | Return value | Yield value => nodes_opt subnodes value
  | Assign targets value => flat_map subnodes targets ++ subnodes value
  | AnnAssign tgt annotation value =>
      subnodes tgt ++ subnodes annotation ++ nodes_opt subnodes value
  | For tgt it body orelse | AsyncFor tgt it body orelse =>
      subnodes tgt ++ subnodes it
      ++ flat_map subnodes body ++ flat_map subnodes orelse
  | While test body orelse | If test body orelse =>
      subnodes test ++ flat_map subnodes body ++ flat_map subnodes orelse
  | With items body | AsyncWith items body =>
      nodes_withitems subnodes items ++ flat_map subnodes body
  | Match subject cases => subnodes subject ++ flat_map subnodes cases
  | MatchCase pattern guard body =>
      subnodes pattern ++ nodes_opt subnodes guard ++ flat_map subnodes body
  | Raise exc cause => nodes_opt subnodes exc ++ nodes_opt subnodes cause
  | Try body handlers orelse finalbody =>
      flat_map subnodes body ++ flat_map subnodes handlers
      ++ flat_map subnodes orelse ++ flat_map subnodes finalbody
  | ExceptHandler type body =>
      nodes_opt subnodes type ++ flat_map subnodes body
  | Assert test msg => subnodes test ++ nodes_opt subnodes msg
  | Expr value | YieldFrom value | Attribute value _ => subnodes value
  | BoolOp _ values => flat_map subnodes values
  | NamedExpr tgt value => subnodes tgt ++ subnodes value
  | Lambda args body => flat_map subnodes args ++ subnodes body
  | IfExp test body orelse =>
      subnodes test ++ subnodes body ++ subnodes orelse
  | ListComp elt gens | SetComp elt gens | GeneratorExp elt gens =>
      subnodes elt ++ nodes_comprehensions subnodes gens
  | DictComp key value gens =>
      subnodes key ++ subnodes value ++ nodes_comprehensions subnodes gens
  | Compare lhs comparators => subnodes lhs ++ flat_map subnodes comparators
  | Call func args keywords =>
      subnodes func ++ flat_map subnodes args ++ flat_map subnodes keywords
  | Constant _ | Name _ => []
  | Other _ l => flat_map subnodes l
  end.

(** What the [visit_] method of [ComplexityVisitor] for the kind of [n] adds
    to the counter, before [generic_visit] goes on to the children: the
    statements [self.complexity += ...] of the class. *)
Definition increment (n : node) : Z :=
  match n with
  | If _ _ _ | For _ _ _ _ | AsyncFor _ _ _ _ | While _ _ _
  | ExceptHandler _ _ | IfExp _ _ _ => 1
  | BoolOp _ values => Z.of_nat (length values) - 1
  | ListComp _ gens | SetComp _ gens | GeneratorExp _ gens
  | DictComp _ _ gens => Z.of_nat (length (flat_map ifs gens))
  | Match _ cases => 1 + Z.of_nat (length cases)
  | _ => 0
  end.

(** The increments of the nodes of a list, added up. *)
Definition increments (l : list node) : Z :=
  fold_right (fun n z => increment n + z) 0 l.

(** ** [MethodVisitor]

    The state is the three sets the visitor fills. *)

Record MethodVisitor : Type := mkMethodVisitor {
  mv_method_calls : gset string;
  mv_attributes : gset string;
  mv_classes : gset string
}.

Definition MethodVisitor_init : MethodVisitor := mkMethodVisitor ∅ ∅ ∅.

Definition add_call (x : string) (s : MethodVisitor) : MethodVisitor :=
  mkMethodVisitor ({[x]} ∪ mv_method_calls s) (mv_attributes s) (mv_classes s).
Definition add_attribute (x : string) (s : MethodVisitor) : MethodVisitor :=
  mkMethodVisitor (mv_method_calls s) ({[x]} ∪ mv_attributes s) (mv_classes s).
Definition add_class (x : string) (s : MethodVisitor) : MethodVisitor :=
  mkMethodVisitor (mv_method_calls s) (mv_attributes s) ({[x]} ∪ mv_classes s).

(** The comprehension visitors of [MethodVisitor] visit [generator.iter]
    before [generator.target]. *)
Definition visit_generators {S : Type} (visit : node -> S -> S)
    (l : list (comprehension node)) (s : S) : S :=
  fold_left
    (fun s g => visit_list visit (ifs g) (visit (target g) (visit (iter g) s)))
    l s.

(** [visit_Call], before it continues with [generic_visit]. *)
Definition record_call (func : node) (s : MethodVisitor) : MethodVisitor :=
  match func with
  | Name id => add_call id s
  | Attribute value attr =>
      add_call attr
        match value with
        | Name id => add_class id s
        | _ => s
        end
  | _ => s
  end.

(** [visit_Attribute], before it continues with [generic_visit]. *)
Definition record_attribute (value : node) (attr : string)
    (s : MethodVisitor) : MethodVisitor :=
  match value with
  | Name id => if decide (id = "self") then add_attribute attr s else s
  | _ => s
  end.

Fixpoint mvisit (n : node) (s : MethodVisitor) {struct n} : MethodVisitor :=
  match n with
  | Call func args keywords =>
      visit_list mvisit keywords
        (visit_list mvisit args (mvisit func (record_call func s)))
  | Attribute value attr => mvisit value (record_attribute value attr s)
  | Try body handlers orelse finalbody =>
      visit_list mvisit finalbody
        (visit_list mvisit orelse
           (visit_list mvisit handlers (visit_list mvisit body s)))
  | With items body | AsyncWith items body =>
      visit_list mvisit body (visit_withitems mvisit items s)
  | ListComp elt gens | SetComp elt gens | GeneratorExp elt gens =>
      visit_generators mvisit gens (mvisit elt s)
  | DictComp key value gens =>
      visit_generators mvisit gens (mvisit value (mvisit key s))
  | Match subject cases => visit_list mvisit cases (mvisit subject s)
  (* every other kind: generic_visit *)
  | FunctionDef _ args body decos returns
  | AsyncFunctionDef _ args body decos returns =>
      visit_opt mvisit returns
        (visit_list mvisit decos
           (visit_list mvisit body (visit_list mvisit args s)))
  | Return value | Yield value => visit_opt mvisit value s
  | Assign targets value => mvisit value (visit_list mvisit targets s)
  | AnnAssign tgt annotation value =>
      visit_opt mvisit value (mvisit annotation (mvisit tgt s))
  | For tgt it body orelse | AsyncFor tgt it body orelse =>
      visit_list mvisit orelse
        (visit_list mvisit body (mvisit it (mvisit tgt s)))
  | While test body orelse | If test body orelse =>
      visit_list mvisit orelse (visit_list mvisit body (mvisit test s))
  | MatchCase pattern guard body =>
      visit_list mvisit body (visit_opt mvisit guard (mvisit pattern s))
  | Raise exc cause => visit_opt mvisit cause (visit_opt mvisit exc s)
  | ExceptHandler type body =>
      visit_list mvisit body (visit_opt mvisit type s)
  | Assert test msg => visit_opt mvisit msg (mvisit test s)
  | Expr value | YieldFrom value => mvisit value s
  | BoolOp _ values => visit_list mvisit values s
  | NamedExpr tgt value => mvisit value (mvisit tgt s)
  | Lambda args body => mvisit body (visit_list mvisit args s)
  | IfExp test body orelse => mvisit orelse (mvisit body (mvisit test s))
  | Compare lhs comparators => visit_list mvisit comparators (mvisit lhs s)
  | Constant _ | Name _ => s
  | Other _ children => visit_list mvisit children s
  end.

(** [method_visitor = MethodVisitor(); method_visitor.visit(item)] *)
Definition method_visitor (item : node) : MethodVisitor :=
  mvisit item MethodVisitor_init.

(** [CKMetrics._get_attribute_name]: the attribute chain from the innermost
    name outwards, joined with dots. *)
Fixpoint attribute_parts (n : node) : list string :=
  match n with
  | Attribute value attr => attribute_parts value ++ [attr]
  | Name id => [id]
  | _ => []
  end.

Definition _get_attribute_name (n : node) : string :=
  String.concat "." (attribute_parts n).

(** ** The trees of the parser *)

Section AllChildren.
Variable ok : node -> bool.

Definition all_opt (o : option node) : bool :=
  match o with Some n => ok n | None => true end.

Definition all_comprehensions (l : list (comprehension node)) : bool :=
  forallb (fun g => ok (target g) && ok (iter g) && forallb ok (ifs g)) l.

Definition all_withitems (l : list (withitem node)) : bool :=
  forallb (fun w => ok (context_expr w) && all_opt (optional_vars w)) l.
End AllChildren.

(** The trees a Python parser builds: a boolean operation has two operands
    or more, everywhere in the tree. *)
Fixpoint parser_shaped (n : node) {struct n} : bool :=
  match n with
  | BoolOp _ values =>
      (2 <=? length values)%nat && forallb parser_shaped values
  | FunctionDef _ args body decos returns
  | AsyncFunctionDef _ args body decos returns =>
      forallb parser_shaped args && forallb parser_shaped body
      && forallb parser_shaped decos && all_opt parser_shaped returns
  | Return value | Yield value => all_opt parser_shaped value
  | Assign targets value =>
      forallb parser_shaped targets && parser_shaped value
  | AnnAssign tgt annotation value =>
      parser_shaped tgt && parser_shaped annotation
      && all_opt parser_shaped value
  | For tgt it body orelse | AsyncFor tgt it body orelse =>
      parser_shaped tgt && parser_shaped it
      && forallb parser_shaped body && forallb parser_shaped orelse
  | While test body orelse | If test body orelse =>
      parser_shaped test
      && forallb parser_shaped body && forallb parser_shaped orelse
  | With items body | AsyncWith items body =>
      all_withitems parser_shaped items && forallb parser_shaped body
  | Match subject cases =>
      parser_shaped subject && forallb parser_shaped cases
  | MatchCase pattern guard body =>
      parser_shaped pattern && all_opt parser_shaped guard
      && forallb parser_shaped body
  | Raise exc cause => all_opt parser_shaped exc && all_opt parser_shaped cause
  | Try body handlers orelse finalbody =>
      forallb parser_shaped body && forallb parser_shaped handlers
      && forallb parser_shaped orelse && forallb parser_shaped finalbody
  | ExceptHandler type body =>
      all_opt parser_shaped type && forallb parser_shaped body
  | Assert test msg => parser_shaped test && all_opt parser_shaped msg
  | Expr value | YieldFrom value | Attribute value _ => parser_shaped value
  | NamedExpr tgt value => parser_shaped tgt && parser_shaped value
  | Lambda args body => forallb parser_shaped args && parser_shaped body
  | IfExp test body orelse =>
      parser_shaped test && parser_shaped body && parser_shaped orelse
  | ListComp elt gens | SetComp elt gens | GeneratorExp elt gens =>
      parser_shaped elt && all_comprehensions parser_shaped gens
  | DictComp key value gens =>
      parser_shaped key && parser_shaped value
      && all_comprehensions parser_shaped gens
  | Compare lhs comparators =>
      parser_shaped lhs && forallb parser_shaped comparators
  | Call func args keywords =>
      parser_shaped func && forallb parser_shaped args
      && forallb parser_shaped keywords
  | Constant _ | Name _ => true
  | Other _ children => forallb parser_shaped children
  end.

(** ** What [MethodVisitor] records at a node

    What the [visit_] method of [MethodVisitor] for the kind of [n] adds to
    the three sets before it goes on to the children. *)
Definition records (n : node) : MethodVisitor :=
  match n with
  | Call func _ _ => record_call func MethodVisitor_init
  | Attribute value attr => record_attribute value attr MethodVisitor_init
  | _ => MethodVisitor_init
  end.

Definition mv_union (s t : MethodVisitor) : MethodVisitor :=
  mkMethodVisitor (mv_method_calls s ∪ mv_method_calls t)
    (mv_attributes s ∪ mv_attributes t) (mv_classes s ∪ mv_classes t).

Definition mv_unions (l : list MethodVisitor) : MethodVisitor :=
  fold_right mv_union MethodVisitor_init l.


End Ast.

(* ===================================================================== *)
(** * The graph operations used from networkx                             *)
(* ===================================================================== *)

Module Nx.

(** ** [nx.DiGraph]: nodes and edges in insertion order, no duplicates *)

Record DiGraph : Type := mkDiGraph {
  nodes : list string;
  edges : list (string * string)
}.

Definition empty : DiGraph := mkDiGraph [] [].

Definition add_node (n : string) (g : DiGraph) : DiGraph :=
  if decide (n ∈ nodes g) then g else mkDiGraph (nodes g ++ [n]) (edges g).

(** [add_edge] adds both end points as nodes when they are not there yet. *)
Definition add_edge (u v : string) (g : DiGraph) : DiGraph :=
  let g' := add_node v (add_node u g) in
  if decide ((u, v) ∈ edges g') then g'
  else mkDiGraph (nodes g') (edges g' ++ [(u, v)]).

Definition successors (g : DiGraph) (u : string) : list string :=
  (filter (fun e => e.1 = u) (edges g)).*2.

Definition predecessors (g : DiGraph) (v : string) : list string :=
  (filter (fun e => e.2 = v) (edges g)).*1.

Definition in_degree (g : DiGraph) (v : string) : nat :=
  length (predecessors g v).

(** [all_simple_paths]: depth-first enumeration of the paths without a
    repeated node from [u] to [target]; [visited] is the path walked so far,
    [fuel] bounds the number of edges still to walk (networkx's [cutoff],
    [len(G) - 1] by default).  A path stops at [target]; for [u = target]
    the only path is [[u]]. *)
Fixpoint simple_paths_from (fuel : nat) (g : DiGraph) (target : string)
    (visited : list string) (u : string) : list (list string) :=
  if decide (u = target) then [[u]]
  else
    match fuel with
    | O => []
    | S fuel' =>
        flat_map
          (fun v => map (cons u)
                      (simple_paths_from fuel' g target (u :: visited) v))
          (filter (fun v => v ∉ u :: visited) (successors g u))
    end.

Definition all_simple_paths (g : DiGraph) (source target : string)
  : list (list string) :=
  simple_paths_from (length (nodes g)) g target [] source.

(** networkx before version 3 yields no path at all for
    [source = target]. *)
Definition all_simple_paths_v2 (g : DiGraph) (source target : string)
  : list (list string) :=
  if decide (source = target) then [] else all_simple_paths g source target.

(** ** [nx.Graph]: the undirected graph *)

Record Graph : Type := mkGraph {
  unodes : list string;
  uedges : list (string * string)
}.

Definition uempty : Graph := mkGraph [] [].

Definition uadd_node (n : string) (g : Graph) : Graph :=
  if decide (n ∈ unodes g) then g else mkGraph (unodes g ++ [n]) (uedges g).

Definition uadd_edge (u v : string) (g : Graph) : Graph :=
  let g' := uadd_node v (uadd_node u g) in
  if decide ((u, v) ∈ uedges g' ∨ (v, u) ∈ uedges g') then g'
  else mkGraph (unodes g') (uedges g' ++ [(u, v)]).

(** [G.adj[v]]: an edge is seen from both of its ends. *)
Definition neighbors (g : Graph) (v : string) : list string :=
  (filter (fun e => e.1 = v) (uedges g)).*2
  ++ (filter (fun e => e.2 = v) (uedges g)).*1.

(** One round of the breadth-first search: the nodes seen, and their
    neighbours. *)
Definition expand (g : Graph) (seen : gset string) : gset string :=
  seen ∪ list_to_set (flat_map (neighbors g) (elements seen)).

(** [_plain_bfs(G, n, source)]: the nodes reachable from [source].  Each
    round before the last adds a node, so [len(G)] rounds are enough. *)
Definition plain_bfs (g : Graph) (source : string) : gset string :=
  Nat.iter (length (unodes g)) (expand g) {[source]}.

(** [connected_components]: [for v in G: if v not in seen: c = bfs(v);
    seen.update(c); yield c]. *)
Fixpoint components_loop (g : Graph) (l : list string) (seen : gset string)
  : list (gset string) :=
  match l with
  | [] => []
  | v :: l' =>
      if decide (v ∈ seen) then components_loop g l' seen
      else
        let c := plain_bfs g v in
        c :: components_loop g l' (seen ∪ c)
  end.

Definition connected_components (g : Graph) : list (gset string) :=
  components_loop g (unodes g) ∅.

Definition number_connected_components (g : Graph) : nat :=
  length (connected_components g).

(** ** The invariant of both graphs: the ends of an edge are nodes *)

Definition closed (g : DiGraph) : Prop :=
  forall u v, (u, v) ∈ edges g -> u ∈ nodes g /\ v ∈ nodes g.

Definition uclosed (g : Graph) : Prop :=
  forall u v, (u, v) ∈ uedges g -> u ∈ unodes g /\ v ∈ unodes g.

(** ** Connected components, in the words of the specification *)

(** Two nodes are adjacent when an edge joins them, in either direction. *)
Definition adjacent (g : Graph) (u v : string) : Prop :=
  (u, v) ∈ uedges g \/ (v, u) ∈ uedges g.

(** [component_count ns R n]: the nodes [ns] fall into [n] classes of nodes
    linked by chains of [R]: there are [n] representatives among [ns], every
    node is linked with a representative, and no two representatives are
    linked. *)
Definition component_count (ns : list string) (R : relation string) (n : nat)
  : Prop :=
  exists reps : list string,
    length reps = n /\ NoDup reps /\
    (forall r, r ∈ reps -> r ∈ ns) /\
    (forall v, v ∈ ns -> exists r, r ∈ reps /\ rtc R r v) /\
    (forall r1 r2, r1 ∈ reps -> r2 ∈ reps -> rtc R r1 r2 -> r1 = r2).

(** ** Paths, in the words of the specification *)

(** [walk g t u p]: [p] lists the nodes of a path of [g] from [u] to [t]. *)
Inductive walk (g : DiGraph) (t : string) : string -> list string -> Prop :=
| walk_end : walk g t t [t]
| walk_step u v p :
    (u, v) ∈ edges g -> walk g t v p -> walk g t u (u :: p).

Definition simple_path (g : DiGraph) (u t : string) (p : list string) : Prop :=
  walk g t u p /\ NoDup p.

(** A root has no incoming edge. *)
Definition root (g : DiGraph) (r : string) : Prop :=
  r ∈ nodes g /\ forall u, (u, r) ∉ edges g.

End Nx.

(* ===================================================================== *)
(** * [ck_metrics.py]: the class model and the six metrics                *)
(* ===================================================================== *)

Module CK.
Import Ast.

(** ** Insertion-ordered [dict]s keyed by name

    [d[k] = v] replaces the value of a key that is there, in place, and
    appends a new key at the end. *)

Fixpoint dict_set {V : Type} (k : string) (v : V) (d : list (string * V))
  : list (string * V) :=
  match d with
  | [] => [(k, v)]
  | (k', v') :: d' =>
      if decide (k' = k) then (k, v) :: d' else (k', v') :: dict_set k v d'
  end.

Fixpoint dict_get {V : Type} (k : string) (d : list (string * V)) : option V :=
  match d with
  | [] => None
  | (k', v') :: d' => if decide (k' = k) then Some v' else dict_get k d'
  end.

Definition dict_keys {V : Type} (d : list (string * V)) : list string := d.*1.

(** ** [ClassInfo] *)

Record ClassInfo : Type := mkClassInfo {
  name : string;
  bases : list string;
  methods : gset string;
  attributes : gset string;
  method_calls : gmap string (gset string);
  method_attrs : gmap string (gset string);
  called_classes : gset string;
  method_complexity : gmap string Z
}.

(** [ClassInfo.__init__] *)
Definition ClassInfo_init (name : string) (bases : list string) : ClassInfo :=
  mkClassInfo name bases ∅ ∅ ∅ ∅ ∅ ∅.

(** ** [CKMetrics]: the analyzer's state *)

Record CKMetrics : Type := mkCKMetrics {
  classes : list (string * ClassInfo);
  inheritance_graph : Nx.DiGraph;
  file_paths : list (string * string);
  class_filter : option (list string)
}.

Definition CKMetrics_init (class_filter : option (list string)) : CKMetrics :=
  mkCKMetrics [] Nx.empty [] class_filter.

(** An [ast.ClassDef] node, with the fields [_process_ast] reads. *)
Record ClassDef : Type := mkClassDef {
  cd_name : string;
  cd_bases : list node;
  cd_body : list node
}.

(** [[base.id if isinstance(base, ast.Name) else
      self._get_attribute_name(base)
      for base in node.bases if isinstance(base, (ast.Name, ast.Attribute))]] *)
Definition resolve_bases (l : list node) : list string :=
  flat_map (fun base =>
              match base with
              | Name id => [id]
              | Attribute _ _ => [_get_attribute_name base]
              | _ => []
              end) l.

Definition add_attr (x : string) (ci : ClassInfo) : ClassInfo :=
  mkClassInfo (name ci) (bases ci) (methods ci) ({[x]} ∪ attributes ci)
    (method_calls ci) (method_attrs ci) (called_classes ci)
    (method_complexity ci).

(** The target of a class-level assignment: a plain name, or [self.attr]. *)
Definition record_target (tgt : node) (ci : ClassInfo) : ClassInfo :=
  match tgt with
  | Name id => add_attr id ci
  | Attribute (Name id) attr =>
      if decide (id = "self") then add_attr attr ci else ci
  | _ => ci
  end.

Definition record_method (method_name : string) (item : node)
    (ci : ClassInfo) : ClassInfo :=
  let mv := method_visitor item in
  mkClassInfo (name ci) (bases ci)
    ({[method_name]} ∪ methods ci)
    (attributes ci)
    (<[method_name := mv_method_calls mv]> (method_calls ci))
    (<[method_name := mv_attributes mv]> (method_attrs ci))
    (called_classes ci ∪ mv_classes mv)
    (<[method_name := complexity item]> (method_complexity ci)).

(** The body of [for item in node.body]. *)
Definition process_item (item : node) (ci : ClassInfo) : ClassInfo :=
  match item with
  | FunctionDef method_name _ _ _ _
  | AsyncFunctionDef method_name _ _ _ _ => record_method method_name item ci
  | Assign targets _ => fold_left (fun ci t => record_target t ci) targets ci
  | AnnAssign tgt _ _ => record_target tgt ci
  | _ => ci
  end.

(** The edges one declaration adds: [add_node(class_name)], then an edge
    from every base that is not ['object']. *)
Definition add_inheritance (class_name : string) (bases : list string)
    (g : Nx.DiGraph) : Nx.DiGraph :=
  fold_left
    (fun g base =>
       if decide (base ≠ "object") then Nx.add_edge base class_name g else g)
    bases (Nx.add_node class_name g).

Definition accepted (flt : option (list string)) (class_name : string) : bool :=
  match flt with
  | Some l => bool_decide (class_name ∈ l)
  | None => true
  end.

(** The [ClassInfo] of one declaration: created with its name and bases,
    then filled by the loop over the body. *)
Definition class_info_of (cd : ClassDef) : ClassInfo :=
  fold_left (fun ci item => process_item item ci) (cd_body cd)
    (ClassInfo_init (cd_name cd) (resolve_bases (cd_bases cd))).

(** The body of [for node in ast.walk(tree): if isinstance(node, ClassDef)]. *)
Definition process_classdef (file_path : string) (cd : ClassDef)
    (st : CKMetrics) : CKMetrics :=
  if accepted (class_filter st) (cd_name cd) then
    let bases := resolve_bases (cd_bases cd) in
    let class_name := cd_name cd in
    mkCKMetrics
      (dict_set class_name (class_info_of cd) (classes st))
      (add_inheritance class_name bases (inheritance_graph st))
      (dict_set class_name file_path (file_paths st))
      (class_filter st)
  else st.

(** [_process_ast]; [tree] is the sequence of [ClassDef] nodes that
    [ast.walk] yields. *)
Definition _process_ast (tree : list ClassDef) (file_path : string)
    (st : CKMetrics) : CKMetrics :=
  fold_left (fun st cd => process_classdef file_path cd st) tree st.

(** [parse_directory]: every file in turn, [(file_path, tree)]. *)
Definition parse_files (files : list (string * list ClassDef))
    (st : CKMetrics) : CKMetrics :=
  fold_left (fun st f => _process_ast f.2 f.1 st) files st.

(** The declarations of a project in the order they are processed, each
    with the path of its file. *)
Definition declarations (files : list (string * list ClassDef))
  : list (string * ClassDef) :=
  flat_map (fun f => map (pair f.1) f.2) files.

(** The analyzer after the declarations [ds], each with its file path. *)
Definition process_all (ds : list (string * ClassDef)) (st : CKMetrics)
  : CKMetrics :=
  fold_left (fun st d => process_classdef d.1 d.2 st) ds st.

(** [declares flt ds e]: an accepted declaration of [ds] has the class
    [e.2] with the base [e.1], which is not ['object']. *)
Definition declares (flt : option (list string)) (ds : list (string * ClassDef))
    (e : string * string) : Prop :=
  exists d, d ∈ ds /\ accepted flt (cd_name d.2) = true /\
            e.2 = cd_name d.2 /\ e.1 ∈ resolve_bases (cd_bases d.2) /\
            e.1 <> "object".

(** ** The metric calculators *)

(** Python's [sum] and [max] over integers. *)
Definition sum (l : list Z) : Z := fold_left Z.add l 0.

Definition max_of (x : Z) (l : list Z) : Z := fold_left Z.max l x.

(** [_calculate_wmc] *)
Definition _calculate_wmc (class_info : ClassInfo) : Z :=
  sum (map (fun method => default 1 (method_complexity class_info !! method))
           (elements (methods class_info))).

(** [max(len(path) - 1 for path in paths)], for the non-empty [paths]. *)
Definition path_depth (path : list string) : Z := Z.of_nat (length path) - 1.

Definition roots (g : Nx.DiGraph) : list string :=
  filter (fun node => Nx.in_degree g node = 0%nat) (Nx.nodes g).

(** [_calculate_dit] *)
Definition _calculate_dit (st : CKMetrics) (class_name : string) : Z :=
  let g := inheritance_graph st in
  if decide (class_name ∈ Nx.nodes g) then
    fold_left
      (fun max_depth root =>
         match Nx.all_simple_paths g root class_name with
         | [] => max_depth
         | path :: paths =>
             Z.max max_depth
                   (max_of (path_depth path) (map path_depth paths))
         end)
      (roots g) 0
  else 0.

(** The complexity a method counts with: the recorded one, 1 without. *)
Definition counted (ci : ClassInfo) (m : string) : Z :=
  default 1 (method_complexity ci !! m).

(** The depth in the words of the specification: [p] is a simple path from
    a root to [c]; [d] is the length in edges of a longest one, and 0 when
    there is none. *)
Definition root_path (g : Nx.DiGraph) (c : string) (p : list string) : Prop :=
  exists r, Nx.root g r /\ Nx.simple_path g r c p.

Definition longest_root_path (g : Nx.DiGraph) (c : string) (d : Z) : Prop :=
  (forall p, root_path g c p -> path_depth p <= d) /\
  ((exists p, root_path g c p /\ path_depth p = d) \/
   (d = 0 /\ forall p, ~ root_path g c p)).

(** [_calculate_noc] *)
Definition _calculate_noc (st : CKMetrics) (class_name : string) : Z :=
  let g := inheritance_graph st in
  if decide (class_name ∈ Nx.nodes g) then
    Z.of_nat (length (Nx.successors g class_name))
  else 0.

(** [if x in self.classes and x != class_name: coupled_classes.add(x)] *)
Definition couple_if_class (st : CKMetrics) (class_name : string)
    (coupled : gset string) (x : string) : gset string :=
  if decide (x ∈ dict_keys (classes st) ∧ x ≠ class_name)
  then {[x]} ∪ coupled else coupled.

(** The set [coupled_classes] that [_calculate_cbo] counts. *)
Definition coupled_classes (st : CKMetrics) (class_name : string)
    (class_info : ClassInfo) : gset string :=
  let c0 : gset string :=
    list_to_set (bases class_info ++ elements (called_classes class_info)) in
  let c1 :=
    fold_left
      (fun c kv => fold_left (couple_if_class st class_name) (elements kv.2) c)
      (map_to_list (method_calls class_info)) c0 in
  let c2 :=
    fold_left (couple_if_class st class_name)
      (elements (attributes class_info)) c1 in
  (c2 ∖ {["object"]}) ∖ {["self"]}.

(** [_calculate_cbo] *)
Definition _calculate_cbo (st : CKMetrics) (class_name : string)
    (class_info : ClassInfo) : Z :=
  Z.of_nat (size (coupled_classes st class_name class_info)).

Section Builtins.
(** The names of Python's [__builtins__] namespace. *)
Variable builtins : gset string.

Definition special_builtins : gset string :=
  list_to_set
    ["super"; "getattr"; "setattr"; "delattr"; "hasattr"; "type"; "dir"].

(** [_is_builtin_function] *)
Definition _is_builtin_function (method_name : string) : bool :=
  if decide (method_name ∈ special_builtins) then false
  else if decide (method_name ∉ builtins) then false
  else true.

(** [_calculate_rfc] *)
Definition _calculate_rfc (class_info : ClassInfo) : Z :=
  let response_set :=
    fold_left
      (fun r kv =>
         r ∪ filter (fun method => _is_builtin_function method = false) kv.2)
      (map_to_list (method_calls class_info)) (methods class_info) in
  Z.of_nat (size response_set).
End Builtins.

(** The method graph of [_calculate_lcom4]. *)
Definition share_attribute_edges (class_info : ClassInfo) (method1 : string)
    (g : Nx.Graph) : Nx.Graph :=
  let attrs1 := default ∅ (method_attrs class_info !! method1) in
  fold_left
    (fun g method2 =>
       if decide (method1 ≠ method2) then
         let attrs2 := default ∅ (method_attrs class_info !! method2) in
         if decide (attrs1 ∩ attrs2 ≠ ∅) then Nx.uadd_edge method1 method2 g
         else g
       else g)
    (elements (methods class_info)) g.

Definition call_edges (class_info : ClassInfo) (method1 : string)
    (g : Nx.Graph) : Nx.Graph :=
  fold_left
    (fun g called =>
       if decide (called ∈ methods class_info)
       then Nx.uadd_edge method1 called g else g)
    (elements (default ∅ (method_calls class_info !! method1))) g.

Definition method_graph (class_info : ClassInfo) : Nx.Graph :=
  let ms := elements (methods class_info) in
  let g0 := fold_left (fun g method => Nx.uadd_node method g) ms Nx.uempty in
  fold_left
    (fun g method1 =>
       call_edges class_info method1
         (share_attribute_edges class_info method1 g))
    ms g0.

(** [_calculate_lcom4] *)
Definition _calculate_lcom4 (class_info : ClassInfo) : Z :=
  if decide (methods class_info = ∅) then 0
  else Z.of_nat (Nx.number_connected_components (method_graph class_info)).

(** The cohesion of two methods, in the words of the specification: two
    distinct methods of the class whose sets of [self] attributes intersect,
    or one of which calls the other by name. *)
Definition attrs_of (ci : ClassInfo) (m : string) : gset string :=
  default ∅ (method_attrs ci !! m).

Definition calls_of (ci : ClassInfo) (m : string) : gset string :=
  default ∅ (method_calls ci !! m).

Definition cohesive (ci : ClassInfo) (m1 m2 : string) : Prop :=
  m1 ∈ methods ci /\ m2 ∈ methods ci /\ m1 <> m2 /\
  (attrs_of ci m1 ∩ attrs_of ci m2 ≠ ∅ \/
   m2 ∈ calls_of ci m1 \/ m1 ∈ calls_of ci m2).

(** [_calculate_normalized_lcom4]; the quotient of two integers is the
    rational that Python's [/] rounds to a float. *)
Definition _calculate_normalized_lcom4 (class_info : ClassInfo) (lcom4 : Z)
  : Q :=
  let method_count := Z.of_nat (size (methods class_info)) in
  if decide (method_count <= 1) then 0%Q
  else Qdiv (inject_Z (lcom4 - 1)) (inject_Z (method_count - 1)).

(** ** [ClassMetrics] and [calculate_metrics] *)

Record ClassMetrics : Type := mkClassMetrics {
  wmc : Z;
  dit : Z;
  noc : Z;
  cbo : Z;
  rfc : Z;
  lcom4 : Z;
  lcom4_normalized : Q;
  methods_complexity : gmap string Z  (* the ['methods'] entry *)
}.

Record ProjectMetrics : Type := mkProjectMetrics {
  files : list (string * list (string * ClassMetrics));
  class_summary : list (string * ClassMetrics)
}.

(** [_calculate_class_metrics] *)
Definition _calculate_class_metrics (builtins : gset string) (st : CKMetrics)
    (class_name : string) (class_info : ClassInfo) : ClassMetrics :=
  let lcom4 := _calculate_lcom4 class_info in
  mkClassMetrics
    (_calculate_wmc class_info)
    (_calculate_dit st class_name)
    (_calculate_noc st class_name)
    (_calculate_cbo st class_name class_info)
    (_calculate_rfc builtins class_info)
    lcom4
    (_calculate_normalized_lcom4 class_info lcom4)
    (set_to_map
       (fun method =>
          (method, default 1 (method_complexity class_info !! method)))
       (methods class_info)).

(** [calculate_metrics] *)
Definition calculate_metrics (builtins : gset string) (st : CKMetrics)
  : ProjectMetrics :=
  fold_left
    (fun result kv =>
       let class_name := kv.1 in
       let class_metrics :=
         _calculate_class_metrics builtins st class_name kv.2 in
       let file_path :=
         default "unknown" (dict_get class_name (file_paths st)) in
       let file_classes := default [] (dict_get file_path (files result)) in
       mkProjectMetrics
         (dict_set file_path (dict_set class_name class_metrics file_classes)
            (files result))
         (dict_set class_name class_metrics (class_summary result)))
    (classes st) (mkProjectMetrics [] []).

(** ** Notions used to state what the analysis records *)


(** What the items of a class body stand for: a method definition of a
    name, an assignment to an attribute. *)
Definition is_def (item : node) : Prop :=
  match item with
  | FunctionDef _ _ _ _ _ | AsyncFunctionDef _ _ _ _ _ => True
  | _ => False
  end.

Definition defines (item : node) (m : string) : Prop :=
  match item with
  | FunctionDef n _ _ _ _ | AsyncFunctionDef n _ _ _ _ => n = m
  | _ => False
  end.

(** The attribute an assignment target names: [x], or [attr] for
    [self.attr]. *)
Definition target_name (tgt : node) : option string :=
  match tgt with
  | Name id => Some id
  | Attribute (Name id) attr =>
      if decide (id = "self") then Some attr else None
  | _ => None
  end.

Definition assigns (item : node) (x : string) : Prop :=
  match item with
  | Assign targets _ => exists t, t ∈ targets /\ target_name t = Some x
  | AnnAssign tgt _ _ => target_name tgt = Some x
  | _ => False
  end.

(** [response_set] of [_calculate_rfc], before its size is taken. *)
Definition response_set (builtins : gset string) (class_info : ClassInfo)
  : gset string :=
  fold_left
    (fun r kv =>
       r ∪ filter (fun method => _is_builtin_function builtins method = false)
             kv.2)
    (map_to_list (method_calls class_info)) (methods class_info).

(** The entry of a class in the ['files'] part of the result. *)
Definition file_entry (r : ProjectMetrics) (file_path class_name : string)
  : option ClassMetrics :=
  dict_get file_path (files r) ≫= dict_get class_name.

(** The three mappings have the methods as keys. *)
Definition entries_match (ci : ClassInfo) : Prop :=
  forall m, (m ∈ methods ci <-> is_Some (method_calls ci !! m)) /\
            (m ∈ methods ci <-> is_Some (method_attrs ci !! m)) /\
            (m ∈ methods ci <-> is_Some (method_complexity ci !! m)).

End CK.

(* ===================================================================== *)
(** * [combine.py]: the aggregation of the per-class metrics              *)
(* ===================================================================== *)

Module Combine.

(** ** Exceptions *)

Inductive exn := ZeroDivisionError | StatisticsError.

Inductive result (A : Type) : Type :=
| Ok (a : A)
| Raise (e : exn).
Arguments Ok {A}.
Arguments Raise {A}.

Definition bind {A B : Type} (r : result A) (k : A -> result B) : result B :=
  match r with
  | Ok a => k a
  | Raise e => Raise e
  end.

#[export] Instance result_bind : MBind result := fun A B k r => bind r k.
#[export] Instance result_ret : MRet result := @Ok.

(** [[f(x) for x in l]] with an [f] that can raise. *)
Fixpoint mapM {A B : Type} (f : A -> result B) (l : list A) : result (list B) :=
  match l with
  | [] => Ok []
  | x :: l' => y ← f x; ys ← mapM f l'; Ok (y :: ys)
  end.

(** ** Numbers

    The metric values are Python numbers, [int]s and a [float]; the
    functions below use them through these operations only.  [div] is the
    quotient for a divisor that is not zero, [of_nat] turns a count into a
    number, [eq_zero x] is [x == 0] and [leb] is [<=]. *)
Class PyNum (num : Type) : Type := {
  zero : num;
  one : num;
  add : num -> num -> num;
  mul : num -> num -> num;
  div : num -> num -> num;
  of_nat : nat -> num;
  eq_zero : num -> bool;
  leb : num -> num -> bool
}.

(** The exact rationals: the value a float computation approximates. *)
#[export] Instance PyNum_Q : PyNum Q := {
  zero := 0%Q;
  one := 1%Q;
  add := Qplus;
  mul := Qmult;
  div := Qdiv;
  of_nat n := inject_Z (Z.of_nat n);
  eq_zero x := Qeq_bool x 0%Q;
  leb := Qle_bool
}.

(** The seven keys of a metrics record, and [ck_metrics], the list of them
    in [combine_metrics]. *)
Inductive metric := Wmc | Dit | Noc | Cbo | Rfc | Lcom4 | Lcom4_normalized.

#[export] Instance metric_eq_dec : EqDecision metric.
Proof. solve_decision. Defined.

Definition ck_metrics : list metric :=
  [Wmc; Dit; Noc; Cbo; Rfc; Lcom4; Lcom4_normalized].

(** [CombinedClassMetrics]; with [A := list num] it is also the seven lists
    of values the summaries collect. *)
Record CombinedClassMetrics (A : Type) : Type := mkCombined {
  wmc : A;
  dit : A;
  noc : A;
  cbo : A;
  rfc : A;
  lcom4 : A;
  lcom4_normalized : A
}.
Arguments mkCombined {A}.
Arguments wmc {A}.
Arguments dit {A}.
Arguments noc {A}.
Arguments cbo {A}.
Arguments rfc {A}.
Arguments lcom4 {A}.
Arguments lcom4_normalized {A}.

(** [class_data[metric]] *)
Definition get {A : Type} (m : metric) (r : CombinedClassMetrics A) : A :=
  match m with
  | Wmc => wmc r
  | Dit => dit r
  | Noc => noc r
  | Cbo => cbo r
  | Rfc => rfc r
  | Lcom4 => lcom4 r
  | Lcom4_normalized => lcom4_normalized r
  end.

(** [CombinedClassMetrics(wmc=d["wmc"], dit=d["dit"], ...)] *)
Definition of_dict {A : Type} (d : metric -> A) : CombinedClassMetrics A :=
  mkCombined (d Wmc) (d Dit) (d Noc) (d Cbo) (d Rfc) (d Lcom4)
    (d Lcom4_normalized).

Record CombinedProjectMetrics (num : Type) : Type := mkCombinedProject {
  original_metrics : list (string * CombinedClassMetrics num);
  weighted_metrics : list (string * CombinedClassMetrics num);
  weighted_metrics_combined : CombinedClassMetrics num;
  mean_metrics : CombinedClassMetrics num;
  median_metrics : CombinedClassMetrics num
}.
Arguments mkCombinedProject {num}.
Arguments original_metrics {num}.
Arguments weighted_metrics {num}.
Arguments weighted_metrics_combined {num}.
Arguments mean_metrics {num}.
Arguments median_metrics {num}.

Section Aggregation.
Context {num : Type} `{PyNum num}.

(** [class_summary], as far as [combine.py] reads it. *)
Local Abbreviation summary := (list (string * CombinedClassMetrics num)).

(** Python's [sum]: from [0], left to right. *)
Definition sum (l : list num) : num := fold_left add l zero.

(** [x / y] *)
Definition truediv (x y : num) : result num :=
  if eq_zero y then Raise ZeroDivisionError else Ok (div x y).

(** [x / n] for a counter [n] *)
Definition div_count (x : num) (n : nat) : result num :=
  match n with
  | O => Raise ZeroDivisionError
  | S _ => Ok (div x (of_nat n))
  end.

(** [metric_sums[metric]] *)
Definition metric_sums (class_metrics : summary) (m : metric) : num :=
  sum (map (fun kv => get m kv.2) class_metrics).

(** The loop [for other_metric in other_metrics], on the pair
    [(weight_sum, valid_metrics_count)]. *)
Definition weight_loop (sums : metric -> num)
    (class_data : CombinedClassMetrics num) (other_metrics : list metric)
  : result (num * nat) :=
  fold_left
    (fun acc other_metric =>
       st ← acc;
       if eq_zero (sums other_metric) then Ok st
       else
         ratio ← truediv (get other_metric class_data) (sums other_metric);
         Ok (add st.1 ratio, S st.2))
    other_metrics (Ok (zero, O)).

(** The body of [for target_metric in ck_metrics]:
    [weighted_class_metrics[target_metric]]. *)
Definition weighted_value (sums : metric -> num)
    (class_data : CombinedClassMetrics num) (target_metric : metric)
  : result num :=
  let original_value := get target_metric class_data in
  let other_metrics := filter (fun m => m ≠ target_metric) ck_metrics in
  st ← weight_loop sums class_data other_metrics;
  avg_weight ← (if (0 <? st.2)%nat then div_count st.1 st.2 else Ok one);
  Ok (mul original_value avg_weight).

(** The loop over the seven metrics of [ck_metrics], in their order, and
    the record built from [weighted_class_metrics]. *)
Definition weighted_class (sums : metric -> num)
    (class_data : CombinedClassMetrics num)
  : result (CombinedClassMetrics num) :=
  let w := weighted_value sums class_data in
  a ← w Wmc;
  b ← w Dit;
  c ← w Noc;
  d ← w Cbo;
  e ← w Rfc;
  f ← w Lcom4;
  g ← w Lcom4_normalized;
  Ok (mkCombined a b c d e f g).

(** [combine_metrics] *)
Definition combine_metrics (class_metrics : summary) : result summary :=
  let sums := metric_sums class_metrics in
  mapM (fun kv => w ← weighted_class sums kv.2; Ok (kv.1, w)) class_metrics.

(** The seven lists [wmc_values], ..., filled by
    [for class_data in class_metrics.values()]. *)
Definition collect (class_metrics : summary)
  : CombinedClassMetrics (list num) :=
  fold_left
    (fun vals kv => of_dict (fun m => (get m vals ++ [get m kv.2])%list))
    class_metrics (of_dict (fun _ => [])).

(** [statistics.mean]: [StatisticsError] on no data, else [sum / len]. *)
Definition mean (data : list num) : result num :=
  match data with
  | [] => Raise StatisticsError
  | _ => Ok (div (sum data) (of_nat (length data)))
  end.

Fixpoint insert_sorted (x : num) (l : list num) : list num :=
  match l with
  | [] => [x]
  | y :: l' => if leb x y then x :: l else y :: insert_sorted x l'
  end.

Definition sorted (l : list num) : list num := foldr insert_sorted [] l.

(** [statistics.median]: [StatisticsError] on no data, else the middle of
    the sorted data, the mean of the two middle values for an even count. *)
Definition median (data : list num) : result num :=
  let data := sorted data in
  let n := length data in
  match n with
  | O => Raise StatisticsError
  | _ =>
      if Nat.odd n then Ok (nth (n / 2) data zero)
      else
        let i := (n / 2)%nat in
        Ok (div (add (nth (i - 1) data zero) (nth i data zero)) (of_nat 2))
  end.

Definition summarize (f : list num -> result num)
    (vals : CombinedClassMetrics (list num))
  : result (CombinedClassMetrics num) :=
  a ← f (wmc vals);
  b ← f (dit vals);
  c ← f (noc vals);
  d ← f (cbo vals);
  e ← f (rfc vals);
  g ← f (lcom4 vals);
  h ← f (lcom4_normalized vals);
  Ok (mkCombined a b c d e g h).

(** [calculate_mean_metrics] *)
Definition calculate_mean_metrics (class_metrics : summary)
  : result (CombinedClassMetrics num) :=
  summarize mean (collect class_metrics).

(** [calculate_median_metrics] *)
Definition calculate_median_metrics (class_metrics : summary)
  : result (CombinedClassMetrics num) :=
  summarize median (collect class_metrics).

(** [calculate_weighted_metrics_combined] *)
Definition calculate_weighted_metrics_combined (weighted_metrics : summary)
  : CombinedClassMetrics num :=
  let vals := collect weighted_metrics in
  mkCombined (sum (wmc vals)) (sum (dit vals)) (sum (noc vals))
    (sum (cbo vals)) (sum (rfc vals)) (sum (lcom4 vals))
    (sum (lcom4_normalized vals)).

(** [get_aggregated_metrics] *)
Definition get_aggregated_metrics (class_summary : summary)
  : result (CombinedProjectMetrics num) :=
  weighted_metrics ← combine_metrics class_summary;
  mean_metrics ← calculate_mean_metrics class_summary;
  median_metrics ← calculate_median_metrics class_summary;
  let weighted_average_metrics :=
    calculate_weighted_metrics_combined weighted_metrics in
  let original_metrics :=
    map (fun kv => (kv.1, of_dict (fun m => get m kv.2))) class_summary in
  Ok (mkCombinedProject original_metrics weighted_metrics
        weighted_average_metrics mean_metrics median_metrics).

(** *** The weight in the words of the specification

    The other metrics whose project-wide sum is not zero, and the mean over
    them of the class's share of the sum; 1 when none is left. *)
Definition valid_others (sums : metric -> num) (target : metric) : list metric :=
  filter (fun m => eq_zero (sums m) = false)
    (filter (fun m => m ≠ target) ck_metrics).

Definition share (sums : metric -> num) (class_data : CombinedClassMetrics num)
    (m : metric) : num :=
  div (get m class_data) (sums m).

Definition spec_weight (sums : metric -> num)
    (class_data : CombinedClassMetrics num) (target : metric) : num :=
  match valid_others sums target with
  | [] => one
  | valid => div (sum (map (share sums class_data) valid))
                 (of_nat (length valid))
  end.

End Aggregation.

(** The metric values of a [CK.ClassMetrics] record, as rationals. *)
Definition of_ClassMetrics (c : CK.ClassMetrics) : CombinedClassMetrics Q :=
  mkCombined (inject_Z (CK.wmc c)) (inject_Z (CK.dit c)) (inject_Z (CK.noc c))
    (inject_Z (CK.cbo c)) (inject_Z (CK.rfc c)) (inject_Z (CK.lcom4 c))
    (CK.lcom4_normalized c).

(** [project_metrics["class_summary"]] *)
Definition summary_of (p : CK.ProjectMetrics)
  : list (string * CombinedClassMetrics Q) :=
  map (fun kv => (kv.1, of_ClassMetrics kv.2)) (CK.class_summary p).

End Combine.

(* ===================================================================== *)
(** * Small projects, used to run the definitions                         *)
(* ===================================================================== *)

Module Examples.
Import Ast CK.

Definition method (name : string) (body : list node) : node :=
  FunctionDef name [] body [] None.

Definition self_attr (attr : string) : node := Attribute (Name "self") attr.

Definition analyze (files : list (string * list ClassDef)) : CKMetrics :=
  parse_files files (CKMetrics_init None).

(** A project without a class. *)
Definition no_class : CKMetrics := analyze [].

(** [class EmptyClass: pass] *)
Definition empty_class : CKMetrics :=
  analyze [("empty.py", [mkClassDef "EmptyClass" [] [Other "Pass" []]])].

(** [class Parent: ...] and [class Child(Parent): ...], one method each. *)
Definition single_inheritance_files : list (string * list ClassDef) :=
  [ ("family.py",
     [ mkClassDef "Parent" []
         [method "parent_method" [Return (Some (Constant "parent"))]];
       mkClassDef "Child" [Name "Parent"]
         [method "child_method" [Return (Some (Constant "child"))]] ]) ].

Definition single_inheritance : CKMetrics := analyze single_inheritance_files.

(** [class B(External): pass], with no class [External] in the project. *)
Definition external_base : CKMetrics :=
  analyze [("b.py", [mkClassDef "B" [Name "External"] [Other "Pass" []]])].

(** A class that calls its own static method through its name:
<<
    class Foo:
        def make(self):
            return Foo.helper()
>> *)
Definition Foo : ClassDef :=
  mkClassDef "Foo" []
    [ method "make"
        [ Return (Some (Call (Attribute (Name "Foo") "helper") [] [])) ] ].

Definition self_receiver : CKMetrics := analyze [("foo.py", [Foo])].

(** Two declarations of [A]: [class A(B): pass] in a.py, and then
    [class B: pass] and [class A: pass] in b.py. *)
Definition redeclared_files : list (string * list ClassDef) :=
  [ ("a.py", [mkClassDef "A" [Name "B"] [Other "Pass" []]]);
    ("b.py", [mkClassDef "B" [] [Other "Pass" []];
              mkClassDef "A" [] [Other "Pass" []]]) ].

Definition redeclared : CKMetrics := analyze redeclared_files.

(** Three groups of two methods; the methods of a group share an attribute
    or call each other. *)
Definition three_groups_class : ClassDef :=
  mkClassDef "Groups" []
    [ method "a1" [Return (Some (self_attr "x"))];
      method "a2" [Return (Some (self_attr "x"))];
      method "b1" [Return (Some (self_attr "y"))];
      method "b2" [Return (Some (self_attr "y"))];
      method "c1" [Return (Some (Constant "1"))];
      method "c2" [Return (Some (Call (self_attr "c1") [] []))] ].

Definition three_groups : CKMetrics :=
  analyze [("groups.py", [three_groups_class])].

(** A class with a property, defined twice under one name:
<<
    class Point:
        @property
        def x(self):
            return self._x
        @x.setter
        def x(self, value):
            if value < 0:
                raise ValueError(value)
            self._x = value
>> *)
Definition property_getter : node :=
  FunctionDef "x" [] [Return (Some (self_attr "_x"))] [Name "property"] None.

Definition property_setter : node :=
  FunctionDef "x" []
    [ If (Compare (Name "value") [Constant "0"])
         [Raise (Some (Call (Name "ValueError") [Name "value"] [])) None] [];
      Assign [self_attr "_x"] (Name "value") ]
    [Attribute (Name "x") "setter"] None.

Definition property_class : ClassDef :=
  mkClassDef "Point" [] [property_getter; property_setter].

(** The class of the complexity scenario. *)
Definition scenario_class : ClassDef :=
  mkClassDef "Scenario" [] [scenario_method].

Definition scenario : CKMetrics := analyze [("scenario.py", [scenario_class])].

(** [class_summary] of a project, as [combine.py] reads it; no name is
    taken for a builtin. *)
Definition summary (st : CKMetrics)
  : list (string * Combine.CombinedClassMetrics Q) :=
  Combine.summary_of (calculate_metrics ∅ st).

End Examples.

(* ===================================================================== *)
(** * Properties of the complexity visitor                                *)
(* ===================================================================== *)

Module AstProps.
Import Ast.

(** *** The counter is threaded additively *)

Section Shift.
Variable visit : node -> Z -> Z.

Definition shifts (n : node) : Prop := forall c, visit n c = c + visit n 0.

Lemma visit_list_shift l :
  list_all node shifts l ->
  forall c, visit_list visit l c = c + visit_list visit l 0.
Proof.
  unfold visit_list. induction 1 as [|n Hn l _ IH]; intros c; simpl.
  - lia.
  - rewrite IH, (IH (visit n 0)), (Hn c). lia.
Qed.

Lemma visit_opt_shift o :
  option_all node shifts o ->
  forall c, visit_opt visit o c = c + visit_opt visit o 0.
Proof.
  destruct 1 as [n Hn|]; intros c; simpl; [apply Hn | lia].
Qed.

Lemma visit_comprehensions_shift l :
  list_all _ (comprehension_all node shifts) l ->
  forall c, visit_comprehensions visit l c
            = c + visit_comprehensions visit l 0.
Proof.
  unfold visit_comprehensions.
  induction 1 as [|g Hg l _ IH]; intros c; simpl; [lia|].
  destruct Hg as [t Ht i Hi fs Hfs]; simpl.
  rewrite IH. symmetry. rewrite IH. symmetry.
  rewrite (visit_list_shift _ Hfs), (Hi (visit t c)), (Ht c).
  rewrite (visit_list_shift _ Hfs (visit i (visit t 0))), (Hi (visit t 0)).
  lia.
Qed.

Lemma visit_withitems_shift l :
  list_all _ (withitem_all node shifts) l ->
  forall c, visit_withitems visit l c = c + visit_withitems visit l 0.
Proof.
  unfold visit_withitems.
  induction 1 as [|w Hw l _ IH]; intros c; simpl; [lia|].
  destruct Hw as [e He o Ho]; simpl.
  rewrite IH. symmetry. rewrite IH. symmetry.
  rewrite (visit_opt_shift _ Ho), (He c).
  rewrite (visit_opt_shift _ Ho (visit e 0)). lia.
Qed.
End Shift.

Lemma add_ifs_shift gens c : add_ifs gens c = c + add_ifs gens 0.
Proof.
  unfold add_ifs. revert c.
  induction gens as [|g gens IH]; intros c; simpl; [lia|].
  rewrite IH. symmetry. rewrite IH. lia.
Qed.

Ltac shift_step :=
  match goal with
  | H : shifts cvisit ?x |- context [cvisit ?x ?c] =>
      lazymatch c with 0 => fail | _ => rewrite (H c) end
  | H : list_all node _ ?l
    |- context [visit_list cvisit ?l ?c] =>
      lazymatch c with
      | 0 => fail
      | _ => rewrite (visit_list_shift cvisit l H c)
      end
  | H : option_all node _ ?o
    |- context [visit_opt cvisit ?o ?c] =>
      lazymatch c with
      | 0 => fail
      | _ => rewrite (visit_opt_shift cvisit o H c)
      end
  | H : list_all _ (comprehension_all node _) ?l
    |- context [visit_comprehensions cvisit ?l ?c] =>
      lazymatch c with
      | 0 => fail
      | _ => rewrite (visit_comprehensions_shift cvisit l H c)
      end
  | H : list_all _ (withitem_all node _) ?l
    |- context [visit_withitems cvisit ?l ?c] =>
      lazymatch c with
      | 0 => fail
      | _ => rewrite (visit_withitems_shift cvisit l H c)
      end
  | |- context [add_ifs ?g ?c] =>
      lazymatch c with 0 => fail | _ => rewrite (add_ifs_shift g c) end
  end.

Lemma cvisit_shift n : forall c, cvisit n c = c + added n.
Proof.
  unfold added. change (shifts cvisit n).
  induction n; intros c; try destruct op; simpl; repeat shift_step; lia.
Qed.

Lemma cvisit_list_shift l c : visit_list cvisit l c = c + added_list l.
Proof.
  apply visit_list_shift, list_all_forall. exact cvisit_shift.
Qed.

Lemma added_list_nil : added_list [] = 0.
Proof. reflexivity. Qed.

Lemma added_list_cons n l : added_list (n :: l) = added n + added_list l.
Proof.
  unfold added_list at 1. unfold visit_list. simpl.
  fold (visit_list cvisit l (cvisit n 0)).
  rewrite cvisit_list_shift. reflexivity.
Qed.

Lemma complexity_base item : complexity item = 1 + added item.
Proof. apply cvisit_shift. Qed.

Lemma added_If test body orelse :
  added (If test body orelse)
  = 1 + (added test + added_list body + added_list orelse).
Proof.
  unfold added at 1. simpl.
  rewrite !cvisit_list_shift, cvisit_shift. lia.
Qed.

Lemma added_BoolOp op values :
  added (BoolOp op values)
  = (Z.of_nat (length values) - 1) + added_list values.
Proof.
  unfold added. destruct op; simpl; rewrite cvisit_list_shift; lia.
Qed.

(** *** Induction on the children *)

Lemma list_all_Forall (P : node -> Prop) l : list_all node P l -> Forall P l.
Proof. induction 1; constructor; assumption. Qed.

Lemma option_all_Forall (P : node -> Prop) o :
  option_all node P o -> Forall P (option_list o).
Proof. destruct 1; simpl; repeat constructor; assumption. Qed.

Lemma comprehensions_all_Forall (P : node -> Prop) l :
  list_all _ (comprehension_all node P) l ->
  Forall P (flat_map comprehension_children l).
Proof.
  induction 1 as [|g Hg l _ IH]; simpl; [constructor|].
  destruct Hg as [t Ht i Hi fs Hfs]. simpl.
  constructor; [exact Ht|]. constructor; [exact Hi|].
  apply Forall_app_2; [apply list_all_Forall, Hfs | exact IH].
Qed.

Lemma withitems_all_Forall (P : node -> Prop) l :
  list_all _ (withitem_all node P) l ->
  Forall P (flat_map withitem_children l).
Proof.
  induction 1 as [|w Hw l _ IH]; simpl; [constructor|].
  destruct Hw as [e He o Ho]. simpl.
  constructor; [exact He|].
  apply Forall_app_2; [apply option_all_Forall, Ho | exact IH].
Qed.

Lemma children_ind (P : node -> Prop) :
  (forall n, Forall P (children n) -> P n) -> forall n, P n.
Proof.
  intros step. induction n; apply step; simpl;
    repeat first
      [ assumption
      | apply Forall_nil_2
      | apply Forall_cons_2
      | apply Forall_app_2
      | apply option_all_Forall
      | apply comprehensions_all_Forall
      | apply withitems_all_Forall
      | apply list_all_Forall ].
Qed.

(** *** The nodes of a tree: the root and the nodes under its children *)

Lemma flat_map_option_list (f : node -> list node) o :
  flat_map f (option_list o) = nodes_opt f o.
Proof. destruct o; simpl; [apply app_nil_r | reflexivity]. Qed.

Lemma flat_map_comprehension_children (f : node -> list node) l :
  flat_map f (flat_map comprehension_children l) = nodes_comprehensions f l.
Proof.
  unfold nodes_comprehensions. induction l as [|g l IH]; simpl; [reflexivity|].
  rewrite flat_map_app, IH, <- !app_assoc. reflexivity.
Qed.

Lemma flat_map_withitem_children (f : node -> list node) l :
  flat_map f (flat_map withitem_children l) = nodes_withitems f l.
Proof.
  unfold nodes_withitems. induction l as [|w l IH]; simpl; [reflexivity|].
  rewrite flat_map_app, flat_map_option_list, IH, <- !app_assoc. reflexivity.
Qed.

Lemma subnodes_children n :
  subnodes n = n :: flat_map subnodes (children n).
Proof.
  destruct n; cbn [subnodes children]; f_equal;
    cbn [flat_map];
    rewrite ?flat_map_app, ?flat_map_option_list,
      ?flat_map_comprehension_children, ?flat_map_withitem_children;
    cbn [flat_map]; rewrite ?app_nil_r, <- ?app_assoc; reflexivity.
Qed.

(** *** The counter, node by node *)

Lemma added_list_app l1 l2 :
  added_list (l1 ++ l2) = added_list l1 + added_list l2.
Proof.
  unfold added_list at 1. unfold visit_list. rewrite fold_left_app.
  fold (visit_list cvisit l1 0).
  fold (visit_list cvisit l2 (visit_list cvisit l1 0)).
  rewrite cvisit_list_shift. reflexivity.
Qed.

Lemma visit_opt_added o c :
  visit_opt cvisit o c = c + added_list (option_list o).
Proof.
  destruct o as [n|]; simpl.
  - rewrite added_list_cons, added_list_nil, cvisit_shift. lia.
  - rewrite added_list_nil. lia.
Qed.

Lemma visit_comprehensions_added gens : forall c,
  visit_comprehensions cvisit gens c
  = c + added_list (flat_map comprehension_children gens).
Proof.
  unfold visit_comprehensions.
  induction gens as [|g gens IH]; intros c; simpl.
  - rewrite added_list_nil. lia.
  - rewrite IH. unfold comprehension_children.
    rewrite !added_list_cons, added_list_app, cvisit_list_shift,
      !cvisit_shift. lia.
Qed.

Lemma visit_withitems_added items : forall c,
  visit_withitems cvisit items c
  = c + added_list (flat_map withitem_children items).
Proof.
  unfold visit_withitems.
  induction items as [|w items IH]; intros c; simpl.
  - rewrite added_list_nil. lia.
  - rewrite IH. unfold withitem_children.
    rewrite added_list_cons, added_list_app, visit_opt_added, cvisit_shift.
    lia.
Qed.

Lemma add_ifs_length gens : forall c,
  add_ifs gens c = c + Z.of_nat (length (flat_map ifs gens)).
Proof.
  unfold add_ifs. induction gens as [|g gens IH]; intros c; simpl; [lia|].
  rewrite IH, length_app. lia.
Qed.

Ltac added_norm :=
  repeat first
    [ rewrite visit_withitems_added | rewrite visit_comprehensions_added
    | rewrite visit_opt_added | rewrite cvisit_list_shift
    | rewrite cvisit_shift | rewrite add_ifs_length
    | rewrite added_list_app | rewrite added_list_cons
    | rewrite added_list_nil ].

Lemma added_by_node n :
  added n = increment n + added_list (children n).
Proof.
  destruct n; try destruct op; unfold added at 1;
    cbn [cvisit children increment]; added_norm; lia.
Qed.

Lemma increments_app l1 l2 :
  increments (l1 ++ l2) = increments l1 + increments l2.
Proof.
  unfold increments. induction l1 as [|n l1 IH]; simpl; [reflexivity|].
  rewrite IH. lia.
Qed.

Lemma added_list_increments l :
  Forall (fun c => added c = increments (subnodes c)) l ->
  added_list l = increments (flat_map subnodes l).
Proof.
  induction 1 as [|c l Hc _ IH]; [reflexivity|].
  rewrite added_list_cons. simpl. rewrite increments_app, Hc, IH.
  reflexivity.
Qed.

Lemma added_increments n : added n = increments (subnodes n).
Proof.
  induction n as [n IH] using children_ind.
  rewrite added_by_node, subnodes_children, (added_list_increments _ IH).
  reflexivity.
Qed.

(** C9.  The counter starts at 1 and the visit of a tree adds to it, node
    by node: what a node adds is the increment of its own kind and what its
    children add, so that the complexity of a method is 1 plus the
    increments of all the nodes of its tree ([def] itself adds nothing, its
    arguments, body, decorators and annotation add what they hold).  An
    [if] statement has increment 1 and a boolean operation with N operands
    has increment N - 1, wherever they stand; the method
    [if x > 0 and y > 0: return 1] followed by [return 0] has complexity 3. *)
Theorem complexity_if_boolop :
  (forall item, complexity item = 1 + added item) /\
  (forall test body orelse,
      added (If test body orelse)
      = 1 + (added test + added_list body + added_list orelse)) /\
  (forall op values,
      added (BoolOp op values)
      = (Z.of_nat (length values) - 1) + added_list values) /\
  (forall n l, added_list (n :: l) = added n + added_list l) /\
  added_list [] = 0 /\
  (forall l1 l2, added_list (l1 ++ l2) = added_list l1 + added_list l2) /\
  (forall n, added n = increment n + added_list (children n)) /\
  (forall name args body decorator_list returns,
      complexity (FunctionDef name args body decorator_list returns)
      = 1 + (added_list args + added_list body + added_list decorator_list
             + added_list (option_list returns)) /\
      complexity (AsyncFunctionDef name args body decorator_list returns)
      = 1 + (added_list args + added_list body + added_list decorator_list
             + added_list (option_list returns))) /\
  (forall item, complexity item = 1 + increments (subnodes item)) /\
  (forall test body orelse, increment (If test body orelse) = 1) /\
  (forall op values,
      increment (BoolOp op values) = Z.of_nat (length values) - 1) /\
  complexity scenario_method = 3.
Proof.
  split; [exact complexity_base|].
  split; [exact added_If|].
  split; [exact added_BoolOp|].
  split; [exact added_list_cons|].
  split; [reflexivity|].
  split; [exact added_list_app|].
  split; [exact added_by_node|].
  split.
  { intros. rewrite !complexity_base, !added_by_node. cbn [increment children].
    rewrite !added_list_app. lia. }
  split; [intros; rewrite complexity_base, added_increments; reflexivity|].
  split; [reflexivity|].
  split; reflexivity.
Qed.

(** *** The complexity of a method is at least 1 *)

(** A visit of a parser-shaped tree does not lower the counter. *)
Definition grows (n : node) : Prop :=
  parser_shaped n = true -> forall c, c <= cvisit n c.

Lemma visit_list_grows l :
  list_all node grows l -> forallb parser_shaped l = true ->
  forall c, c <= visit_list cvisit l c.
Proof.
  unfold visit_list. induction 1 as [|n Hn l _ IH]; intros Hok c; simpl.
  - lia.
  - simpl in Hok. apply andb_prop in Hok as [Hn' Hl].
    specialize (IH Hl (cvisit n c)). specialize (Hn Hn' c). lia.
Qed.

Lemma visit_opt_grows o :
  option_all node grows o -> all_opt parser_shaped o = true ->
  forall c, c <= visit_opt cvisit o c.
Proof.
  destruct 1 as [n Hn|]; intros Hok c; simpl; [apply Hn, Hok | lia].
Qed.

Lemma visit_comprehensions_grows l :
  list_all _ (comprehension_all node grows) l ->
  all_comprehensions parser_shaped l = true ->
  forall c, c <= visit_comprehensions cvisit l c.
Proof.
  unfold visit_comprehensions, all_comprehensions.
  induction 1 as [|g Hg l _ IH]; intros Hok c; simpl; [lia|].
  simpl in Hok. apply andb_prop in Hok as [Hg' Hl].
  destruct Hg as [t Ht i Hi fs Hfs]; simpl in *.
  apply andb_prop in Hg' as [Hg' Hfs']. apply andb_prop in Hg' as [Ht' Hi'].
  etransitivity; [|apply IH, Hl].
  etransitivity; [|apply visit_list_grows; assumption].
  specialize (Ht Ht' c). specialize (Hi Hi' (cvisit t c)). lia.
Qed.

Lemma visit_withitems_grows l :
  list_all _ (withitem_all node grows) l ->
  all_withitems parser_shaped l = true ->
  forall c, c <= visit_withitems cvisit l c.
Proof.
  unfold visit_withitems, all_withitems.
  induction 1 as [|w Hw l _ IH]; intros Hok c; simpl; [lia|].
  simpl in Hok. apply andb_prop in Hok as [Hw' Hl].
  destruct Hw as [e He o Ho]; simpl in *.
  apply andb_prop in Hw' as [He' Ho'].
  etransitivity; [|apply IH, Hl].
  etransitivity; [|apply visit_opt_grows; assumption].
  apply He, He'.
Qed.

Lemma add_ifs_grows gens c : c <= add_ifs gens c.
Proof.
  unfold add_ifs. revert c.
  induction gens as [|g gens IH]; intros c; simpl; [lia|].
  etransitivity; [|apply IH]. lia.
Qed.

Ltac split_ok :=
  repeat match goal with
         | H : _ && _ = true |- _ => apply andb_prop in H as [? ?]
         end.

Ltac grow_step :=
  match goal with
  | |- _ <= visit_list cvisit _ _ =>
      etransitivity; [|apply visit_list_grows; assumption]
  | |- _ <= visit_opt cvisit _ _ =>
      etransitivity; [|apply visit_opt_grows; assumption]
  | |- _ <= visit_comprehensions cvisit _ _ =>
      etransitivity; [|apply visit_comprehensions_grows; assumption]
  | |- _ <= visit_withitems cvisit _ _ =>
      etransitivity; [|apply visit_withitems_grows; assumption]
  | |- _ <= add_ifs _ _ => etransitivity; [|apply add_ifs_grows]
  | H : grows ?n |- _ <= cvisit ?n _ =>
      etransitivity; [|apply H; assumption]
  end.

Lemma cvisit_grows n : grows n.
Proof.
  induction n; intros Hok c; simpl in Hok; split_ok; simpl;
    try destruct op; repeat grow_step; try lia.
  all: destruct values as [|? [|? ?]]; simpl in *; try discriminate; lia.
Qed.

Lemma complexity_positive item :
  parser_shaped item = true -> 1 <= complexity item.
Proof. intros Hok. apply cvisit_grows, Hok. Qed.

End AstProps.

(* ===================================================================== *)
(** * Further properties of the two visitors                              *)
(* ===================================================================== *)

Module AstMore.
Import Ast AstProps.

(** ** The nodes of a tree *)

Lemma elem_of_subnodes m n :
  m ∈ subnodes n
  <-> m = n \/ exists c, c ∈ children n /\ m ∈ subnodes c.
Proof.
  rewrite subnodes_children, elem_of_cons, list_elem_of_In, in_flat_map.
  split; intros [H|(c & Hc & Hm)]; auto; right; exists c;
    rewrite ?list_elem_of_In in *; auto.
Qed.

Lemma subnodes_self n : n ∈ subnodes n.
Proof. apply elem_of_subnodes. left. reflexivity. Qed.

(** ** The lower bound of the counter *)

Lemma forallb_Forall_true (f : node -> bool) l :
  forallb f l = true -> Forall (fun c => f c = true) l.
Proof.
  intros H. apply Forall_forall. intros x Hx.
  apply (proj1 (forallb_forall f l) H), list_elem_of_In, Hx.
Qed.

Lemma all_opt_Forall (f : node -> bool) o :
  all_opt f o = true -> Forall (fun c => f c = true) (option_list o).
Proof. destruct o; simpl; intros H; repeat constructor; exact H. Qed.

Lemma all_comprehensions_Forall (f : node -> bool) l :
  all_comprehensions f l = true ->
  Forall (fun c => f c = true) (flat_map comprehension_children l).
Proof.
  unfold all_comprehensions. induction l as [|g l IH]; simpl; intros H.
  - constructor.
  - apply andb_prop in H as [Hg Hl]. apply andb_prop in Hg as [Hg Hi].
    apply andb_prop in Hg as [Ht Hit].
    constructor; [exact Ht|]. constructor; [exact Hit|].
    apply Forall_app_2; [apply forallb_Forall_true, Hi | apply IH, Hl].
Qed.

Lemma all_withitems_Forall (f : node -> bool) l :
  all_withitems f l = true ->
  Forall (fun c => f c = true) (flat_map withitem_children l).
Proof.
  unfold all_withitems. induction l as [|w l IH]; simpl; intros H.
  - constructor.
  - apply andb_prop in H as [Hw Hl]. apply andb_prop in Hw as [He Ho].
    constructor; [exact He|].
    apply Forall_app_2; [apply all_opt_Forall, Ho | apply IH, Hl].
Qed.

Lemma parser_shaped_children n :
  parser_shaped n = true ->
  Forall (fun c => parser_shaped c = true) (children n).
Proof.
  destruct n; simpl; intros H;
    repeat match goal with
           | H : _ && _ = true |- _ => apply andb_prop in H as [? ?]
           end;
    repeat first
      [ assumption
      | apply Forall_nil_2
      | apply Forall_cons_2
      | apply Forall_app_2
      | apply all_opt_Forall
      | apply all_comprehensions_Forall
      | apply all_withitems_Forall
      | apply forallb_Forall_true ].
Qed.

Lemma increment_nonneg n : parser_shaped n = true -> 0 <= increment n.
Proof.
  destruct n; cbn [parser_shaped increment]; intros H; try lia.
  apply andb_prop in H as [H _]. apply Nat.leb_le in H. lia.
Qed.

Lemma added_nonneg n : parser_shaped n = true -> 0 <= added n.
Proof. intros H. exact (cvisit_grows n H 0). Qed.

Lemma added_list_nonneg l :
  Forall (fun c => parser_shaped c = true) l -> 0 <= added_list l.
Proof.
  induction 1 as [|c l Hc _ IH].
  - rewrite added_list_nil. lia.
  - rewrite added_list_cons. pose proof (added_nonneg c Hc). lia.
Qed.

Lemma added_list_elem c l :
  Forall (fun c => parser_shaped c = true) l -> c ∈ l ->
  added c <= added_list l.
Proof.
  induction 1 as [|d l Hd Hl IH]; intros Hc; [inversion Hc|].
  rewrite added_list_cons.
  apply elem_of_cons in Hc as [->|Hc].
  - pose proof (added_list_nonneg l Hl). lia.
  - specialize (IH Hc). pose proof (added_nonneg d Hd). lia.
Qed.

Lemma added_subnode m n :
  m ∈ subnodes n -> parser_shaped n = true ->
  parser_shaped m = true /\ increment m <= added n.
Proof.
  induction n as [n IH] using children_ind. intros Hm Hn.
  pose proof (parser_shaped_children n Hn) as Hch.
  apply elem_of_subnodes in Hm as [->|(c & Hc & Hm)].
  - split; [exact Hn|]. rewrite added_by_node.
    pose proof (added_list_nonneg _ Hch). lia.
  - destruct (proj1 (Forall_forall _ _) IH c Hc Hm) as [Hmok Hle].
    { exact (proj1 (Forall_forall _ _) Hch c Hc). }
    split; [exact Hmok|].
    pose proof (added_list_elem c _ Hch Hc).
    pose proof (increment_nonneg n Hn).
    rewrite (added_by_node n). lia.
Qed.

(** X12.  In a tree of the parser (every boolean operation has two operands
    at least) no increment is negative and none is cancelled: the
    complexity of a method is at least 1 plus the increment of any node of
    its tree, so at least 1, and at least 2 as soon as the tree holds a
    branching statement. *)
Theorem complexity_lower_bound item m :
  parser_shaped item = true -> m ∈ subnodes item ->
  0 <= increment m /\ 1 + increment m <= complexity item.
Proof.
  intros Hok Hm. destruct (added_subnode m item Hm Hok) as [Hmok Hle].
  split; [apply increment_nonneg, Hmok|].
  rewrite complexity_base. lia.
Qed.

Lemma complexity_lower_bound_witness :
  0 <= increment (BoolOp And [Name "x"; Name "y"; Name "z"]) /\
  1 + increment (BoolOp And [Name "x"; Name "y"; Name "z"])
  <= complexity
       (FunctionDef "f" []
          [Return (Some (BoolOp And [Name "x"; Name "y"; Name "z"]))]
          [] None).
Proof.
  apply complexity_lower_bound; [reflexivity|].
  simpl. right. right. left.
Defined.

(** ** What [MethodVisitor] collects *)

Lemma mv_ext s t :
  mv_method_calls s = mv_method_calls t ->
  mv_attributes s = mv_attributes t ->
  mv_classes s = mv_classes t -> s = t.
Proof. destruct s, t; simpl; intros -> -> ->; reflexivity. Qed.

Ltac mv_solve :=
  clear; apply mv_ext;
  cbn [mv_union mv_method_calls mv_attributes mv_classes MethodVisitor_init
       add_call add_attribute add_class];
  set_solver.

Lemma mv_union_assoc a b c :
  mv_union (mv_union a b) c = mv_union a (mv_union b c).
Proof. mv_solve. Qed.

Lemma mv_union_init_r a : mv_union a MethodVisitor_init = a.
Proof. mv_solve. Qed.

Lemma mv_union_init_l a : mv_union MethodVisitor_init a = a.
Proof. mv_solve. Qed.

Lemma mv_unions_nil : mv_unions [] = MethodVisitor_init.
Proof. reflexivity. Qed.

Lemma mv_unions_cons a l : mv_unions (a :: l) = mv_union a (mv_unions l).
Proof. reflexivity. Qed.

Lemma mv_unions_app l1 l2 :
  mv_unions (l1 ++ l2) = mv_union (mv_unions l1) (mv_unions l2).
Proof.
  induction l1 as [|a l1 IH]; simpl.
  - rewrite mv_union_init_l. reflexivity.
  - rewrite IH, mv_union_assoc. reflexivity.
Qed.

Lemma record_call_union func s :
  record_call func s = mv_union s (record_call func MethodVisitor_init).
Proof.
  destruct func; cbn [record_call];
    try (symmetry; apply mv_union_init_r); [|mv_solve].
  match goal with |- context [match ?v with _ => _ end] => destruct v end;
    mv_solve.
Qed.

Lemma record_attribute_union value attr s :
  record_attribute value attr s
  = mv_union s (record_attribute value attr MethodVisitor_init).
Proof.
  unfold record_attribute.
  destruct value; try (symmetry; apply mv_union_init_r).
  destruct (decide _); [|symmetry; apply mv_union_init_r].
  mv_solve.
Qed.


Section Accumulate.
Variable visit : node -> MethodVisitor -> MethodVisitor.

Definition accumulates (n : node) : Prop :=
  forall s, visit n s = mv_union s (visit n MethodVisitor_init).

Lemma visit_list_accumulates l :
  Forall accumulates l ->
  forall s, visit_list visit l s
            = mv_union s
                (mv_unions (map (fun n => visit n MethodVisitor_init) l)).
Proof.
  unfold visit_list. induction 1 as [|n l Hn _ IH]; intros s; simpl.
  - rewrite mv_union_init_r. reflexivity.
  - rewrite IH, (Hn s), mv_union_assoc. reflexivity.
Qed.

End Accumulate.

Lemma visit_opt_list {S} (visit : node -> S -> S) o s :
  visit_opt visit o s = visit_list visit (option_list o) s.
Proof. destruct o; reflexivity. Qed.

Lemma visit_withitems_list {S} (visit : node -> S -> S) items : forall s,
  visit_withitems visit items s
  = visit_list visit (flat_map withitem_children items) s.
Proof.
  unfold visit_withitems, visit_list.
  induction items as [|w items IH]; intros s; simpl; [reflexivity|].
  rewrite IH, fold_left_app. destruct (optional_vars w); reflexivity.
Qed.

Lemma visit_generators_accumulates gens :
  Forall (accumulates mvisit) (flat_map comprehension_children gens) ->
  forall s, visit_generators mvisit gens s
            = mv_union s
                (mv_unions (map method_visitor
                              (flat_map comprehension_children gens))).
Proof.
  unfold visit_generators.
  induction gens as [|g gens IH]; intros Hall s; simpl.
  - rewrite mv_union_init_r. reflexivity.
  - simpl in Hall. apply Forall_cons in Hall as [Ht Hall].
    apply Forall_cons in Hall as [Hi Hall].
    apply Forall_app in Hall as [Hf Hall].
    rewrite (IH Hall), (visit_list_accumulates mvisit _ Hf), (Ht _), (Hi s).
    rewrite map_app, mv_unions_app.
    fold (method_visitor (target g)). fold (method_visitor (iter g)).
    change (map (fun n => mvisit n MethodVisitor_init))
      with (map method_visitor).
    generalize (method_visitor (target g)) (method_visitor (iter g))
      (mv_unions (map method_visitor (ifs g)))
      (mv_unions (map method_visitor (flat_map comprehension_children gens))).
    intros a b c d. mv_solve.
Qed.

Ltac split_children :=
  repeat match goal with
         | H : Forall _ (_ :: _) |- _ => apply Forall_cons in H as [? ?]
         | H : Forall _ (_ ++ _) |- _ => apply Forall_app in H as [? ?]
         end.

Ltac accumulate_step :=
  match goal with
  | H : Forall (accumulates mvisit) ?l
    |- context [visit_list mvisit ?l ?c] =>
      rewrite (visit_list_accumulates mvisit l H c)
  | H : Forall (accumulates mvisit) (flat_map comprehension_children ?l)
    |- context [visit_generators mvisit ?l ?c] =>
      rewrite (visit_generators_accumulates l H c)
  | H : accumulates mvisit ?x |- context [mvisit ?x ?c] =>
      lazymatch c with
      | MethodVisitor_init => fail
      | _ => rewrite (H c)
      end
  end.

Ltac mv_atoms :=
  repeat match goal with
         | |- context [mvisit ?x MethodVisitor_init] =>
             generalize (mvisit x MethodVisitor_init); intro
         | |- context [mv_unions ?l] => generalize (mv_unions l); intro
         | |- context [record_call ?f MethodVisitor_init] =>
             generalize (record_call f MethodVisitor_init); intro
         | |- context [record_attribute ?v ?a MethodVisitor_init] =>
             generalize (record_attribute v a MethodVisitor_init); intro
         end.

Lemma mvisit_by_node n :
  Forall (accumulates mvisit) (children n) ->
  forall s, mvisit n s
            = mv_union s
                (mv_union (records n)
                   (mv_unions (map method_visitor (children n)))).
Proof.
  intros Hall s.
  destruct n; cbn [mvisit children records] in *;
    rewrite ?visit_opt_list, ?visit_withitems_list;
    split_children; repeat accumulate_step;
    rewrite ?(record_call_union _ s), ?(record_attribute_union _ _ s);
    cbn [map]; rewrite ?map_app; cbn [map];
    repeat first [ rewrite mv_unions_cons | rewrite mv_unions_app
                 | rewrite mv_unions_nil ];
    unfold method_visitor; mv_atoms; mv_solve.
Qed.

Lemma mvisit_accumulates n : accumulates mvisit n.
Proof.
  induction n as [n IH] using children_ind. intros s.
  rewrite (mvisit_by_node n IH s), (mvisit_by_node n IH MethodVisitor_init).
  rewrite mv_union_init_l. reflexivity.
Qed.

Lemma method_visitor_by_node n :
  method_visitor n
  = mv_union (records n) (mv_unions (map method_visitor (children n))).
Proof.
  unfold method_visitor at 1.
  rewrite (mvisit_by_node n), mv_union_init_l; [reflexivity|].
  apply Forall_forall. intros c _. apply mvisit_accumulates.
Qed.


Section Collected.
Variable f : MethodVisitor -> gset string.
Hypothesis f_union : forall a b, f (mv_union a b) = f a ∪ f b.
Hypothesis f_init : f MethodVisitor_init = ∅.

Lemma elem_of_mv_unions x l :
  x ∈ f (mv_unions l) <-> exists t, t ∈ l /\ x ∈ f t.
Proof.
  induction l as [|a l IH].
  - rewrite mv_unions_nil, f_init. split; [intros H|intros (t & H & _)].
    + destruct (not_elem_of_empty (C:=gset string) x H).
    + inversion H.
  - rewrite mv_unions_cons, f_union, elem_of_union, IH. split.
    + intros [H|(t & Ht & H)]; [exists a | exists t]; split; auto;
        [left | right; exact Ht].
    + intros (t & Ht & H). apply elem_of_cons in Ht as [->|Ht]; eauto.
Qed.

Lemma collected x n :
  x ∈ f (method_visitor n)
  <-> exists m, m ∈ subnodes n /\ x ∈ f (records m).
Proof.
  induction n as [n IH] using children_ind.
  rewrite method_visitor_by_node, f_union, elem_of_union, elem_of_mv_unions.
  split.
  - intros [H|(t & Ht & H)].
    + exists n. split; [apply subnodes_self | exact H].
    + apply list_elem_of_fmap in Ht as (c & -> & Hc).
      apply (proj1 (Forall_forall _ _) IH c Hc) in H as (m & Hm & H).
      exists m. split; [|exact H]. apply elem_of_subnodes. right. eauto.
  - intros (m & Hm & H).
    apply elem_of_subnodes in Hm as [->|(c & Hc & Hm)]; [left; exact H|].
    right. exists (method_visitor c).
    split; [apply list_elem_of_fmap; eauto|].
    apply (proj1 (Forall_forall _ _) IH c Hc). eauto.
Qed.

End Collected.

Lemma records_method_calls x m :
  x ∈ mv_method_calls (records m)
  <-> exists func args keywords,
        m = Call func args keywords /\
        (func = Name x \/ exists value, func = Attribute value x).
Proof.
  split.
  - destruct m; cbn [records];
      try (intros H; destruct (not_elem_of_empty (C:=gset string) x H)).
    + intros H. exists m, args, keywords. split; [reflexivity|].
      destruct m; cbn [record_call] in H;
        try (destruct (not_elem_of_empty (C:=gset string) x H)).
      * right. eexists. f_equal.
        assert (x = attr) as ->; [|reflexivity].
        destruct m; simpl in H; set_solver.
      * left. f_equal. simpl in H. set_solver.
    + unfold record_attribute. destruct m; simpl;
        try (intros H; destruct (not_elem_of_empty (C:=gset string) x H)).
      destruct (decide _); simpl; intros H;
        destruct (not_elem_of_empty (C:=gset string) x H).
  - intros (func & args & keywords & -> & [->|(value & ->)]); simpl.
    + set_solver.
    + destruct value; simpl; set_solver.
Qed.

Lemma records_attributes x m :
  x ∈ mv_attributes (records m) <-> m = Attribute (Name "self") x.
Proof.
  split.
  - destruct m; cbn [records];
      try (intros H; destruct (not_elem_of_empty (C:=gset string) x H)).
    + destruct m; cbn [record_call]; simpl;
        try (intros H; destruct (not_elem_of_empty (C:=gset string) x H)).
      destruct m; simpl; intros H;
        destruct (not_elem_of_empty (C:=gset string) x H).
    + unfold record_attribute. destruct m; simpl;
        try (intros H; destruct (not_elem_of_empty (C:=gset string) x H)).
      destruct (decide _) as [->|]; simpl; intros H;
        [|destruct (not_elem_of_empty (C:=gset string) x H)].
      f_equal. set_solver.
  - intros ->. simpl. set_solver.
Qed.

Lemma records_classes x m :
  x ∈ mv_classes (records m)
  <-> exists attr args keywords,
        m = Call (Attribute (Name x) attr) args keywords.
Proof.
  split.
  - destruct m; cbn [records];
      try (intros H; destruct (not_elem_of_empty (C:=gset string) x H)).
    + destruct m; cbn [record_call]; simpl;
        try (intros H; destruct (not_elem_of_empty (C:=gset string) x H)).
      destruct m; simpl; intros H;
        try (destruct (not_elem_of_empty (C:=gset string) x H)).
      exists attr, args, keywords. do 3 f_equal. set_solver.
    + unfold record_attribute. destruct m; simpl;
        try (intros H; destruct (not_elem_of_empty (C:=gset string) x H)).
      destruct (decide _); simpl; intros H;
        destruct (not_elem_of_empty (C:=gset string) x H).
  - intros (attr & args & keywords & ->). simpl. set_solver.
Qed.

(** X13.  [MethodVisitor] adds to its three sets and looks at every node
    of the tree: the called names are the names [f] of the calls [f(...)]
    and [e.f(...)] anywhere under the method, the attributes are the [x] of
    the expressions [self.x], and the classes are the names [c] of the calls
    [c.f(...)] whose receiver is a plain name ([self] among them). *)
Theorem method_visitor_collects item :
  (forall s, mvisit item s = mv_union s (method_visitor item)) /\
  (forall x,
      x ∈ mv_method_calls (method_visitor item)
      <-> exists func args keywords,
            Call func args keywords ∈ subnodes item /\
            (func = Name x \/ exists value, func = Attribute value x)) /\
  (forall x,
      x ∈ mv_attributes (method_visitor item)
      <-> Attribute (Name "self") x ∈ subnodes item) /\
  (forall x,
      x ∈ mv_classes (method_visitor item)
      <-> exists attr args keywords,
            Call (Attribute (Name x) attr) args keywords ∈ subnodes item).
Proof.
  split; [exact (mvisit_accumulates item)|].
  split; [|split]; intros x.
  - rewrite (collected mv_method_calls) by reflexivity. split.
    + intros (m & Hm & H).
      apply records_method_calls in H as (func & args & kw & -> & H).
      eauto 6.
    + intros (func & args & kw & Hm & H). eexists. split; [exact Hm|].
      apply records_method_calls. eauto 6.
  - rewrite (collected mv_attributes) by reflexivity. split.
    + intros (m & Hm & H). apply records_attributes in H as ->. exact Hm.
    + intros Hm. eexists. split; [exact Hm|].
      apply records_attributes. reflexivity.
  - rewrite (collected mv_classes) by reflexivity. split.
    + intros (m & Hm & H).
      apply records_classes in H as (attr & args & kw & ->). eauto.
    + intros (attr & args & kw & Hm). eexists. split; [exact Hm|].
      apply records_classes. eauto.
Qed.

End AstMore.

(* ===================================================================== *)
(** * Properties of the graph operations                                  *)
(* ===================================================================== *)

Module NxProps.
Import Nx.

(** ** The directed graph: nodes and edges only grow *)

Lemma closed_empty : closed empty.
Proof. intros u v Huv. simpl in Huv. inversion Huv. Qed.

Lemma add_node_nodes n g x : x ∈ nodes (add_node n g) <-> x = n \/ x ∈ nodes g.
Proof.
  unfold add_node. destruct (decide (n ∈ nodes g)); simpl.
  - split; [auto|]. intros [->|]; assumption.
  - rewrite elem_of_app, list_elem_of_singleton. tauto.
Qed.

Lemma add_node_edges n g : edges (add_node n g) = edges g.
Proof. unfold add_node. destruct (decide _); reflexivity. Qed.

Lemma add_edge_nodes u v g x :
  x ∈ nodes (add_edge u v g) <-> x = u \/ x = v \/ x ∈ nodes g.
Proof.
  unfold add_edge. destruct (decide _); simpl; rewrite !add_node_nodes; tauto.
Qed.

Lemma add_edge_edges u v g e :
  e ∈ edges (add_edge u v g) <-> e = (u, v) \/ e ∈ edges g.
Proof.
  unfold add_edge. destruct (decide _) as [Hin|Hin]; simpl.
  - rewrite !add_node_edges in *. split; [auto|]. intros [->|]; assumption.
  - rewrite elem_of_app, list_elem_of_singleton, !add_node_edges. tauto.
Qed.

Lemma add_node_closed n g : closed g -> closed (add_node n g).
Proof.
  intros Hc u v. rewrite add_node_edges, !add_node_nodes.
  intros Huv. destruct (Hc u v Huv). auto.
Qed.

Lemma add_edge_closed u v g : closed g -> closed (add_edge u v g).
Proof.
  intros Hc a b. rewrite add_edge_edges, !add_edge_nodes.
  intros [[= -> ->]|Hab]; [auto|]. destruct (Hc a b Hab). auto.
Qed.

Lemma successors_spec g u v : v ∈ successors g u <-> (u, v) ∈ edges g.
Proof.
  unfold successors. rewrite list_elem_of_fmap. split.
  - intros [[a b] [-> He]]. apply list_elem_of_filter in He as [Ha He].
    simpl in *. subst. exact He.
  - intros He. exists (u, v). split; [reflexivity|].
    apply list_elem_of_filter. split; [reflexivity|exact He].
Qed.

Lemma predecessors_spec g u v : u ∈ predecessors g v <-> (u, v) ∈ edges g.
Proof.
  unfold predecessors. rewrite list_elem_of_fmap. split.
  - intros [[a b] [-> He]]. apply list_elem_of_filter in He as [Ha He].
    simpl in *. subst. exact He.
  - intros He. exists (u, v). split; [reflexivity|].
    apply list_elem_of_filter. split; [reflexivity|exact He].
Qed.

Lemma in_degree_zero g v : in_degree g v = 0%nat <-> forall u, (u, v) ∉ edges g.
Proof.
  unfold in_degree. split.
  - intros Hl u Hu. apply predecessors_spec in Hu.
    destruct (predecessors g v); [inversion Hu | discriminate].
  - intros Hn. destruct (predecessors g v) as [|u l] eqn:E; [reflexivity|].
    exfalso. apply (Hn u), predecessors_spec. rewrite E. left.
Qed.


(** ** [all_simple_paths] enumerates the simple paths *)

Lemma walk_head g t u p : walk g t u p -> exists q, p = u :: q.
Proof. destruct 1; eauto. Qed.

Lemma walk_target g t u p : walk g t u p -> t ∈ p.
Proof.
  induction 1 as [|u v p _ _ IH]; [left | right; exact IH].
Qed.

Lemma walk_nodes g t u p :
  closed g -> t ∈ nodes g -> walk g t u p -> forall x, x ∈ p -> x ∈ nodes g.
Proof.
  intros Hc Ht. induction 1 as [|u v p He _ IH]; intros x Hx.
  - apply list_elem_of_singleton in Hx. subst. exact Ht.
  - apply elem_of_cons in Hx as [->|Hx]; [apply (Hc _ _ He) | auto].
Qed.

(** A path into [t] is [[t]] or ends with an edge into [t]. *)
Lemma walk_last_edge g t u p :
  walk g t u p -> p = [t] \/ exists x, (x, t) ∈ edges g.
Proof.
  induction 1 as [|u v p He Hw IH]; [left; reflexivity | right].
  destruct IH as [->|IH]; [|exact IH].
  inversion Hw; subst; [exists u; exact He|].
  match goal with H : walk _ _ _ [] |- _ => inversion H end.
Qed.

Lemma simple_paths_from_sound fuel g t : forall visited u p,
  u ∉ visited ->
  p ∈ simple_paths_from fuel g t visited u ->
  walk g t u p /\ NoDup p /\ forall x, x ∈ p -> x ∉ visited.
Proof.
  induction fuel as [|fuel IH]; intros visited u p Hu Hp; simpl in Hp.
  - destruct (decide (u = t)) as [->|]; [|inversion Hp].
    apply list_elem_of_singleton in Hp as ->.
    split; [constructor|]. split; [apply NoDup_singleton|].
    intros x Hx. apply list_elem_of_singleton in Hx as ->. exact Hu.
  - destruct (decide (u = t)) as [->|Hne].
    + apply list_elem_of_singleton in Hp as ->.
      split; [constructor|]. split; [apply NoDup_singleton|].
      intros x Hx. apply list_elem_of_singleton in Hx as ->. exact Hu.
    + apply list_elem_of_In, in_flat_map in Hp as (v & Hv & Hp).
      apply list_elem_of_In, list_elem_of_filter in Hv as [Hv Hs].
      apply in_map_iff in Hp as (q & <- & Hq).
      apply list_elem_of_In in Hq. apply successors_spec in Hs.
      destruct (IH _ _ _ Hv Hq) as (Hw & Hnd & Hfresh).
      split; [econstructor; eassumption|]. split.
      * constructor; [|exact Hnd]. intros Hin.
        apply (Hfresh _ Hin). left.
      * intros x Hx. apply elem_of_cons in Hx as [->|Hx]; [exact Hu|].
        intros Hin. apply (Hfresh _ Hx). right. exact Hin.
Qed.

Lemma simple_paths_from_complete g t u p :
  walk g t u p -> forall fuel visited,
  NoDup p -> (forall x, x ∈ p -> x ∉ visited) ->
  (length p <= S fuel)%nat ->
  p ∈ simple_paths_from fuel g t visited u.
Proof.
  induction 1 as [|u v p He Hw IH]; intros fuel visited Hnd Hfresh Hlen.
  - destruct fuel; simpl; rewrite decide_True by reflexivity; left.
  - apply NoDup_cons in Hnd as [Hu Hnd].
    destruct (walk_head _ _ _ _ Hw) as [q ->].
    assert (u <> t) as Hne.
    { intros ->. apply Hu, (walk_target _ _ _ _ Hw). }
    destruct fuel as [|fuel]; [simpl in Hlen; lia|].
    simpl. rewrite decide_False by exact Hne.
    apply list_elem_of_In, in_flat_map. exists v. split.
    + apply list_elem_of_In, list_elem_of_filter. split.
      * intros Hin. apply elem_of_cons in Hin as [->|Hin].
        -- apply Hu. left.
        -- apply (Hfresh v); [right; left | exact Hin].
      * apply successors_spec. exact He.
    + apply in_map, list_elem_of_In.
      apply IH; [exact Hnd | | simpl in *; lia].
      intros x Hx Hin. apply elem_of_cons in Hin as [->|Hin].
      * apply Hu. exact Hx.
      * apply (Hfresh x); [right; exact Hx | exact Hin].
Qed.

Lemma all_simple_paths_spec g u t p :
  closed g -> t ∈ nodes g ->
  p ∈ all_simple_paths g u t <-> simple_path g u t p.
Proof.
  intros Hc Ht. unfold all_simple_paths, simple_path. split.
  - intros Hp. apply simple_paths_from_sound in Hp; [tauto|].
    apply not_elem_of_nil.
  - intros [Hw Hnd]. apply simple_paths_from_complete; try assumption.
    + intros x _. apply not_elem_of_nil.
    + apply Nat.le_le_succ_r, submseteq_length, NoDup_submseteq; [exact Hnd|].
      apply (walk_nodes _ _ _ _ Hc Ht Hw).
Qed.

(** ** The undirected graph *)

Lemma uadd_node_nodes n g x :
  x ∈ unodes (uadd_node n g) <-> x = n \/ x ∈ unodes g.
Proof.
  unfold uadd_node. destruct (decide (n ∈ unodes g)); simpl.
  - split; [auto|]. intros [->|]; assumption.
  - rewrite elem_of_app, list_elem_of_singleton. tauto.
Qed.

Lemma uadd_node_edges n g : uedges (uadd_node n g) = uedges g.
Proof. unfold uadd_node. destruct (decide _); reflexivity. Qed.

Lemma uadd_node_adjacent n g u v : adjacent (uadd_node n g) u v <-> adjacent g u v.
Proof. unfold adjacent. rewrite uadd_node_edges. tauto. Qed.

Lemma uadd_edge_nodes a b g x :
  x ∈ unodes (uadd_edge a b g) <-> x = a \/ x = b \/ x ∈ unodes g.
Proof.
  unfold uadd_edge. destruct (decide _); simpl; rewrite !uadd_node_nodes; tauto.
Qed.

Lemma uadd_edge_adjacent a b g u v :
  adjacent (uadd_edge a b g) u v
  <-> (u = a /\ v = b) \/ (u = b /\ v = a) \/ adjacent g u v.
Proof.
  unfold uadd_edge, adjacent.
  destruct (decide _) as [Hin|Hin]; simpl; rewrite ?uadd_node_edges in *.
  - split; [tauto|]. intros [[-> ->]|[[-> ->]|H]]; tauto.
  - rewrite !elem_of_app, !list_elem_of_singleton. split.
    + intros [[H|[= -> ->]]|[H|[= -> ->]]]; tauto.
    + intros [[-> ->]|[[-> ->]|[H|H]]]; auto.
Qed.

Lemma uadd_node_closed n g : uclosed g -> uclosed (uadd_node n g).
Proof.
  intros Hc u v. rewrite uadd_node_edges, !uadd_node_nodes.
  intros Huv. destruct (Hc u v Huv). auto.
Qed.

Lemma uadd_edge_closed a b g : uclosed g -> uclosed (uadd_edge a b g).
Proof.
  intros Hc u v Huv. rewrite !uadd_edge_nodes.
  assert (Hadj : adjacent (uadd_edge a b g) u v) by (left; exact Huv).
  apply uadd_edge_adjacent in Hadj as [[-> ->]|[[-> ->]|[H|H]]]; auto;
    destruct (Hc _ _ H); auto.
Qed.

Lemma adjacent_sym g u v : adjacent g u v -> adjacent g v u.
Proof. unfold adjacent. tauto. Qed.

Lemma adjacent_nodes g u v :
  uclosed g -> adjacent g u v -> u ∈ unodes g /\ v ∈ unodes g.
Proof. intros Hc [H|H]; destruct (Hc _ _ H); auto. Qed.

Lemma neighbors_spec g u v : v ∈ neighbors g u <-> adjacent g u v.
Proof.
  unfold neighbors, adjacent.
  rewrite elem_of_app, !list_elem_of_fmap. split.
  - intros [([a b] & -> & He)|([a b] & -> & He)];
      apply list_elem_of_filter in He as [Ha He]; simpl in *; subst; auto.
  - intros [H|H]; [left; exists (u, v) | right; exists (v, u)];
      (split; [reflexivity|]); apply list_elem_of_filter; auto.
Qed.

(** ** Symmetric chains *)

Section Chains.
Context (R : relation string) (R_sym : forall x y, R x y -> R y x).

Lemma chain_sym x y : rtc R x y -> rtc R y x.
Proof.
  induction 1 as [|x y z Hxy _ IH]; [reflexivity|].
  eapply rtc_r; [exact IH | apply R_sym, Hxy].
Qed.
End Chains.

(** ** The breadth-first search finds the component of its source *)

Lemma expand_spec g (S : gset string) x :
  x ∈ expand g S <-> x ∈ S \/ exists y, y ∈ S /\ adjacent g y x.
Proof.
  unfold expand.
  rewrite elem_of_union, elem_of_list_to_set, list_elem_of_In, in_flat_map.
  split.
  - intros [H|(y & Hy & Hx)]; [auto|]. right. exists y.
    rewrite <- list_elem_of_In in *.
    split; [apply elem_of_elements, Hy | apply neighbors_spec, Hx].
  - intros [H|(y & Hy & Hx)]; [auto|]. right. exists y.
    rewrite <- !list_elem_of_In.
    split; [apply elem_of_elements, Hy | apply neighbors_spec, Hx].
Qed.

Lemma expand_incr g (S : gset string) : S ⊆ expand g S.
Proof. intros x Hx. apply expand_spec. auto. Qed.

Section Bfs.
Variable g : Graph.
Hypothesis g_closed : uclosed g.
Variable source : string.
Hypothesis source_node : source ∈ unodes g.

Let level (k : nat) : gset string := Nat.iter k (expand g) {[source]}.

Lemma level_source k : source ∈ level k.
Proof.
  induction k as [|k IH]; simpl; [set_solver|]. apply expand_incr, IH.
Qed.

Lemma level_sound k x : x ∈ level k -> rtc (adjacent g) source x.
Proof.
  revert x. induction k as [|k IH]; simpl; intros x Hx.
  - apply elem_of_singleton in Hx as ->. reflexivity.
  - apply expand_spec in Hx as [Hx|(y & Hy & Hyx)]; [auto|].
    eapply rtc_r; [apply IH, Hy | exact Hyx].
Qed.

Lemma level_nodes k x : x ∈ level k -> x ∈ unodes g.
Proof.
  intros Hx. apply level_sound, rtc_inv_r in Hx as [<-|(y & _ & Hy)];
    [exact source_node | apply (adjacent_nodes _ _ _ g_closed Hy)].
Qed.

Lemma level_size k : (size (level k) <= length (unodes g))%nat.
Proof.
  unfold size, set_size. simpl.
  apply submseteq_length, NoDup_submseteq; [apply NoDup_elements|].
  intros x Hx. apply elem_of_elements in Hx. apply (level_nodes k x Hx).
Qed.

(** Every round adds a node, until a round adds none. *)
Lemma level_grows k : (k < size (level k))%nat \/ expand g (level k) = level k.
Proof.
  induction k as [|k IH].
  - left. change (0 < size ({[source]} : gset string))%nat.
    rewrite size_singleton. lia.
  - destruct IH as [IH|IH]; [|right; simpl; rewrite IH; exact IH].
    destruct (decide (expand g (level k) = level k)) as [E|E].
    + right. simpl. rewrite E. exact E.
    + left. assert (level k ⊂ level (S k)) as Hsub.
      { split; [apply expand_incr|]. intros Hback. apply E.
        apply set_eq. intros x. split; [apply Hback | apply expand_incr]. }
      apply subset_size in Hsub. lia.
Qed.

Lemma plain_bfs_stable : expand g (plain_bfs g source) = plain_bfs g source.
Proof.
  destruct (level_grows (length (unodes g))) as [H|H]; [|exact H].
  pose proof (level_size (length (unodes g))). lia.
Qed.

Lemma plain_bfs_spec x :
  x ∈ plain_bfs g source <-> rtc (adjacent g) source x.
Proof.
  split; [apply level_sound|].
  revert x. apply (rtc_ind_r (fun x => x ∈ plain_bfs g source)).
  - apply level_source.
  - intros y z _ Hyz IH. rewrite <- plain_bfs_stable.
    apply expand_spec. right. eauto.
Qed.
End Bfs.

(** ** Counting the components *)

Section Components.
Variable g : Graph.
Hypothesis g_closed : uclosed g.

Let connected := rtc (adjacent g).

Lemma connected_sym x y : connected x y -> connected y x.
Proof. apply chain_sym. intros a b. apply adjacent_sym. Qed.

Lemma components_loop_reps l : forall seen : gset string,
  (forall v, v ∈ l -> v ∈ unodes g) ->
  (forall x y, x ∈ seen -> connected x y -> y ∈ seen) ->
  exists reps : list string,
    length reps = length (components_loop g l seen) /\
    NoDup reps /\
    (forall r, r ∈ reps -> r ∈ l /\ r ∉ seen) /\
    (forall v, v ∈ l -> v ∈ seen \/ exists r, r ∈ reps /\ connected r v) /\
    (forall r1 r2, r1 ∈ reps -> r2 ∈ reps -> connected r1 r2 -> r1 = r2).
Proof.
  induction l as [|v l IH]; intros seen Hl Hseen; simpl.
  - exists []. split; [reflexivity|]. split; [constructor|].
    split; [intros r Hr; inversion Hr|].
    split; [intros v Hv; inversion Hv | intros r1 r2 Hr; inversion Hr].
  - assert (Hl' : forall w, w ∈ l -> w ∈ unodes g)
      by (intros w Hw; apply Hl; right; exact Hw).
    destruct (decide (v ∈ seen)) as [Hv|Hv].
    + destruct (IH seen Hl' Hseen) as (reps & Hlen & Hnd & Hin & Hcov & Hsep).
      exists reps. split; [exact Hlen|]. split; [exact Hnd|].
      split; [|split; [|exact Hsep]].
      * intros r Hr. destruct (Hin r Hr). split; [right|]; assumption.
      * intros w Hw. apply elem_of_cons in Hw as [->|Hw]; auto.
    + assert (Hv_node : v ∈ unodes g) by (apply Hl; left).
      pose proof (plain_bfs_spec g g_closed v Hv_node) as Hbfs.
      destruct (IH (seen ∪ plain_bfs g v) Hl') as
        (reps & Hlen & Hnd & Hin & Hcov & Hsep).
      { intros x y Hx Hxy. apply elem_of_union in Hx as [Hx|Hx].
        - apply elem_of_union_l, (Hseen x y Hx Hxy).
        - apply elem_of_union_r, Hbfs. etransitivity; [apply Hbfs, Hx | exact Hxy]. }
      assert (Hfar : forall r, r ∈ reps -> ~ connected v r).
      { intros r Hr Hc. destruct (Hin r Hr) as [_ Hn].
        apply Hn, elem_of_union_r, Hbfs, Hc. }
      exists (v :: reps). simpl. split; [f_equal; exact Hlen|].
      split; [|split; [|split]].
      * constructor; [|exact Hnd]. intros Hr. apply (Hfar v Hr). reflexivity.
      * intros r Hr. apply elem_of_cons in Hr as [->|Hr].
        -- split; [left | exact Hv].
        -- destruct (Hin r Hr) as [Hrl Hn]. split; [right; exact Hrl|].
           intros Hs. apply Hn, elem_of_union_l, Hs.
      * intros w Hw. apply elem_of_cons in Hw as [->|Hw].
        -- right. exists v. split; [left | reflexivity].
        -- destruct (Hcov w Hw) as [Hs|(r & Hr & Hc)].
           ++ apply elem_of_union in Hs as [Hs|Hs]; [left; exact Hs|].
              right. exists v. split; [left | apply Hbfs, Hs].
           ++ right. exists r. split; [right; exact Hr | exact Hc].
      * intros r1 r2 Hr1 Hr2 Hc.
        apply elem_of_cons in Hr1 as [->|Hr1];
          apply elem_of_cons in Hr2 as [->|Hr2]; auto.
        -- destruct (Hfar r2 Hr2 Hc).
        -- destruct (Hfar r1 Hr1 (connected_sym _ _ Hc)).
Qed.
End Components.

(** [number_connected_components] counts the components. *)
Lemma number_connected_components_spec g :
  uclosed g ->
  component_count (unodes g) (adjacent g) (number_connected_components g).
Proof.
  intros Hc. unfold number_connected_components, connected_components.
  destruct (components_loop_reps g Hc (unodes g) ∅) as
    (reps & Hlen & Hnd & Hin & Hcov & Hsep).
  - auto.
  - intros x y Hx. apply not_elem_of_empty in Hx. destruct Hx.
  - exists reps. split; [exact Hlen|]. split; [exact Hnd|].
    split; [intros r Hr; apply (Hin r Hr)|]. split; [|exact Hsep].
    intros v Hv. destruct (Hcov v Hv) as [Hs|H]; [|exact H].
    apply not_elem_of_empty in Hs. destruct Hs.
Qed.

(** The count depends on the set of nodes and on the chains only. *)
Lemma component_count_ext ns1 ns2 (R1 R2 : relation string) n :
  (forall x, x ∈ ns1 <-> x ∈ ns2) ->
  (forall x y, rtc R1 x y <-> rtc R2 x y) ->
  component_count ns1 R1 n -> component_count ns2 R2 n.
Proof.
  intros Hns HR (reps & Hlen & Hnd & Hin & Hcov & Hsep).
  exists reps. split; [exact Hlen|]. split; [exact Hnd|].
  split; [intros r Hr; apply Hns, Hin, Hr|]. split.
  - intros v Hv. apply Hns in Hv. destruct (Hcov v Hv) as (r & Hr & Hc).
    exists r. split; [exact Hr | apply HR, Hc].
  - intros r1 r2 H1 H2 Hc. apply (Hsep r1 r2 H1 H2), HR, Hc.
Qed.

(** Representatives of one system are linked with different representatives
    of another, so the first system is not the longer one. *)
Lemma representatives_le (link : relation string) (reps1 reps2 : list string) :
  NoDup reps1 ->
  (forall r, r ∈ reps1 -> exists s, s ∈ reps2 /\ link r s) ->
  (forall r r' s, r ∈ reps1 -> r' ∈ reps1 -> link r s -> link r' s -> r = r') ->
  (length reps1 <= length reps2)%nat.
Proof.
  revert reps2. induction reps1 as [|r reps1 IH]; intros reps2 Hnd Hex Hinj;
    simpl; [lia|].
  apply NoDup_cons in Hnd as [Hr Hnd].
  destruct (Hex r) as (s & Hs & Hrs); [left|].
  apply list_elem_of_split in Hs as (a & b & ->).
  rewrite length_app. simpl.
  enough (length reps1 <= length (a ++ b))%nat
    by (rewrite length_app in *; lia).
  apply IH; [exact Hnd | |].
  - intros r' Hr'. destruct (Hex r') as (s' & Hs' & Hrs'); [right; exact Hr'|].
    exists s'. split; [|exact Hrs'].
    apply elem_of_app in Hs' as [Hs'|Hs']; [apply elem_of_app; auto|].
    apply elem_of_cons in Hs' as [->|Hs']; [|apply elem_of_app; auto].
    exfalso. apply Hr.
    rewrite (Hinj r r' s); [exact Hr' | left | right; exact Hr' | exact Hrs | exact Hrs'].
  - intros r1 r2 s' H1 H2. apply Hinj; right; assumption.
Qed.

(** For a symmetric relation, the count is determined. *)
Lemma component_count_unique ns (R : relation string) n1 n2 :
  (forall x y, R x y -> R y x) ->
  component_count ns R n1 -> component_count ns R n2 -> n1 = n2.
Proof.
  intros Hsym.
  enough (forall n1 n2, component_count ns R n1 -> component_count ns R n2 ->
                        (n1 <= n2)%nat) as Hle.
  { intros H1 H2. apply Nat.le_antisymm; apply Hle; assumption. }
  clear n1 n2.
  intros n1 n2 (reps1 & <- & Hnd1 & Hin1 & Hcov1 & Hsep1)
         (reps2 & <- & Hnd2 & Hin2 & Hcov2 & Hsep2).
  apply (representatives_le (fun r s => rtc R s r)); [exact Hnd1 | |].
  - intros r Hr. apply Hcov2, Hin1, Hr.
  - intros r r' s Hr Hr' Hrs Hrs'. apply Hsep1; [exact Hr | exact Hr'|].
    etransitivity; [apply (chain_sym R Hsym), Hrs | exact Hrs'].
Qed.

(** ** Folds that add edges *)

Section EdgeFold.
Variable a : string.
Variable P : string -> Prop.
Variable step : Graph -> string -> Graph.
Hypothesis step_spec : forall g y,
  (P y /\ step g y = uadd_edge a y g) \/ (~ P y /\ step g y = g).

Lemma edge_fold_adjacent l g u v :
  adjacent (fold_left step l g) u v
  <-> adjacent g u v \/
      exists y, y ∈ l /\ P y /\ ((u = a /\ v = y) \/ (u = y /\ v = a)).
Proof.
  revert g. induction l as [|y l IH]; intros g; simpl.
  - split; [auto|]. intros [H|(y & H & _)]; [exact H | inversion H].
  - rewrite IH. destruct (step_spec g y) as [[Hy ->]|[Hy ->]].
    + rewrite uadd_edge_adjacent. split.
      * intros [[H|[H|H]]|(y' & Hy' & H)]; [| |auto|].
        -- right. exists y. split; [left|]. auto.
        -- right. exists y. split; [left|]. auto.
        -- right. exists y'. split; [right; exact Hy' | exact H].
      * intros [H|(y' & Hy' & HP & H)]; [auto|].
        apply elem_of_cons in Hy' as [->|Hy']; [left; tauto|].
        right. exists y'. auto.
    + split.
      * intros [H|(y' & Hy' & H)]; [auto|].
        right. exists y'. split; [right; exact Hy' | exact H].
      * intros [H|(y' & Hy' & HP & H)]; [auto|].
        apply elem_of_cons in Hy' as [->|Hy']; [contradiction|].
        right. exists y'. auto.
Qed.

Lemma edge_fold_nodes l g x :
  x ∈ unodes (fold_left step l g)
  <-> x ∈ unodes g \/ exists y, y ∈ l /\ P y /\ (x = a \/ x = y).
Proof.
  revert g. induction l as [|y l IH]; intros g; simpl.
  - split; [auto|]. intros [H|(y & H & _)]; [exact H | inversion H].
  - rewrite IH. destruct (step_spec g y) as [[Hy ->]|[Hy ->]].
    + rewrite uadd_edge_nodes. split.
      * intros [[H|[H|H]]|(y' & Hy' & H)]; [| |auto|].
        -- right. exists y. split; [left|]. auto.
        -- right. exists y. split; [left|]. auto.
        -- right. exists y'. split; [right; exact Hy' | exact H].
      * intros [H|(y' & Hy' & HP & H)]; [auto|].
        apply elem_of_cons in Hy' as [->|Hy']; [left; tauto|].
        right. exists y'. auto.
    + split.
      * intros [H|(y' & Hy' & H)]; [auto|].
        right. exists y'. split; [right; exact Hy' | exact H].
      * intros [H|(y' & Hy' & HP & H)]; [auto|].
        apply elem_of_cons in Hy' as [->|Hy']; [contradiction|].
        right. exists y'. auto.
Qed.

Lemma edge_fold_closed l g : uclosed g -> uclosed (fold_left step l g).
Proof.
  revert g. induction l as [|y l IH]; intros g Hc; simpl; [exact Hc|].
  apply IH. destruct (step_spec g y) as [[_ ->]|[_ ->]];
    [apply uadd_edge_closed|]; exact Hc.
Qed.
End EdgeFold.

End NxProps.

(* ===================================================================== *)
(** * Properties of the class model and of the metrics                    *)
(* ===================================================================== *)

Module CKProps.
Import Ast CK NxProps.
Import Nx.

(** ** Insertion-ordered dicts *)

Lemma dict_get_set_eq {V} k (v : V) d : dict_get k (dict_set k v d) = Some v.
Proof.
  induction d as [|[k' v'] d IH]; simpl.
  - rewrite decide_True by reflexivity. reflexivity.
  - destruct (decide (k' = k)) as [->|Hne]; simpl.
    + rewrite decide_True by reflexivity. reflexivity.
    + rewrite decide_False by exact Hne. exact IH.
Qed.

Lemma dict_get_set_ne {V} k k' (v : V) d :
  k' <> k -> dict_get k (dict_set k' v d) = dict_get k d.
Proof.
  intros Hne. induction d as [|[k2 v2] d IH]; simpl.
  - rewrite decide_False by exact Hne. reflexivity.
  - destruct (decide (k2 = k')) as [->|Hne2]; simpl.
    + rewrite !decide_False by exact Hne. reflexivity.
    + destruct (decide (k2 = k)); [reflexivity | exact IH].
Qed.

Lemma dict_keys_set {V} k (v : V) d x :
  x ∈ dict_keys (dict_set k v d) <-> x = k \/ x ∈ dict_keys d.
Proof.
  unfold dict_keys. induction d as [|[k' v'] d IH]; simpl.
  - rewrite list_elem_of_singleton. split; [auto|]. intros [->|Hx]; [reflexivity|].
    inversion Hx.
  - destruct (decide (k' = k)) as [->|Hne]; simpl.
    + rewrite !elem_of_cons. tauto.
    + rewrite !elem_of_cons, IH. tauto.
Qed.

Lemma dict_keys_set_NoDup {V} k (v : V) d :
  NoDup (dict_keys d) -> NoDup (dict_keys (dict_set k v d)).
Proof.
  unfold dict_keys. induction d as [|[k' v'] d IH]; simpl; intros Hnd.
  - apply NoDup_singleton.
  - apply NoDup_cons in Hnd as [Hk Hnd].
    destruct (decide (k' = k)) as [->|Hne]; simpl.
    + apply NoDup_cons. split; assumption.
    + apply NoDup_cons. split; [|apply IH, Hnd].
      intros Hin. apply (dict_keys_set k v d k') in Hin as [->|Hin]; auto.
Qed.

Lemma dict_get_Some_keys {V} k (v : V) d :
  dict_get k d = Some v -> k ∈ dict_keys d.
Proof.
  unfold dict_keys. induction d as [|[k' v'] d IH]; simpl; [discriminate|].
  destruct (decide (k' = k)) as [->|Hne]; intros Hg; [left | right; auto].
Qed.

Lemma dict_keys_get {V} k (d : list (string * V)) :
  k ∈ dict_keys d -> exists v, dict_get k d = Some v.
Proof.
  unfold dict_keys. induction d as [|[k' v'] d IH]; simpl; intros Hin.
  - inversion Hin.
  - destruct (decide (k' = k)) as [->|Hne]; [eauto|].
    apply elem_of_cons in Hin as [->|Hin]; [congruence | auto].
Qed.

Lemma dict_get_elem {V} k (v : V) d : dict_get k d = Some v -> (k, v) ∈ d.
Proof.
  induction d as [|[k' v'] d IH]; simpl; [discriminate|].
  destruct (decide (k' = k)) as [->|Hne]; intros Hg.
  - injection Hg as ->. left.
  - right. auto.
Qed.

(** ** The depth of inheritance *)

Lemma fold_max_shift l a b :
  Z.max a (fold_left Z.max l b) = fold_left Z.max l (Z.max a b).
Proof.
  revert b. induction l as [|x l IH]; intros b; simpl; [reflexivity|].
  rewrite IH, Z.max_assoc. reflexivity.
Qed.

Lemma fold_max_ge l d : d <= fold_left Z.max l d.
Proof.
  revert d. induction l as [|x l IH]; intros d; simpl; [lia|].
  specialize (IH (Z.max d x)). lia.
Qed.

Lemma fold_max_elem l d x : x ∈ l -> x <= fold_left Z.max l d.
Proof.
  revert d. induction l as [|y l IH]; intros d Hx; [inversion Hx|].
  simpl. apply elem_of_cons in Hx as [->|Hx]; [|auto].
  pose proof (fold_max_ge l (Z.max d y)). lia.
Qed.

Lemma fold_max_attained l d :
  fold_left Z.max l d = d \/ fold_left Z.max l d ∈ l.
Proof.
  revert d. induction l as [|y l IH]; intros d; simpl; [left; reflexivity|].
  destruct (IH (Z.max d y)) as [E|E].
  - rewrite E. destruct (Z.max_spec d y) as [[_ ->]|[_ ->]];
      [right; left | left; reflexivity].
  - right. right. exact E.
Qed.

(** The loop over the roots keeps the largest depth of all the paths. *)
Lemma dit_loop_max (paths : string -> list (list string)) rs d0 :
  fold_left
    (fun max_depth r =>
       match paths r with
       | [] => max_depth
       | path :: ps =>
           Z.max max_depth (max_of (path_depth path) (map path_depth ps))
       end) rs d0
  = fold_left Z.max (map path_depth (flat_map paths rs)) d0.
Proof.
  revert d0. induction rs as [|r rs IH]; intros d0; simpl; [reflexivity|].
  rewrite IH, map_app, fold_left_app. f_equal.
  destruct (paths r) as [|p ps]; simpl; [reflexivity|].
  unfold max_of. apply fold_max_shift.
Qed.

Lemma roots_spec g r : r ∈ roots g <-> Nx.root g r.
Proof.
  unfold roots, Nx.root. rewrite list_elem_of_filter, in_degree_zero. tauto.
Qed.

Lemma root_path_enumerated g c p :
  closed g -> c ∈ Nx.nodes g ->
  root_path g c p
  <-> p ∈ flat_map (fun r => Nx.all_simple_paths g r c) (roots g).
Proof.
  intros Hc Hn. unfold root_path.
  rewrite list_elem_of_In, in_flat_map. split.
  - intros (r & Hr & Hp). exists r. rewrite <- !list_elem_of_In.
    split; [apply roots_spec, Hr | apply all_simple_paths_spec; assumption].
  - intros (r & Hr & Hp). exists r. rewrite <- !list_elem_of_In in *.
    split; [apply roots_spec, Hr | apply all_simple_paths_spec in Hp; assumption].
Qed.

Lemma walk_depth g t u p : Nx.walk g t u p -> 0 <= path_depth p.
Proof. destruct 1; unfold path_depth; simpl; lia. Qed.

(** [_calculate_dit] is the length of a longest simple path from a root. *)
Lemma calculate_dit_longest st c :
  closed (inheritance_graph st) -> c ∈ Nx.nodes (inheritance_graph st) ->
  longest_root_path (inheritance_graph st) c (_calculate_dit st c).
Proof.
  intros Hc Hn. unfold _calculate_dit. rewrite decide_True by exact Hn.
  rewrite dit_loop_max.
  set (g := inheritance_graph st) in *.
  set (P := flat_map (fun r => Nx.all_simple_paths g r c) (roots g)).
  assert (HP : forall p, root_path g c p <-> p ∈ P)
    by (intros p; apply root_path_enumerated; assumption).
  split.
  - intros p Hp. apply fold_max_elem, list_elem_of_fmap.
    exists p. split; [reflexivity | apply HP, Hp].
  - destruct (fold_max_attained (map path_depth P) 0) as [E|E].
    + rewrite E. destruct P as [|p P'] eqn:EP.
      * right. split; [reflexivity|]. intros p Hp. apply HP in Hp. inversion Hp.
      * left. exists p. assert (Hp : root_path g c p) by (apply HP; left).
        split; [exact Hp|].
        pose proof (fold_max_elem (map path_depth (p :: P')) 0 (path_depth p)) as Hle.
        rewrite E in Hle. specialize (Hle ltac:(left)).
        destruct Hp as (r & _ & Hw & _). pose proof (walk_depth _ _ _ _ Hw). lia.
    + left. apply list_elem_of_fmap in E as (p & E & Hp).
      exists p. split; [apply HP, Hp | symmetry; exact E].
Qed.

(** The depth does not depend on the version of networkx: the path that
    version 3 adds for a root that is the class itself has no edge. *)
Lemma calculate_dit_networkx_v2 st c :
  c ∈ Nx.nodes (inheritance_graph st) ->
  fold_left
    (fun max_depth root =>
       match Nx.all_simple_paths_v2 (inheritance_graph st) root c with
       | [] => max_depth
       | path :: paths =>
           Z.max max_depth (max_of (path_depth path) (map path_depth paths))
       end)
    (roots (inheritance_graph st)) 0
  = _calculate_dit st c.
Proof.
  intros Hn. unfold _calculate_dit. rewrite decide_True by exact Hn.
  set (g := inheritance_graph st). unfold Nx.all_simple_paths_v2.
  assert (H0 : 0 <= 0) by lia. revert H0.
  generalize 0 at 2 3 4 as d. induction (roots g) as [|r rs IH]; intros d Hd;
    simpl; [reflexivity|].
  destruct (decide (r = c)) as [->|Hne].
  - replace (Nx.all_simple_paths g c c) with [[c]].
    + simpl. unfold max_of, path_depth. simpl.
      rewrite Z.max_l by exact Hd. apply IH, Hd.
    + unfold Nx.all_simple_paths.
      destruct (length (Nx.nodes g)); simpl;
        rewrite decide_True by reflexivity; reflexivity.
  - destruct (Nx.all_simple_paths g r c) as [|p ps]; [apply IH, Hd|].
    apply IH. lia.
Qed.

(** A node without an incoming edge has depth 0. *)
Lemma calculate_dit_no_incoming st c :
  closed (inheritance_graph st) -> c ∈ Nx.nodes (inheritance_graph st) ->
  (forall u, (u, c) ∉ Nx.edges (inheritance_graph st)) ->
  _calculate_dit st c = 0.
Proof.
  intros Hc Hn Hin.
  destruct (calculate_dit_longest st c Hc Hn) as [_ [(p & Hp & <-)|[E _]]];
    [|exact E].
  destruct Hp as (r & _ & Hw & _).
  destruct (walk_last_edge _ _ _ _ Hw) as [->|[x Hx]]; [reflexivity|].
  destruct (Hin x Hx).
Qed.


(** ** What [_process_ast] builds *)

Lemma parse_files_declarations files st :
  parse_files files st = process_all (declarations files) st.
Proof.
  unfold parse_files, process_all, declarations. revert st.
  induction files as [|[fp tree] files IH]; intros st; simpl; [reflexivity|].
  rewrite fold_left_app, <- IH. f_equal.
  unfold _process_ast. clear IH. revert st.
  induction tree as [|cd tree IH]; intros st; simpl; [reflexivity | apply IH].
Qed.

Lemma process_classdef_filter fp cd st :
  class_filter (process_classdef fp cd st) = class_filter st.
Proof. unfold process_classdef. destruct (accepted _ _); reflexivity. Qed.

Lemma process_all_filter ds st :
  class_filter (process_all ds st) = class_filter st.
Proof.
  unfold process_all. revert st.
  induction ds as [|d ds IH]; intros st; simpl; [reflexivity|].
  rewrite IH. apply process_classdef_filter.
Qed.

Lemma process_all_app ds1 ds2 st :
  process_all (ds1 ++ ds2)%list st = process_all ds2 (process_all ds1 st).
Proof. apply fold_left_app. Qed.

Lemma process_all_cons d ds st :
  process_all (d :: ds) st = process_all ds (process_classdef d.1 d.2 st).
Proof. reflexivity. Qed.

(** *** The graph *)

Lemma add_inheritance_edges n bs g e :
  e ∈ Nx.edges (add_inheritance n bs g)
  <-> e ∈ Nx.edges g \/ (e.2 = n /\ e.1 ∈ bs /\ e.1 <> "object").
Proof.
  unfold add_inheritance.
  rewrite <- (add_node_edges n g). generalize (Nx.add_node n g). clear g.
  induction bs as [|b bs IH]; intros g; simpl.
  - split; [auto|]. intros [H|(_ & H & _)]; [exact H | inversion H].
  - rewrite IH. destruct (decide (b <> "object")) as [Hb|Hb].
    + rewrite add_edge_edges, elem_of_cons. destruct e as [u v]; simpl.
      split.
      * intros [[[= -> ->]|H]|(H1 & H2 & H3)]; auto 6.
      * intros [H|(-> & [->|H] & H3)]; auto 6.
    + apply dec_stable in Hb. subst b. rewrite elem_of_cons.
      split; [tauto|]. intros [H|(H1 & [H2|H2] & H3)]; auto 6. congruence.
Qed.

Lemma add_inheritance_nodes n bs g x :
  x ∈ Nx.nodes (add_inheritance n bs g)
  <-> x ∈ Nx.nodes g \/ x = n \/ (x ∈ bs /\ x <> "object").
Proof.
  unfold add_inheritance.
  transitivity (x ∈ Nx.nodes (Nx.add_node n g) \/ (x ∈ bs /\ x <> "object"));
    [|rewrite add_node_nodes; tauto].
  assert (Hn : n ∈ Nx.nodes (Nx.add_node n g)) by (apply add_node_nodes; auto).
  revert Hn. generalize (Nx.add_node n g). clear g.
  induction bs as [|b bs IH]; intros g Hn; simpl.
  - split; [auto|]. intros [H|[H _]]; [exact H | inversion H].
  - destruct (decide (b <> "object")) as [Hb|Hb].
    + rewrite IH by (apply add_edge_nodes; auto).
      rewrite add_edge_nodes, elem_of_cons. split.
      * intros [[->|[->|H]]|[H1 H2]]; auto.
      * intros [H|[[->|H1] H2]]; auto 6.
    + apply dec_stable in Hb. subst b. rewrite IH by exact Hn.
      rewrite elem_of_cons. split; [tauto|].
      intros [H|[[H1|H1] H2]]; auto. congruence.
Qed.

Lemma add_inheritance_closed n bs g :
  closed g -> closed (add_inheritance n bs g).
Proof.
  unfold add_inheritance. intros Hc.
  apply (add_node_closed n) in Hc. revert Hc.
  generalize (Nx.add_node n g). clear g.
  induction bs as [|b bs IH]; intros g Hc; simpl; [exact Hc|].
  apply IH. destruct (decide _); [apply add_edge_closed|]; exact Hc.
Qed.

Lemma process_classdef_closed fp cd st :
  closed (inheritance_graph st) ->
  closed (inheritance_graph (process_classdef fp cd st)).
Proof.
  unfold process_classdef. destruct (accepted _ _); simpl; [|auto].
  apply add_inheritance_closed.
Qed.

Lemma process_all_closed ds st :
  closed (inheritance_graph st) ->
  closed (inheritance_graph (process_all ds st)).
Proof.
  unfold process_all. revert st.
  induction ds as [|d ds IH]; intros st Hc; simpl; [exact Hc|].
  apply IH, process_classdef_closed, Hc.
Qed.

(** The edges of the graph: those it had, and one from every base other
    than ['object'] of every accepted declaration. *)
Lemma process_all_edges ds st e :
  e ∈ Nx.edges (inheritance_graph (process_all ds st))
  <-> e ∈ Nx.edges (inheritance_graph st) \/ declares (class_filter st) ds e.
Proof.
  unfold process_all, declares. revert st.
  induction ds as [|d ds IH]; intros st; simpl.
  - split; [auto|]. intros [H|(d & H & _)]; [exact H | inversion H].
  - rewrite IH, process_classdef_filter. unfold process_classdef.
    destruct (accepted (class_filter st) (cd_name d.2)) eqn:Ea; simpl.
    + rewrite add_inheritance_edges. split.
      * intros [[H|H]|(d' & Hd & H)]; [auto| |].
        -- right. exists d. split; [left|]. tauto.
        -- right. exists d'. split; [right; exact Hd | exact H].
      * intros [H|(d' & Hd & Ha & H)]; [auto|].
        apply elem_of_cons in Hd as [->|Hd]; [left; right; tauto|].
        right. exists d'. tauto.
    + split.
      * intros [H|(d' & Hd & H)]; [auto|].
        right. exists d'. split; [right; exact Hd | exact H].
      * intros [H|(d' & Hd & Ha & H)]; [auto|].
        apply elem_of_cons in Hd as [->|Hd]; [congruence|].
        right. exists d'. tauto.
Qed.

(** *** The class table and the file index *)

Lemma process_all_classes_other n ds st :
  (forall d, d ∈ ds -> cd_name d.2 <> n) ->
  dict_get n (classes (process_all ds st)) = dict_get n (classes st) /\
  dict_get n (file_paths (process_all ds st)) = dict_get n (file_paths st).
Proof.
  unfold process_all. revert st.
  induction ds as [|d ds IH]; intros st Hne; simpl; [auto|].
  destruct (IH (process_classdef d.1 d.2 st)) as [-> ->].
  { intros d' Hd. apply Hne. right. exact Hd. }
  unfold process_classdef. destruct (accepted _ _); simpl; [|auto].
  rewrite !dict_get_set_ne by (apply Hne; left). auto.
Qed.

Lemma process_classdef_accepted fp cd st :
  accepted (class_filter st) (cd_name cd) = true ->
  dict_get (cd_name cd) (classes (process_classdef fp cd st))
  = Some (class_info_of cd) /\
  dict_get (cd_name cd) (file_paths (process_classdef fp cd st)) = Some fp.
Proof.
  intros Ha. unfold process_classdef. rewrite Ha. simpl.
  rewrite !dict_get_set_eq. auto.
Qed.

(** The record of a name is the one of its last accepted declaration. *)
Lemma process_all_last pre fp cd post st :
  accepted (class_filter st) (cd_name cd) = true ->
  (forall d, d ∈ post -> cd_name d.2 <> cd_name cd) ->
  let st' := process_all (pre ++ (fp, cd) :: post)%list st in
  dict_get (cd_name cd) (classes st') = Some (class_info_of cd) /\
  dict_get (cd_name cd) (file_paths st') = Some fp.
Proof.
  intros Ha Hpost. simpl. rewrite process_all_app, process_all_cons. simpl.
  destruct (process_all_classes_other (cd_name cd) post
              (process_classdef fp cd (process_all pre st)) Hpost) as [-> ->].
  apply process_classdef_accepted. rewrite process_all_filter. exact Ha.
Qed.

Lemma process_all_NoDup ds st :
  NoDup (dict_keys (classes st)) ->
  NoDup (dict_keys (classes (process_all ds st))).
Proof.
  unfold process_all. revert st.
  induction ds as [|d ds IH]; intros st Hnd; simpl; [exact Hnd|].
  apply IH. unfold process_classdef. destruct (accepted _ _); simpl; [|auto].
  apply dict_keys_set_NoDup, Hnd.
Qed.

(** Every class of the table is a node of the graph. *)
Lemma process_all_class_nodes ds st :
  (forall n, n ∈ dict_keys (classes st) -> n ∈ Nx.nodes (inheritance_graph st)) ->
  forall n, n ∈ dict_keys (classes (process_all ds st)) ->
            n ∈ Nx.nodes (inheritance_graph (process_all ds st)).
Proof.
  unfold process_all. revert st.
  induction ds as [|d ds IH]; intros st Hst; simpl; [exact Hst|].
  apply IH. unfold process_classdef. destruct (accepted _ _); simpl; [|auto].
  intros n Hn. apply add_inheritance_nodes.
  apply dict_keys_set in Hn as [->|Hn]; auto.
Qed.

(** Every class of the table comes from an accepted declaration. *)
Lemma process_all_classes_from ds st n ci :
  dict_get n (classes (process_all ds st)) = Some ci ->
  dict_get n (classes st) = Some ci \/
  exists d, d ∈ ds /\ cd_name d.2 = n /\ ci = class_info_of d.2 /\
            accepted (class_filter st) n = true.
Proof.
  unfold process_all. revert st.
  induction ds as [|d ds IH]; intros st; simpl; [auto|].
  intros Hg. apply IH in Hg as [Hg|(d' & Hd & Hn & Hci & Ha)].
  - unfold process_classdef in Hg.
    destruct (accepted (class_filter st) (cd_name d.2)) eqn:Ea; simpl in Hg;
      [|auto].
    destruct (decide (cd_name d.2 = n)) as [<-|Hne].
    + rewrite dict_get_set_eq in Hg. injection Hg as <-.
      right. exists d. split; [left|]. auto.
    + rewrite dict_get_set_ne in Hg by exact Hne. auto.
  - right. exists d'. rewrite process_classdef_filter in Ha.
    split; [right; exact Hd | auto].
Qed.


(** *** [calculate_metrics] *)

Section Summary.
Variable builtins : gset string.
Variable st : CKMetrics.

Let step (result : ProjectMetrics) (kv : string * ClassInfo) : ProjectMetrics :=
  let class_name := kv.1 in
  let class_metrics := _calculate_class_metrics builtins st class_name kv.2 in
  let file_path := default "unknown" (dict_get class_name (file_paths st)) in
  let file_classes := default [] (dict_get file_path (files result)) in
  mkProjectMetrics
    (dict_set file_path (dict_set class_name class_metrics file_classes)
       (files result))
    (dict_set class_name class_metrics (class_summary result)).

Lemma summary_other n l acc :
  n ∉ dict_keys l ->
  dict_get n (class_summary (fold_left step l acc))
  = dict_get n (class_summary acc).
Proof.
  unfold dict_keys. revert acc.
  induction l as [|[k v] l IH]; intros acc Hn; simpl; [reflexivity|].
  rewrite IH by (intros Hin; apply Hn; right; exact Hin).
  simpl. apply dict_get_set_ne. intros ->. apply Hn. left.
Qed.

Lemma summary_of_class n ci l acc :
  NoDup (dict_keys l) -> dict_get n l = Some ci ->
  dict_get n (class_summary (fold_left step l acc))
  = Some (_calculate_class_metrics builtins st n ci).
Proof.
  unfold dict_keys. revert acc.
  induction l as [|[k v] l IH]; intros acc Hnd Hg; simpl in *; [discriminate|].
  apply NoDup_cons in Hnd as [Hk Hnd].
  destruct (decide (k = n)) as [->|Hne].
  - injection Hg as ->. rewrite summary_other by exact Hk.
    simpl. apply dict_get_set_eq.
  - apply IH; assumption.
Qed.

Lemma calculate_metrics_summary n ci :
  NoDup (dict_keys (classes st)) -> dict_get n (classes st) = Some ci ->
  dict_get n (class_summary (calculate_metrics builtins st))
  = Some (_calculate_class_metrics builtins st n ci).
Proof. apply summary_of_class. Qed.

End Summary.

Lemma calculate_noc_edge st u v :
  closed (inheritance_graph st) ->
  (u, v) ∈ Nx.edges (inheritance_graph st) -> 1 <= _calculate_noc st u.
Proof.
  intros Hc He. unfold _calculate_noc.
  rewrite decide_True by apply (Hc _ _ He).
  apply successors_spec in He.
  destruct (Nx.successors _ u); [inversion He | simpl; lia].
Qed.

Lemma init_closed flt : closed (inheritance_graph (CKMetrics_init flt)).
Proof. apply closed_empty. Qed.

(** C10.  Of several accepted declarations of one name, the class table, the
    file index and [class_summary] hold the record of the last one; the
    graph holds the edges of all of them, and each still counts for the
    number of children of its base.  In the project of [redeclared_files]
    the record of [A] has no bases, and yet the depth of [A] and the number
    of children of [B] are 1. *)
Theorem redeclared_class flt files pre file_path cd post :
  declarations files = (pre ++ (file_path, cd) :: post)%list ->
  accepted flt (cd_name cd) = true ->
  (forall d, d ∈ post -> cd_name d.2 <> cd_name cd) ->
  let st := parse_files files (CKMetrics_init flt) in
  dict_get (cd_name cd) (classes st) = Some (class_info_of cd) /\
  dict_get (cd_name cd) (file_paths st) = Some file_path /\
  (forall builtins,
      dict_get (cd_name cd) (class_summary (calculate_metrics builtins st))
      = Some (_calculate_class_metrics builtins st (cd_name cd)
                (class_info_of cd))) /\
  (forall d base,
      d ∈ declarations files -> accepted flt (cd_name d.2) = true ->
      base ∈ resolve_bases (cd_bases d.2) -> base <> "object" ->
      (base, cd_name d.2) ∈ Nx.edges (inheritance_graph st) /\
      1 <= _calculate_noc st base) /\
  (bases <$> dict_get "A" (classes Examples.redeclared) = Some [] /\
   _calculate_dit Examples.redeclared "A" = 1 /\
   _calculate_noc Examples.redeclared "B" = 1).
Proof.
  intros Hds Ha Hpost st. subst st. rewrite parse_files_declarations, Hds.
  destruct (process_all_last pre file_path cd post (CKMetrics_init flt) Ha Hpost)
    as [Hcls Hfp].
  split; [exact Hcls|]. split; [exact Hfp|]. split; [|split].
  - intros builtins. apply calculate_metrics_summary; [|exact Hcls].
    apply process_all_NoDup. constructor.
  - intros d base Hd Hda Hb Hobj.
    assert (He : (base, cd_name d.2)
                 ∈ Nx.edges (inheritance_graph
                               (process_all (pre ++ (file_path, cd) :: post)%list
                                  (CKMetrics_init flt)))).
    { apply process_all_edges. right. exists d. simpl. auto. }
    split; [exact He|].
    apply (calculate_noc_edge _ _ _ (process_all_closed _ _ (init_closed flt)) He).
  - vm_compute. auto.
Qed.

(** The project of [redeclared_files], at the second declaration of [A]. *)
Lemma redeclared_class_witness :
  CK.dict_get "A" (classes Examples.redeclared)
  = Some (class_info_of (mkClassDef "A" [] [Other "Pass" []])) /\
  CK.dict_get "A" (file_paths Examples.redeclared) = Some "b.py".
Proof.
  pose proof (redeclared_class None Examples.redeclared_files
                [("a.py", mkClassDef "A" [Name "B"] [Other "Pass" []]);
                 ("b.py", mkClassDef "B" [] [Other "Pass" []])]
                "b.py" (mkClassDef "A" [] [Other "Pass" []]) []
                eq_refl eq_refl) as H.
  simpl in H. destruct H as (H1 & H2 & _).
  - intros d Hd. inversion Hd.
  - split; [exact H1 | exact H2].
Defined.


(** C1, as the code has it.  For a discovered class, [_calculate_dit] is the
    length in edges of a longest simple path from a root of the inheritance
    graph to the class, and 0 when there is no such path; it is 0 when no
    accepted declaration of the class names a base other than ['object']. *)
Theorem dit_longest_root_path flt files c :
  let st := parse_files files (CKMetrics_init flt) in
  c ∈ dict_keys (classes st) ->
  longest_root_path (inheritance_graph st) c (_calculate_dit st c) /\
  ((forall d base,
       d ∈ declarations files -> accepted flt (cd_name d.2) = true ->
       cd_name d.2 = c -> base ∈ resolve_bases (cd_bases d.2) ->
       base = "object") ->
   _calculate_dit st c = 0).
Proof.
  intros st Hc. subst st. rewrite parse_files_declarations in *.
  pose proof (process_all_closed (declarations files) _ (init_closed flt))
    as Hclosed.
  assert (Hn : c ∈ Nx.nodes (inheritance_graph
                               (process_all (declarations files)
                                  (CKMetrics_init flt)))).
  { apply process_all_class_nodes; [|exact Hc]. intros n Hin. inversion Hin. }
  split; [apply calculate_dit_longest; assumption|].
  intros Hbases. apply calculate_dit_no_incoming; try assumption.
  intros u Hu. apply process_all_edges in Hu as [Hu|(d & Hd & Ha & Hv & Hb & Ho)].
  - inversion Hu.
  - simpl in *. apply Ho. apply (Hbases d u); auto.
Qed.

(** The class [Child] of the parent and child project. *)
Lemma dit_longest_root_path_witness :
  "Child" ∈ dict_keys (classes Examples.single_inheritance) /\
  longest_root_path (inheritance_graph Examples.single_inheritance) "Child"
    (_calculate_dit Examples.single_inheritance "Child").
Proof.
  assert (H : "Child" ∈ dict_keys (classes Examples.single_inheritance))
    by (vm_compute; right; left).
  split; [exact H|].
  apply (dit_longest_root_path None Examples.single_inheritance_files "Child" H).
Defined.

(** [class B(External)]: the base is no class of the project, but it is a
    node of the graph, a root, and the depth of [B] is 1. *)
Lemma dit_external_base :
  dict_keys (classes Examples.external_base) = ["B"] /\
  bases <$> dict_get "B" (classes Examples.external_base)
  = Some ["External"] /\
  "External" ∈ Nx.nodes (inheritance_graph Examples.external_base) /\
  _calculate_dit Examples.external_base "B" = 1 /\
  _calculate_dit Examples.external_base "B" <> 0.
Proof.
  vm_compute. split; [reflexivity|]. split; [reflexivity|].
  split; [right; left|]. split; [reflexivity | discriminate].
Qed.

(** ** Coupling *)

Lemma couple_fold st cn l (c : gset string) x :
  x ∈ fold_left (couple_if_class st cn) l c
  <-> x ∈ c \/ (x ∈ l /\ x ∈ dict_keys (classes st) /\ x <> cn).
Proof.
  revert c. induction l as [|y l IH]; intros c; simpl.
  - split; [auto|]. intros [H|[H _]]; [exact H | inversion H].
  - rewrite IH. unfold couple_if_class.
    destruct (decide (y ∈ dict_keys (classes st) /\ y <> cn)) as [Hy|Hy].
    + rewrite elem_of_union, elem_of_singleton, elem_of_cons. split.
      * intros [[->|H]|(H1 & H2)]; tauto.
      * intros [H|([->|H1] & H2)]; tauto.
    + rewrite elem_of_cons. split; [tauto|].
      intros [H|([->|H1] & H2)]; tauto.
Qed.

Lemma couple_calls_fold st cn (l : list (string * gset string)) c x :
  x ∈ fold_left
        (fun c kv => fold_left (couple_if_class st cn) (elements kv.2) c) l c
  <-> x ∈ c \/ ((exists kv, kv ∈ l /\ x ∈ kv.2) /\
                x ∈ dict_keys (classes st) /\ x <> cn).
Proof.
  revert c. induction l as [|kv l IH]; intros c; simpl.
  - split; [auto|]. intros [H|[(kv & H & _) _]]; [exact H | inversion H].
  - rewrite IH, couple_fold, elem_of_elements. split.
    + intros [[H|(H1 & H2)]|((kv' & H1 & H2) & H3)]; [auto| |].
      * right. split; [exists kv; split; [left | exact H1] | exact H2].
      * right. split; [exists kv'; split; [right; exact H1 | exact H2] | exact H3].
    + intros [H|((kv' & H1 & H2) & H3)]; [auto|].
      apply elem_of_cons in H1 as [->|H1]; [auto|].
      right. split; [exists kv'; auto | exact H3].
Qed.

(** The coupled classes: the bases and the call receivers as they are, the
    called names and the attributes that name another class of the project;
    ['object'] and ['self'] removed. *)
Lemma coupled_classes_spec st cn ci x :
  x ∈ coupled_classes st cn ci
  <-> (x ∈ bases ci \/ x ∈ called_classes ci \/
       (((exists m calls, method_calls ci !! m = Some calls /\ x ∈ calls) \/
         x ∈ attributes ci) /\
        x ∈ dict_keys (classes st) /\ x <> cn)) /\
      x <> "object" /\ x <> "self".
Proof.
  unfold coupled_classes.
  rewrite !elem_of_difference, !elem_of_singleton, couple_fold,
    couple_calls_fold, elem_of_list_to_set, elem_of_app, !elem_of_elements.
  assert (Hcalls : (exists kv, kv ∈ map_to_list (method_calls ci) /\ x ∈ kv.2)
                   <-> exists m calls, method_calls ci !! m = Some calls /\
                                       x ∈ calls).
  { split.
    - intros ([m calls] & Hkv & Hx). exists m, calls.
      split; [apply elem_of_map_to_list, Hkv | exact Hx].
    - intros (m & calls & Hm & Hx). exists (m, calls).
      split; [apply elem_of_map_to_list, Hm | exact Hx]. }
  rewrite Hcalls. tauto.
Qed.

(** C3 at the class [Foo], whose method [make] calls [Foo.helper()]: the
    receiver [Foo] is in [called_classes], the class is coupled with itself
    and its CBO is 1. *)
Theorem cbo_counts_own_name :
  exists ci, dict_get "Foo" (classes Examples.self_receiver) = Some ci /\
             bases ci = [] /\
             "Foo" ∈ called_classes ci /\
             "Foo" ∈ coupled_classes Examples.self_receiver "Foo" ci /\
             _calculate_cbo Examples.self_receiver "Foo" ci = 1.
Proof.
  eexists. split; [reflexivity|]. split; [reflexivity|].
  split; [|split].
  - apply (bool_decide_unpack _). vm_compute. exact I.
  - apply (bool_decide_unpack _). vm_compute. exact I.
  - vm_compute. reflexivity.
Qed.

(** ** Weighted methods per class *)

Lemma sum_from l a : fold_left Z.add l a = a + foldr Z.add 0 l.
Proof.
  revert a. induction l as [|x l IH]; intros a; simpl; [lia|].
  rewrite IH. lia.
Qed.

Lemma sum_foldr l : sum l = foldr Z.add 0 l.
Proof. unfold sum. rewrite sum_from. lia. Qed.

Lemma sum_Permutation l1 l2 : l1 ≡ₚ l2 -> sum l1 = sum l2.
Proof.
  rewrite !sum_foldr. induction 1; simpl; lia.
Qed.

Lemma sum_at_least_length l :
  (forall x, x ∈ l -> 1 <= x) -> Z.of_nat (length l) <= sum l.
Proof.
  rewrite sum_foldr. induction l as [|x l IH]; intros Hl; simpl length; simpl foldr.
  - lia.
  - assert (1 <= x) by (apply Hl; left).
    assert (Z.of_nat (length l) <= foldr Z.add 0 l)
      by (apply IH; intros y Hy; apply Hl; right; exact Hy).
    lia.
Qed.

Lemma calculate_wmc_order ci l :
  l ≡ₚ elements (methods ci) -> _calculate_wmc ci = sum (map (counted ci) l).
Proof.
  intros Hl. unfold _calculate_wmc. apply sum_Permutation.
  symmetry. apply Permutation_map, Hl.
Qed.

Lemma calculate_wmc_at_least ci :
  (forall m c, method_complexity ci !! m = Some c -> 1 <= c) ->
  Z.of_nat (size (methods ci)) <= _calculate_wmc ci.
Proof.
  intros Hc. unfold _calculate_wmc, size, set_size. simpl.
  rewrite <- (length_map (fun m => default 1 (method_complexity ci !! m))).
  apply sum_at_least_length. intros x Hx.
  apply list_elem_of_In, in_map_iff in Hx as (m & <- & _).
  destruct (method_complexity ci !! m) as [c|] eqn:E; simpl; [eauto | lia].
Qed.

(** The recorded complexities are the ones of the items of the body. *)
Lemma process_item_complexity item ci m c :
  method_complexity (process_item item ci) !! m = Some c ->
  method_complexity ci !! m = Some c \/ c = complexity item.
Proof.
  destruct item; simpl; auto.
  - rewrite lookup_insert. case_decide; [intros [= <-]|]; auto.
  - rewrite lookup_insert. case_decide; [intros [= <-]|]; auto.
  - intros H. left. revert ci H. induction targets as [|t ts IH]; intros ci; simpl; [auto|].
    intros H. apply IH in H. revert H. unfold record_target.
    repeat (case_match; simpl; auto).
  - unfold record_target. repeat (case_match; simpl; auto).
Qed.

Lemma class_info_of_complexity cd m c :
  method_complexity (class_info_of cd) !! m = Some c ->
  exists item, item ∈ cd_body cd /\ c = complexity item.
Proof.
  unfold class_info_of.
  assert (Hinit : method_complexity
                    (ClassInfo_init (cd_name cd) (resolve_bases (cd_bases cd)))
                  !! m = Some c -> exists item, item ∈ cd_body cd /\ c = complexity item).
  { simpl. rewrite lookup_empty. discriminate. }
  revert Hinit. generalize (ClassInfo_init (cd_name cd) (resolve_bases (cd_bases cd))).
  assert (Hsub : forall item, item ∈ cd_body cd -> item ∈ cd_body cd) by auto.
  revert Hsub. generalize (cd_body cd) at 1 4.
  intros l. induction l as [|item l IH]; intros Hsub ci Hci; simpl; [exact Hci|].
  apply IH.
  - intros i Hi. apply Hsub. right. exact Hi.
  - intros H. apply process_item_complexity in H as [H| ->]; [auto|].
    exists item. split; [apply Hsub; left | reflexivity].
Qed.

(** C7.  For every class of an analyzed project, WMC is the sum, over the
    methods of the class in any order, of the recorded complexity of the
    method, 1 for a method without one; when the method bodies are trees of
    the parser, WMC is at least the number of methods. *)
Theorem wmc_sum_at_least_methods flt files class_name class_info :
  dict_get class_name (classes (parse_files files (CKMetrics_init flt)))
  = Some class_info ->
  (forall d item, d ∈ declarations files -> item ∈ cd_body d.2 ->
                  parser_shaped item = true) ->
  (forall l, l ≡ₚ elements (methods class_info) ->
             _calculate_wmc class_info
             = sum (map (fun m => default 1 (method_complexity class_info !! m)) l)) /\
  Z.of_nat (size (methods class_info)) <= _calculate_wmc class_info.
Proof.
  intros Hg Hok. split; [apply calculate_wmc_order|].
  apply calculate_wmc_at_least. intros m c Hm.
  rewrite parse_files_declarations in Hg.
  apply process_all_classes_from in Hg as [Hg|(d & Hd & _ & -> & _)];
    [discriminate|].
  apply class_info_of_complexity in Hm as (item & Hitem & ->).
  apply AstProps.complexity_positive, (Hok d item Hd Hitem).
Qed.

(** The class of the complexity scenario: one method, WMC 3. *)
Lemma wmc_sum_at_least_methods_witness :
  exists ci,
    dict_get "Scenario" (classes Examples.scenario) = Some ci /\
    _calculate_wmc ci = 3 /\
    Z.of_nat (size (methods ci)) <= _calculate_wmc ci.
Proof.
  eexists. split; [reflexivity|]. split; [vm_compute; reflexivity|].
  refine (proj2 (wmc_sum_at_least_methods None
                   [("scenario.py", [Examples.scenario_class])]
                   "Scenario" _ eq_refl _)).
  intros d item Hd Hitem.
  apply list_elem_of_singleton in Hd as ->.
  apply list_elem_of_singleton in Hitem as ->. reflexivity.
Defined.

(** ** Cohesion *)

Section MethodGraph.
Variable ci : ClassInfo.

Let ms := elements (methods ci).

Lemma ms_spec m : m ∈ ms <-> m ∈ methods ci.
Proof. apply elem_of_elements. Qed.

(** The graph with the methods as nodes and no edge. *)
Lemma nodes_only l g :
  let g' := fold_left (fun g method => uadd_node method g) l g in
  (forall x, x ∈ unodes g' <-> x ∈ unodes g \/ x ∈ l) /\
  (forall u v, adjacent g' u v <-> adjacent g u v) /\
  (uclosed g -> uclosed g').
Proof.
  revert g. induction l as [|m l IH]; intros g; simpl.
  - split; [|tauto]. intros x. split; [auto|]. intros [H|H]; [exact H | inversion H].
  - destruct (IH (uadd_node m g)) as (Hn & Ha & Hc). split; [|split].
    + intros x. rewrite Hn, uadd_node_nodes, elem_of_cons. tauto.
    + intros u v. rewrite Ha. apply uadd_node_adjacent.
    + intros H. apply Hc, uadd_node_closed, H.
Qed.

Definition shares (method1 method2 : string) : Prop :=
  method1 <> method2 /\ attrs_of ci method1 ∩ attrs_of ci method2 ≠ ∅.

Definition calls_method (method1 called : string) : Prop :=
  called ∈ methods ci.

(** What the round of [method1] adds: an edge to every method it shares an
    attribute with, and to every method it calls. *)
Definition round_edge (method1 u v : string) : Prop :=
  exists y,
    ((y ∈ methods ci /\ shares method1 y) \/
     (y ∈ calls_of ci method1 /\ y ∈ methods ci)) /\
    ((u = method1 /\ v = y) \/ (u = y /\ v = method1)).

Lemma round_adjacent method1 g u v :
  adjacent (call_edges ci method1 (share_attribute_edges ci method1 g)) u v
  <-> adjacent g u v \/ round_edge method1 u v.
Proof.
  unfold call_edges, share_attribute_edges.
  rewrite (edge_fold_adjacent method1 (calls_method method1)).
  2:{ intros g' y. unfold calls_method. destruct (decide _); auto. }
  rewrite (edge_fold_adjacent method1 (shares method1)).
  2:{ intros g' y. unfold shares, attrs_of.
      destruct (decide (method1 <> y)); [|tauto].
      destruct (decide _); tauto. }
  unfold round_edge. fold (calls_of ci method1). split.
  - intros [[H|(y & Hy & HP & H)]|(y & Hy & HP & H)]; [auto| |].
    + right. exists y. split; [left; split; [apply ms_spec, Hy | exact HP] | exact H].
    + right. exists y. split; [right; split; [apply elem_of_elements, Hy | exact HP] | exact H].
  - intros [H|(y & [[Hy HP]|[Hy HP]] & H)]; [auto| |].
    + left. right. exists y. split; [apply ms_spec, Hy | auto].
    + right. exists y. split; [apply elem_of_elements, Hy | auto].
Qed.

Lemma round_nodes method1 g x :
  method1 ∈ methods ci ->
  (forall y, y ∈ methods ci -> y ∈ unodes g) ->
  x ∈ unodes (call_edges ci method1 (share_attribute_edges ci method1 g))
  <-> x ∈ unodes g.
Proof.
  intros Hm Hg. unfold call_edges, share_attribute_edges.
  rewrite (edge_fold_nodes method1 (calls_method method1)).
  2:{ intros g' y. unfold calls_method. destruct (decide _); auto. }
  rewrite (edge_fold_nodes method1 (shares method1)).
  2:{ intros g' y. unfold shares, attrs_of.
      destruct (decide (method1 <> y)); [|tauto].
      destruct (decide _); tauto. }
  split; [|auto].
  intros [[H|(y & Hy & _ & [->| ->])]|(y & Hy & HP & [->| ->])]; auto.
  apply Hg, ms_spec, Hy.
Qed.

Lemma round_closed method1 g :
  uclosed g ->
  uclosed (call_edges ci method1 (share_attribute_edges ci method1 g)).
Proof.
  intros Hc. unfold call_edges, share_attribute_edges.
  apply (edge_fold_closed method1 (calls_method method1)).
  { intros g' y. unfold calls_method. destruct (decide _); auto. }
  apply (edge_fold_closed method1 (shares method1)); [|exact Hc].
  intros g' y. unfold shares, attrs_of.
  destruct (decide (method1 <> y)); [|tauto].
  destruct (decide _); tauto.
Qed.

Lemma rounds l g :
  (forall m, m ∈ l -> m ∈ methods ci) ->
  (forall y, y ∈ methods ci -> y ∈ unodes g) ->
  let g' := fold_left
              (fun g method1 =>
                 call_edges ci method1 (share_attribute_edges ci method1 g))
              l g in
  (forall x, x ∈ unodes g' <-> x ∈ unodes g) /\
  (forall u v, adjacent g' u v
               <-> adjacent g u v \/ exists m, m ∈ l /\ round_edge m u v) /\
  (uclosed g -> uclosed g').
Proof.
  revert g. induction l as [|m l IH]; intros g Hl Hg; simpl.
  - split; [tauto|]. split; [|auto]. intros u v. split; [auto|].
    intros [H|(m & H & _)]; [exact H | inversion H].
  - assert (Hm : m ∈ methods ci) by (apply Hl; left).
    destruct (IH (call_edges ci m (share_attribute_edges ci m g)))
      as (Hn & Ha & Hc).
    + intros m' Hm'. apply Hl. right. exact Hm'.
    + intros y Hy. apply round_nodes; auto.
    + split; [|split].
      * intros x. rewrite Hn. apply round_nodes; assumption.
      * intros u v. rewrite Ha, round_adjacent. split.
        -- intros [[H|H]|(m' & Hm' & H)]; [auto| |].
           ++ right. exists m. split; [left | exact H].
           ++ right. exists m'. split; [right; exact Hm' | exact H].
        -- intros [H|(m' & Hm' & H)]; [auto|].
           apply elem_of_cons in Hm' as [->|Hm']; [auto|].
           right. exists m'. auto.
      * intros H. apply Hc, round_closed, H.
Qed.

Lemma method_graph_spec :
  (forall x, x ∈ unodes (method_graph ci) <-> x ∈ methods ci) /\
  (forall u v, adjacent (method_graph ci) u v
               <-> exists m, m ∈ methods ci /\ round_edge m u v) /\
  uclosed (method_graph ci).
Proof.
  unfold method_graph.
  destruct (nodes_only (elements (methods ci)) uempty) as (Hn0 & Ha0 & Hc0).
  destruct (rounds (elements (methods ci))
              (fold_left (fun g method => uadd_node method g)
                 (elements (methods ci)) uempty)) as (Hn & Ha & Hc).
  - intros m. apply elem_of_elements.
  - intros y Hy. apply Hn0. right. apply elem_of_elements, Hy.
  - split; [|split].
    + intros x. rewrite Hn, Hn0, elem_of_elements. split; [|auto].
      intros [H|H]; [inversion H | exact H].
    + intros u v. rewrite Ha, Ha0. split.
      * intros [[H|H]|(m & Hm & H)]; [inversion H | inversion H |].
        exists m. split; [apply elem_of_elements, Hm | exact H].
      * intros (m & Hm & H). right. exists m.
        split; [apply elem_of_elements, Hm | exact H].
    + apply Hc, Hc0. intros u v H. inversion H.
Qed.

(** Two distinct methods are joined by an edge exactly when they cohere. *)
Lemma method_graph_adjacent u v :
  u <> v -> adjacent (method_graph ci) u v <-> cohesive ci u v.
Proof.
  intros Hne. destruct method_graph_spec as (_ & Ha & _).
  rewrite Ha. unfold cohesive, round_edge, shares. split.
  - intros (m & Hm & y & Hy & Huv).
    destruct Hy as [[Hy [_ Hs]]|[Hy Hy']], Huv as [[-> ->]|[-> ->]];
      repeat split; auto.
    left. rewrite (comm_L (∩)). exact Hs.
  - intros (Hu & Hv & _ & [Hs|[Hc|Hc]]).
    + exists u. split; [exact Hu|]. exists v. split; [left|]; auto.
    + exists u. split; [exact Hu|]. exists v. split; [right|]; auto.
    + exists v. split; [exact Hv|]. exists u. split; [right|]; auto.
Qed.

Lemma cohesive_sym u v : cohesive ci u v -> cohesive ci v u.
Proof.
  unfold cohesive. intros (Hu & Hv & Hne & H).
  repeat split; auto. rewrite (comm_L (∩)). tauto.
Qed.

(** The chains of edges are the chains of cohering methods. *)
Lemma method_graph_chains x y :
  rtc (adjacent (method_graph ci)) x y <-> rtc (cohesive ci) x y.
Proof.
  split.
  - induction 1 as [|x y z Hxy _ IH]; [reflexivity|].
    destruct (decide (x = y)) as [->|Hne]; [exact IH|].
    eapply rtc_l; [apply method_graph_adjacent; eassumption | exact IH].
  - induction 1 as [|x y z Hxy _ IH]; [reflexivity|].
    eapply rtc_l; [|exact IH].
    apply method_graph_adjacent; [|exact Hxy]. apply Hxy.
Qed.

(** [_calculate_lcom4] is the number of classes of cohering methods. *)
Lemma calculate_lcom4_count :
  exists n, _calculate_lcom4 ci = Z.of_nat n /\
            component_count (elements (methods ci)) (cohesive ci) n.
Proof.
  unfold _calculate_lcom4. destruct (decide (methods ci = ∅)) as [E|E].
  - exists 0%nat. split; [reflexivity|]. rewrite E, elements_empty.
    exists []. split; [reflexivity|]. split; [constructor|].
    split; [intros r Hr; inversion Hr|].
    split; [intros v Hv; inversion Hv | intros r1 r2 Hr; inversion Hr].
  - eexists. split; [reflexivity|].
    destruct method_graph_spec as (Hn & _ & Hc).
    apply (component_count_ext (unodes (method_graph ci)) _
             (adjacent (method_graph ci))).
    + intros x. rewrite Hn, elem_of_elements. tauto.
    + apply method_graph_chains.
    + apply number_connected_components_spec, Hc.
Qed.

End MethodGraph.

(** C8.  LCOM4 is 0 for a class without methods; the method graph has the
    methods of the class as nodes and joins two distinct methods exactly when
    their sets of [self] attributes intersect or one calls the other; LCOM4
    is the number of connected components of that graph, and this number is
    determined by the cohesion relation; the normalized value is
    [(LCOM4 - 1) / (methodCount - 1)] for more than one method and 0
    otherwise. *)
Theorem lcom4_connected_components ci :
  (methods ci = ∅ -> _calculate_lcom4 ci = 0) /\
  (forall m, m ∈ unodes (method_graph ci) <-> m ∈ methods ci) /\
  (forall m1 m2, m1 <> m2 ->
                 adjacent (method_graph ci) m1 m2 <-> cohesive ci m1 m2) /\
  (exists n, _calculate_lcom4 ci = Z.of_nat n /\
             component_count (elements (methods ci)) (cohesive ci) n /\
             forall n', component_count (elements (methods ci)) (cohesive ci) n'
                        -> n' = n) /\
  (forall lcom4,
      let method_count := Z.of_nat (size (methods ci)) in
      _calculate_normalized_lcom4 ci lcom4
      = if decide (1 < method_count)
        then Qdiv (inject_Z (lcom4 - 1)) (inject_Z (method_count - 1))
        else 0%Q).
Proof.
  split; [|split; [|split; [|split]]].
  - intros E. unfold _calculate_lcom4. rewrite decide_True by exact E. reflexivity.
  - apply method_graph_spec.
  - apply method_graph_adjacent.
  - destruct (calculate_lcom4_count ci) as (n & Hn & Hc).
    exists n. split; [exact Hn|]. split; [exact Hc|].
    intros n' Hc'. apply (component_count_unique _ _ _ _ (cohesive_sym ci) Hc' Hc).
  - intros lcom4 method_count. unfold _calculate_normalized_lcom4.
    fold method_count.
    destruct (decide (method_count <= 1)), (decide (1 < method_count));
      try reflexivity; lia.
Qed.

(** The class of three groups of two methods: LCOM4 is 3 and the normalized
    value is (3 - 1) / (6 - 1). *)
Example lcom4_three_groups :
  exists ci, dict_get "Groups" (classes Examples.three_groups) = Some ci /\
             _calculate_lcom4 ci = 3 /\
             _calculate_normalized_lcom4 ci 3 = (2 # 5)%Q.
Proof.
  eexists. split; [reflexivity|]. split; vm_compute; reflexivity.
Qed.

End CKProps.

(* ===================================================================== *)
(** * Further properties of the class model and of the metrics            *)
(* ===================================================================== *)

Module CKMore.
Import Ast CK NxProps CKProps.
Import Nx.

(** ** The class filter *)





(** ** The number of children *)

Lemma add_node_NoDup_edges n g : NoDup (edges g) -> NoDup (edges (add_node n g)).
Proof. rewrite add_node_edges. auto. Qed.

Lemma add_edge_NoDup_edges u v g :
  NoDup (edges g) -> NoDup (edges (add_edge u v g)).
Proof.
  intros Hnd. unfold add_edge. destruct (decide _) as [Hin|Hin]; simpl.
  - rewrite !add_node_edges. exact Hnd.
  - rewrite !add_node_edges in *. apply NoDup_app. split; [exact Hnd|].
    split; [|apply NoDup_singleton].
    intros e He Heq. apply list_elem_of_singleton in Heq as ->. contradiction.
Qed.

Lemma add_inheritance_NoDup_edges n bs g :
  NoDup (edges g) -> NoDup (edges (add_inheritance n bs g)).
Proof.
  unfold add_inheritance. intros Hnd.
  apply (add_node_NoDup_edges n) in Hnd. revert Hnd.
  generalize (add_node n g). clear g.
  induction bs as [|b bs IH]; intros g Hnd; simpl; [exact Hnd|].
  apply IH. destruct (decide _); [apply add_edge_NoDup_edges|]; exact Hnd.
Qed.

Lemma process_all_NoDup_edges ds st :
  NoDup (edges (inheritance_graph st)) ->
  NoDup (edges (inheritance_graph (process_all ds st))).
Proof.
  unfold process_all. revert st.
  induction ds as [|d ds IH]; intros st Hnd; simpl; [exact Hnd|].
  apply IH. unfold process_classdef. destruct (accepted _ _); simpl; [|auto].
  apply add_inheritance_NoDup_edges, Hnd.
Qed.

Lemma successors_NoDup g u : NoDup (edges g) -> NoDup (successors g u).
Proof.
  unfold successors. induction (edges g) as [|[a b] l IH]; intros Hnd.
  - constructor.
  - apply NoDup_cons in Hnd as [Hab Hnd]. rewrite filter_cons. simpl.
    destruct (decide (a = u)) as [->|Hne]; [|auto].
    rewrite fmap_cons. simpl. apply NoDup_cons. split; [|auto].
    intros Hin. apply Hab. apply list_elem_of_fmap in Hin as ([a' b'] & Hb & Hin).
    apply list_elem_of_filter in Hin as [Ha Hin]. simpl in *. subst. exact Hin.
Qed.

(** X2.  NOC of a name is the number of distinct classes with an accepted
    declaration that lists the name as a base; a class declared again with
    the same base counts once, and ['object'] has no children. *)
Theorem noc_counts_children flt files c :
  let st := parse_files files (CKMetrics_init flt) in
  (exists children,
      NoDup children /\
      (forall d, d ∈ children <-> declares flt (declarations files) (c, d)) /\
      _calculate_noc st c = Z.of_nat (length children)) /\
  _calculate_noc st "object" = 0.
Proof.
  simpl. rewrite parse_files_declarations.
  set (st := process_all (declarations files) (CKMetrics_init flt)).
  assert (Hclosed : closed (inheritance_graph st))
    by apply process_all_closed, init_closed.
  assert (Hnd : NoDup (edges (inheritance_graph st)))
    by (apply process_all_NoDup_edges; constructor).
  assert (Hedge : forall e, e ∈ edges (inheritance_graph st)
                            <-> declares flt (declarations files) e).
  { intros e. unfold st. rewrite process_all_edges. simpl. split; [|auto].
    intros [H|H]; [inversion H | exact H]. }
  assert (Hnoc : forall x,
             (forall d, d ∈ successors (inheritance_graph st) x
                        <-> declares flt (declarations files) (x, d)) /\
             _calculate_noc st x
             = Z.of_nat (length (successors (inheritance_graph st) x))).
  { intros x. split.
    - intros d. rewrite successors_spec. apply Hedge.
    - unfold _calculate_noc. destruct (decide _) as [Hin|Hin]; [reflexivity|].
      destruct (successors (inheritance_graph st) x) as [|d l] eqn:E;
        [reflexivity|].
      exfalso. apply Hin. apply (Hclosed x d), successors_spec.
      rewrite E. left. }
  split.
  - exists (successors (inheritance_graph st) c).
    split; [apply successors_NoDup, Hnd|]. apply Hnoc.
  - destruct (Hnoc "object") as [Hs ->].
    destruct (successors (inheritance_graph st) "object") as [|d l];
      [reflexivity|].
    exfalso. destruct (proj1 (Hs d)) as (d' & _ & _ & _ & _ & Hobj); [left|].
    apply Hobj. reflexivity.
Qed.


(** ** Bounds of the depth *)

Lemma walk_snoc g t t' u p :
  walk g t u p -> (t, t') ∈ edges g -> walk g t' u (p ++ [t'])%list.
Proof.
  induction 1 as [|u v p He _ IH]; intros Ht; simpl.
  - econstructor; [exact Ht | constructor].
  - econstructor; [exact He | apply IH, Ht].
Qed.

(** X3.  DIT is never negative, and it is less than the number of names in
    the inheritance graph (the discovered classes and their bases) as soon
    as the graph has a node. *)
Theorem dit_bounds flt files c :
  let st := parse_files files (CKMetrics_init flt) in
  0 <= _calculate_dit st c /\
  _calculate_dit st c
  < Z.max 1 (Z.of_nat (length (nodes (inheritance_graph st)))).
Proof.
  simpl. rewrite parse_files_declarations.
  set (st := process_all (declarations files) (CKMetrics_init flt)).
  assert (Hclosed : closed (inheritance_graph st))
    by apply process_all_closed, init_closed.
  destruct (decide (c ∈ nodes (inheritance_graph st))) as [Hn|Hn].
  - destruct (calculate_dit_longest st c Hclosed Hn)
      as [_ [(p & (r & _ & Hw & Hnd) & <-)|[-> _]]]; [|lia].
    split; [apply (walk_depth _ _ _ _ Hw)|].
    assert (length p <= length (nodes (inheritance_graph st)))%nat.
    { apply submseteq_length, NoDup_submseteq; [exact Hnd|].
      apply (walk_nodes _ _ _ _ Hclosed Hn Hw). }
    pose proof (walk_depth _ _ _ _ Hw). unfold path_depth in *. lia.
  - unfold _calculate_dit. rewrite decide_False by exact Hn. lia.
Qed.

(** X4.  A class is at least one level below each of its declared bases:
    a simple path from a root to a base that an accepted declaration of the
    class lists, and that does not pass through the class, extends to the
    class, so DIT of the class is more than the length of the path. *)
Theorem dit_below_base flt files base c p :
  let st := parse_files files (CKMetrics_init flt) in
  declares flt (declarations files) (base, c) ->
  root_path (inheritance_graph st) base p -> c ∉ p ->
  path_depth p + 1 <= _calculate_dit st c.
Proof.
  simpl. rewrite parse_files_declarations.
  set (st := process_all (declarations files) (CKMetrics_init flt)).
  intros Hd (r & Hr & Hw & Hnd) Hc.
  assert (Hclosed : closed (inheritance_graph st))
    by apply process_all_closed, init_closed.
  assert (He : (base, c) ∈ edges (inheritance_graph st))
    by (apply process_all_edges; right; exact Hd).
  destruct (calculate_dit_longest st c Hclosed (proj2 (Hclosed _ _ He)))
    as [Hmax _].
  specialize (Hmax (p ++ [c])%list).
  unfold path_depth in *. rewrite length_app in Hmax. simpl in Hmax.
  enough (Z.of_nat (length p + 1) - 1 <= _calculate_dit st c) by lia.
  apply Hmax. exists r. split; [exact Hr|]. split.
  - apply (walk_snoc _ base); assumption.
  - apply NoDup_app. split; [exact Hnd|]. split; [|apply NoDup_singleton].
    intros x Hx Hx'. apply list_elem_of_singleton in Hx' as ->. contradiction.
Qed.

(** The child of the parent and child project, below [Parent]. *)
Lemma dit_below_base_witness :
  path_depth ["Parent"] + 1
  <= _calculate_dit Examples.single_inheritance "Child".
Proof.
  apply (dit_below_base None Examples.single_inheritance_files
           "Parent" "Child" ["Parent"]).
  - eexists. split; [right; left|]. repeat split; [left | discriminate].
  - exists "Parent". split; [|split; [constructor | apply NoDup_singleton]].
    split; [left|]. intros u Hu. vm_compute in Hu.
    apply list_elem_of_singleton in Hu. discriminate.
  - intros Hin. apply list_elem_of_singleton in Hin. discriminate.
Defined.

(** ** What a class record holds *)

Lemma fold_left_or {A B : Type} (f : A -> B -> A) (P : A -> Prop)
    (Q : B -> Prop) :
  (forall a b, P (f a b) <-> P a \/ Q b) ->
  forall l a, P (fold_left f l a) <-> P a \/ exists b, b ∈ l /\ Q b.
Proof.
  intros Hf l. induction l as [|b l IH]; intros a; simpl.
  - split; [auto|]. intros [H|(b & H & _)]; [exact H | inversion H].
  - rewrite IH, Hf. split.
    + intros [[H|H]|(b' & Hb' & H)]; [auto| |].
      * right. exists b. split; [left | exact H].
      * right. exists b'. split; [right; exact Hb' | exact H].
    + intros [H|(b' & Hb' & H)]; [auto|].
      apply elem_of_cons in Hb' as [->|Hb']; [auto|]. right. eauto.
Qed.

Lemma fold_left_preserved {A B C : Type} (f : A -> B -> A) (g : A -> C) :
  (forall a b, g (f a b) = g a) -> forall l a, g (fold_left f l a) = g a.
Proof.
  intros Hf l. induction l as [|b l IH]; intros a; simpl; [reflexivity|].
  rewrite IH. apply Hf.
Qed.

Lemma record_target_attributes tgt ci x :
  x ∈ attributes (record_target tgt ci)
  <-> x ∈ attributes ci \/ target_name tgt = Some x.
Proof.
  unfold record_target, target_name.
  destruct tgt as [| | | | | | | | | | | | | | | | | | | | | | | | | | | | | | |v a|id|];
    try (split; [auto | intros [H|H]; [exact H | discriminate]]).
  - destruct v;
      try (split; [auto | intros [H|H]; [exact H | discriminate]]).
    destruct (decide (id = "self")).
    + simpl. rewrite elem_of_union, elem_of_singleton.
      split; [intros [->|H]; auto | intros [H|[= ->]]; auto].
    + split; [auto | intros [H|H]; [exact H | discriminate]].
  - simpl. rewrite elem_of_union, elem_of_singleton.
    split; [intros [->|H]; auto | intros [H|[= ->]]; auto].
Qed.

Lemma record_target_other tgt ci :
  name (record_target tgt ci) = name ci /\
  bases (record_target tgt ci) = bases ci /\
  methods (record_target tgt ci) = methods ci /\
  method_calls (record_target tgt ci) = method_calls ci /\
  method_attrs (record_target tgt ci) = method_attrs ci /\
  called_classes (record_target tgt ci) = called_classes ci /\
  method_complexity (record_target tgt ci) = method_complexity ci.
Proof.
  unfold record_target. repeat case_match; simpl; auto 10.
Qed.

Lemma record_targets_other targets ci :
  let ci' := fold_left (fun ci t => record_target t ci) targets ci in
  name ci' = name ci /\ bases ci' = bases ci /\ methods ci' = methods ci /\
  method_calls ci' = method_calls ci /\ method_attrs ci' = method_attrs ci /\
  called_classes ci' = called_classes ci /\
  method_complexity ci' = method_complexity ci.
Proof.
  revert ci. induction targets as [|t ts IH]; intros ci; simpl; [auto 10|].
  destruct (IH (record_target t ci)) as (-> & -> & -> & -> & -> & -> & ->).
  apply record_target_other.
Qed.

Lemma process_item_name item ci :
  name (process_item item ci) = name ci /\
  bases (process_item item ci) = bases ci.
Proof.
  destruct item; simpl; auto.
  - destruct (record_targets_other targets ci) as (-> & -> & _). auto.
  - destruct (record_target_other item1 ci) as (-> & -> & _). auto.
Qed.

Lemma process_item_methods item ci m :
  m ∈ methods (process_item item ci) <-> m ∈ methods ci \/ defines item m.
Proof.
  destruct item; simpl; try tauto.
  - rewrite elem_of_union, elem_of_singleton. split; intros [H|H]; auto.
  - rewrite elem_of_union, elem_of_singleton. split; intros [H|H]; auto.
  - destruct (record_targets_other targets ci) as (_ & _ & -> & _). tauto.
  - destruct (record_target_other item1 ci) as (_ & _ & -> & _). tauto.
Qed.

Lemma process_item_attributes item ci x :
  x ∈ attributes (process_item item ci) <-> x ∈ attributes ci \/ assigns item x.
Proof.
  destruct item; simpl; try tauto.
  - rewrite (fold_left_or (fun ci t => record_target t ci)
               (fun ci => x ∈ attributes ci) (fun t => target_name t = Some x)).
    + tauto.
    + intros a b. apply record_target_attributes.
  - apply record_target_attributes.
Qed.

Lemma process_item_called_classes item ci x :
  x ∈ called_classes (process_item item ci)
  <-> x ∈ called_classes ci \/
      (is_def item /\ x ∈ mv_classes (method_visitor item)).
Proof.
  destruct item; simpl; try tauto.
  - rewrite elem_of_union. tauto.
  - rewrite elem_of_union. tauto.
  - destruct (record_targets_other targets ci) as (_ & _ & _ & _ & _ & -> & _).
    tauto.
  - destruct (record_target_other item1 ci) as (_ & _ & _ & _ & _ & -> & _).
    tauto.
Qed.

(** X5.  The record of a declaration has its name and its resolved bases;
    its methods are the names of the function definitions of the class body;
    its attributes are the targets of the assignments of the class body, and
    nothing a method assigns; its called classes are the call receivers of
    all its methods. *)
Theorem class_record_contents cd :
  let ci := class_info_of cd in
  name ci = cd_name cd /\
  bases ci = resolve_bases (cd_bases cd) /\
  (forall m, m ∈ methods ci
             <-> exists item, item ∈ cd_body cd /\ defines item m) /\
  (forall x, x ∈ attributes ci
             <-> exists item, item ∈ cd_body cd /\ assigns item x) /\
  (forall x, x ∈ called_classes ci
             <-> exists item, item ∈ cd_body cd /\ is_def item /\
                              x ∈ mv_classes (method_visitor item)).
Proof.
  simpl. unfold class_info_of.
  set (f := fun ci item => process_item item ci).
  set (ci0 := ClassInfo_init (cd_name cd) (resolve_bases (cd_bases cd))).
  split; [|split; [|split; [|split]]].
  - apply (fold_left_preserved f name). intros a b. apply process_item_name.
  - apply (fold_left_preserved f bases). intros a b. apply process_item_name.
  - intros m.
    rewrite (fold_left_or f (fun ci => m ∈ methods ci) (fun i => defines i m))
      by (intros a b; apply process_item_methods).
    split; [intros [H|H]; [|exact H] | auto]. simpl in H. set_solver.
  - intros x.
    rewrite (fold_left_or f (fun ci => x ∈ attributes ci)
               (fun i => assigns i x))
      by (intros a b; apply process_item_attributes).
    split; [intros [H|H]; [|exact H] | auto]. simpl in H. set_solver.
  - intros x.
    rewrite (fold_left_or f (fun ci => x ∈ called_classes ci)
               (fun i => is_def i /\ x ∈ mv_classes (method_visitor i)))
      by (intros a b; apply process_item_called_classes).
    split; [intros [H|H]; [|exact H] | auto]. simpl in H. set_solver.
Qed.


Lemma process_item_entries item ci m :
  (defines item m ->
   method_calls (process_item item ci) !! m
   = Some (mv_method_calls (method_visitor item)) /\
   method_attrs (process_item item ci) !! m
   = Some (mv_attributes (method_visitor item)) /\
   method_complexity (process_item item ci) !! m = Some (complexity item)) /\
  (~ defines item m ->
   method_calls (process_item item ci) !! m = method_calls ci !! m /\
   method_attrs (process_item item ci) !! m = method_attrs ci !! m /\
   method_complexity (process_item item ci) !! m = method_complexity ci !! m).
Proof.
  destruct item; cbn [defines process_item]; (split; intros Hd);
    try (destruct Hd; fail); try (repeat split; reflexivity).
  - subst. unfold record_method. simpl. rewrite !lookup_insert_eq. auto.
  - unfold record_method. simpl. rewrite !lookup_insert_ne by exact Hd. auto.
  - subst. unfold record_method. simpl. rewrite !lookup_insert_eq. auto.
  - unfold record_method. simpl. rewrite !lookup_insert_ne by exact Hd. auto.
  - destruct (record_targets_other targets ci)
      as (_ & _ & _ & -> & -> & _ & ->). auto.
  - destruct (record_target_other item1 ci)
      as (_ & _ & _ & -> & -> & _ & ->). auto.
Qed.

Lemma defines_dec item m : {defines item m} + {~ defines item m}.
Proof. destruct item; simpl; try (right; tauto); apply decide; apply _. Qed.

Lemma process_items_entries_other l ci m :
  (forall item, item ∈ l -> ~ defines item m) ->
  let ci' := fold_left (fun ci item => process_item item ci) l ci in
  method_calls ci' !! m = method_calls ci !! m /\
  method_attrs ci' !! m = method_attrs ci !! m /\
  method_complexity ci' !! m = method_complexity ci !! m.
Proof.
  revert ci. induction l as [|item l IH]; intros ci Hl; simpl; [auto|].
  destruct (IH (process_item item ci)) as (-> & -> & ->).
  { intros i Hi. apply Hl. right. exact Hi. }
  apply process_item_entries, Hl. left.
Qed.

Lemma process_item_entries_match item ci :
  entries_match ci -> entries_match (process_item item ci).
Proof.
  intros Hci m. destruct (Hci m) as (H1 & H2 & H3).
  destruct (defines_dec item m) as [Hd|Hd].
  - destruct (proj1 (process_item_entries item ci m) Hd) as (-> & -> & ->).
    assert (m ∈ methods (process_item item ci))
      by (apply process_item_methods; auto).
    repeat split; eauto.
  - destruct (proj2 (process_item_entries item ci m) Hd) as (-> & -> & ->).
    rewrite process_item_methods. tauto.
Qed.

Lemma class_info_of_entries_match cd : entries_match (class_info_of cd).
Proof.
  unfold class_info_of.
  assert (H0 : entries_match
                 (ClassInfo_init (cd_name cd) (resolve_bases (cd_bases cd)))).
  { intros m. simpl. rewrite !lookup_empty.
    assert (Hn : forall A, ~ is_Some (@None A)) by (intros A [x Hx]; discriminate).
    pose proof (not_elem_of_empty (C:=gset string) m) as He.
    repeat split; intros Hx; try (destruct (He Hx)); destruct (Hn _ Hx). }
  revert H0. generalize (ClassInfo_init (cd_name cd) (resolve_bases (cd_bases cd))).
  induction (cd_body cd) as [|item l IH]; intros ci Hci; simpl; [exact Hci|].
  apply IH, process_item_entries_match, Hci.
Qed.

(** X6.  The calls, the attributes and the complexity recorded for a method
    name are those of the last definition of that name in the class body (a
    property getter followed by its setter, say, leaves the setter's); the
    three mappings have entries for the methods of the class and for nothing
    else. *)
Theorem method_entries_of_last_definition cd pre item post m :
  cd_body cd = (pre ++ item :: post)%list ->
  defines item m ->
  (forall later, later ∈ post -> ~ defines later m) ->
  let ci := class_info_of cd in
  method_calls ci !! m = Some (mv_method_calls (method_visitor item)) /\
  method_attrs ci !! m = Some (mv_attributes (method_visitor item)) /\
  method_complexity ci !! m = Some (complexity item) /\
  (forall m', m' ∈ methods ci <-> is_Some (method_calls ci !! m')) /\
  (forall m', m' ∈ methods ci <-> is_Some (method_attrs ci !! m')) /\
  (forall m', m' ∈ methods ci <-> is_Some (method_complexity ci !! m')).
Proof.
  intros Hbody Hdef Hpost. simpl.
  assert (Hlast :
    method_calls (class_info_of cd) !! m
    = Some (mv_method_calls (method_visitor item)) /\
    method_attrs (class_info_of cd) !! m
    = Some (mv_attributes (method_visitor item)) /\
    method_complexity (class_info_of cd) !! m = Some (complexity item)).
  { unfold class_info_of. rewrite Hbody, fold_left_app. simpl.
    destruct (process_items_entries_other post
                (process_item item
                   (fold_left (fun ci i => process_item i ci) pre
                      (ClassInfo_init (cd_name cd)
                         (resolve_bases (cd_bases cd)))))
                m Hpost) as (-> & -> & ->).
    apply process_item_entries, Hdef. }
  destruct Hlast as (H1 & H2 & H3).
  pose proof (class_info_of_entries_match cd) as Hm.
  split; [exact H1|]. split; [exact H2|]. split; [exact H3|].
  split; [|split]; intros m'; apply (Hm m').
Qed.

(** A class with a property: the getter of [x] and then its setter, which
    has an [if]. *)
Lemma method_entries_of_last_definition_witness :
  method_complexity (class_info_of Examples.property_class) !! "x" = Some 2.
Proof.
  refine (proj1 (proj2 (proj2
            (method_entries_of_last_definition Examples.property_class
               [Examples.property_getter] Examples.property_setter [] "x"
               eq_refl eq_refl _)))).
  intros later Hl. inversion Hl.
Defined.


(** ** The response set *)

Lemma is_builtin_function_false builtins x :
  _is_builtin_function builtins x = false
  <-> x ∈ special_builtins \/ x ∉ builtins.
Proof.
  unfold _is_builtin_function.
  destruct (decide (x ∈ special_builtins)); [tauto|].
  destruct (decide (x ∉ builtins)); [tauto|].
  split; [discriminate | tauto].
Qed.

Lemma response_set_spec builtins ci x :
  x ∈ response_set builtins ci
  <-> x ∈ methods ci \/
      exists m calls, method_calls ci !! m = Some calls /\ x ∈ calls /\
                      (x ∈ special_builtins \/ x ∉ builtins).
Proof.
  unfold response_set.
  rewrite (fold_left_or
             (fun (r : gset string) (kv : string * gset string) =>
                r ∪ filter (fun method =>
                              _is_builtin_function builtins method = false) kv.2)
             (fun r => x ∈ r)
             (fun kv => x ∈ kv.2 /\ (x ∈ special_builtins \/ x ∉ builtins))).
  - split; (intros [H|H]; [auto|right]).
    + destruct H as ([m calls] & Hkv & H). exists m, calls.
      split; [apply elem_of_map_to_list, Hkv | exact H].
    + destruct H as (m & calls & Hm & H). exists (m, calls).
      split; [apply elem_of_map_to_list, Hm | exact H].
  - intros r kv. rewrite elem_of_union, elem_of_filter, is_builtin_function_false.
    tauto.
Qed.

(** X7.  RFC is the size of the response set: the methods of the class and
    every name called from one of them, except the names of the builtin
    namespace; the seven introspection builtins are kept.  So RFC is at
    least the number of methods, and a name of the builtin namespace that no
    method of the class is named after is not counted. *)
Theorem rfc_response_set builtins ci :
  _calculate_rfc builtins ci = Z.of_nat (size (response_set builtins ci)) /\
  (forall x, x ∈ response_set builtins ci
             <-> x ∈ methods ci \/
                 exists m calls, method_calls ci !! m = Some calls /\
                                 x ∈ calls /\
                                 (x ∈ special_builtins \/ x ∉ builtins)) /\
  Z.of_nat (size (methods ci)) <= _calculate_rfc builtins ci /\
  (forall x, x ∈ builtins -> x ∉ special_builtins -> x ∉ methods ci ->
             x ∉ response_set builtins ci).
Proof.
  split; [reflexivity|]. split; [apply response_set_spec|]. split.
  - change (_calculate_rfc builtins ci)
      with (Z.of_nat (size (response_set builtins ci))).
    apply inj_le, subseteq_size. intros x Hx. apply response_set_spec. auto.
  - intros x Hb Hs Hm Hx. apply response_set_spec in Hx as [Hx|(m & calls & _ & _ & [H|H])];
      contradiction.
Qed.

(** ** The coupled classes *)

(** X8.  CBO is the size of a set of names: the declared bases and the call
    receivers of the methods, whatever they name, and the called names and
    class-level attributes that are names of other classes of the project;
    ['object'] and ['self'] are never in it. *)
Theorem cbo_coupled_set st class_name ci :
  _calculate_cbo st class_name ci
  = Z.of_nat (size (coupled_classes st class_name ci)) /\
  (forall x,
      x ∈ coupled_classes st class_name ci
      <-> (x ∈ bases ci \/ x ∈ called_classes ci \/
           (((exists m calls, method_calls ci !! m = Some calls /\ x ∈ calls) \/
             x ∈ attributes ci) /\
            x ∈ dict_keys (classes st) /\ x <> class_name)) /\
          x <> "object" /\ x <> "self") /\
  _calculate_cbo st class_name ci
  <= Z.of_nat (length (bases ci)) + Z.of_nat (size (called_classes ci))
     + Z.of_nat (length (dict_keys (classes st))).
Proof.
  split; [reflexivity|]. split; [apply coupled_classes_spec|].
  unfold _calculate_cbo.
  rewrite <- !Nat2Z.inj_add. apply inj_le.
  transitivity (size (list_to_set (C:=gset string)
                        (bases ci ++ elements (called_classes ci)
                         ++ dict_keys (classes st)))).
  - apply subseteq_size. intros x Hx.
    apply coupled_classes_spec in Hx as [Hx _].
    rewrite elem_of_list_to_set, !elem_of_app, elem_of_elements. tauto.
  - unfold size at 1, set_size. simpl.
    etransitivity.
    + apply submseteq_length, NoDup_submseteq; [apply NoDup_elements|].
      intros x Hx. apply elem_of_elements, elem_of_list_to_set in Hx. exact Hx.
    + rewrite !length_app. unfold size, set_size. simpl. lia.
Qed.


(** ** The result of [calculate_metrics] *)

Lemma dict_keys_set_list {V} k (v : V) d :
  dict_keys (dict_set k v d)
  = if decide (k ∈ dict_keys d) then dict_keys d else (dict_keys d ++ [k])%list.
Proof.
  unfold dict_keys. induction d as [|[k' v'] d IH].
  - reflexivity.
  - simpl dict_set. destruct (decide (k' = k)) as [->|Hne].
    + simpl. rewrite decide_True by left. reflexivity.
    + rewrite fmap_cons, IH, fmap_cons. simpl. clear IH.
      destruct (decide (k ∈ d.*1)) as [Hin|Hin].
      * rewrite decide_True by (right; exact Hin). reflexivity.
      * rewrite decide_False; [reflexivity|].
        intros H. apply elem_of_cons in H as [->|H]; contradiction.
Qed.

(** The class table and the file index have the same names, in the same
    order. *)
Lemma process_all_keys ds st :
  dict_keys (classes st) = dict_keys (file_paths st) ->
  dict_keys (classes (process_all ds st))
  = dict_keys (file_paths (process_all ds st)).
Proof.
  unfold process_all. revert st.
  induction ds as [|d ds IH]; intros st Hk; simpl; [exact Hk|].
  apply IH. unfold process_classdef. destruct (accepted _ _); simpl; [|auto].
  rewrite !dict_keys_set_list, Hk. reflexivity.
Qed.

Section Files.
Variable builtins : gset string.
Variable st : CKMetrics.

Let metrics_of (kv : string * ClassInfo) : ClassMetrics :=
  _calculate_class_metrics builtins st kv.1 kv.2.

Let path_of (n : string) : string :=
  default "unknown" (dict_get n (file_paths st)).

Let step (result : ProjectMetrics) (kv : string * ClassInfo) : ProjectMetrics :=
  let class_name := kv.1 in
  let class_metrics := _calculate_class_metrics builtins st class_name kv.2 in
  let file_path := default "unknown" (dict_get class_name (file_paths st)) in
  let file_classes := default [] (dict_get file_path (files result)) in
  mkProjectMetrics
    (dict_set file_path (dict_set class_name class_metrics file_classes)
       (files result))
    (dict_set class_name class_metrics (class_summary result)).

Lemma step_file_entry acc kv fp n :
  file_entry (step acc kv) fp n
  = if decide (fp = path_of kv.1 /\ n = kv.1) then Some (metrics_of kv)
    else file_entry acc fp n.
Proof.
  unfold file_entry, step, path_of, metrics_of. simpl.
  set (p := default "unknown" (dict_get kv.1 (file_paths st))).
  destruct (decide (fp = p)) as [->|Hp].
  - rewrite dict_get_set_eq. simpl.
    destruct (decide (n = kv.1)) as [->|Hn].
    + rewrite decide_True by auto. apply dict_get_set_eq.
    + rewrite decide_False by tauto.
      rewrite dict_get_set_ne by congruence.
      destruct (dict_get p (files acc)); reflexivity.
  - rewrite decide_False by tauto.
    rewrite dict_get_set_ne by congruence. reflexivity.
Qed.

Lemma fold_file_entry_other l acc fp n :
  n ∉ dict_keys l ->
  file_entry (fold_left step l acc) fp n = file_entry acc fp n.
Proof.
  unfold dict_keys. revert acc.
  induction l as [|kv l IH]; intros acc Hn; simpl; [reflexivity|].
  rewrite IH by (intros H; apply Hn; right; exact H).
  rewrite step_file_entry. apply decide_False.
  intros [_ ->]. apply Hn. left.
Qed.

Lemma fold_file_entry l acc fp n ci :
  NoDup (dict_keys l) -> dict_get n l = Some ci ->
  file_entry (fold_left step l acc) fp n
  = if decide (fp = path_of n) then Some (metrics_of (n, ci))
    else file_entry acc fp n.
Proof.
  unfold dict_keys. revert acc.
  induction l as [|[k v] l IH]; intros acc Hnd Hg; simpl in *; [discriminate|].
  apply NoDup_cons in Hnd as [Hk Hnd].
  destruct (decide (k = n)) as [->|Hne].
  - injection Hg as ->. rewrite fold_file_entry_other by exact Hk.
    rewrite step_file_entry. simpl.
    destruct (decide (fp = path_of n)); [apply decide_True | apply decide_False];
      tauto.
  - rewrite IH by assumption. destruct (decide (fp = path_of n)); [reflexivity|].
    rewrite step_file_entry. apply decide_False. simpl. intros [_ ->]. congruence.
Qed.

Lemma fold_summary_keys l acc :
  NoDup (dict_keys (class_summary acc) ++ dict_keys l) ->
  dict_keys (class_summary (fold_left step l acc))
  = (dict_keys (class_summary acc) ++ dict_keys l)%list.
Proof.
  revert acc. induction l as [|[k v] l IH]; intros acc Hnd.
  - simpl. rewrite app_nil_r. reflexivity.
  - assert (Hk : k ∉ dict_keys (class_summary acc)).
    { intros Hin. apply NoDup_app in Hnd as (_ & Hd & _).
      apply (Hd k Hin). left. }
    assert (Hkeys : dict_keys (class_summary (step acc (k, v)))
                    = (dict_keys (class_summary acc) ++ [k])%list).
    { simpl. rewrite dict_keys_set_list. apply decide_False, Hk. }
    change (fold_left step ((k, v) :: l) acc)
      with (fold_left step l (step acc (k, v))).
    change (dict_keys ((k, v) :: l)) with (k :: dict_keys l) in *.
    rewrite IH; rewrite Hkeys, <- app_assoc; [reflexivity | exact Hnd].
Qed.
End Files.

(** X9.  In the result of [calculate_metrics] for an analyzed project the
    class summary lists the classes of the table in their order; every class
    has a file path, and its record is found under that path in the
    per-file part, equal to its record in the summary, and under no other
    path. *)
Theorem files_agree_with_summary flt files builtins class_name ci :
  let st := parse_files files (CKMetrics_init flt) in
  let r := calculate_metrics builtins st in
  dict_get class_name (classes st) = Some ci ->
  dict_keys (class_summary r) = dict_keys (classes st) /\
  exists file_path,
    dict_get class_name (file_paths st) = Some file_path /\
    dict_get class_name (class_summary r)
    = Some (_calculate_class_metrics builtins st class_name ci) /\
    file_entry r file_path class_name
    = Some (_calculate_class_metrics builtins st class_name ci) /\
    forall other, other <> file_path -> file_entry r other class_name = None.
Proof.
  simpl. rewrite parse_files_declarations.
  set (st := process_all (declarations files) (CKMetrics_init flt)).
  intros Hg.
  assert (Hnd : NoDup (dict_keys (classes st)))
    by (apply process_all_NoDup; constructor).
  assert (Hkeys : dict_keys (classes st) = dict_keys (file_paths st))
    by (apply process_all_keys; reflexivity).
  split.
  - unfold calculate_metrics. rewrite fold_summary_keys; [reflexivity|].
    exact Hnd.
  - destruct (dict_keys_get class_name (file_paths st)) as [fp Hfp].
    { rewrite <- Hkeys. apply (dict_get_Some_keys _ _ _ Hg). }
    exists fp. split; [exact Hfp|]. split; [|split].
    + apply calculate_metrics_summary; assumption.
    + unfold calculate_metrics.
      rewrite (fold_file_entry builtins st _ _ _ _ ci Hnd Hg).
      rewrite Hfp. simpl. rewrite decide_True by reflexivity. reflexivity.
    + intros other Hne. unfold calculate_metrics.
      rewrite (fold_file_entry builtins st _ _ _ _ ci Hnd Hg).
      rewrite Hfp. simpl. rewrite decide_False by exact Hne. reflexivity.
Qed.

(** The class [A] of the project that declares it in two files: its record
    is under b.py, the file of the last declaration. *)
Lemma files_agree_with_summary_witness :
  exists file_path,
    dict_get "A" (file_paths Examples.redeclared) = Some file_path /\
    file_path = "b.py".
Proof.
  destruct (files_agree_with_summary None Examples.redeclared_files ∅ "A"
              (class_info_of (mkClassDef "A" [] [Other "Pass" []])) eq_refl)
    as (_ & fp & Hfp & _).
  exists fp. split; [exact Hfp|].
  vm_compute in Hfp. injection Hfp as <-. reflexivity.
Defined.


(** ** Bounds of the cohesion metric *)

Lemma lcom4_count_bounds ci n :
  component_count (elements (methods ci)) (cohesive ci) n ->
  (n <= size (methods ci))%nat /\ (methods ci <> ∅ -> (1 <= n)%nat).
Proof.
  intros (reps & <- & Hnd & Hin & Hcov & _). split.
  - unfold size, set_size. simpl.
    apply submseteq_length, NoDup_submseteq; assumption.
  - intros Hne. apply set_choose_L in Hne as [m Hm].
    destruct (Hcov m) as (r & Hr & _); [apply elem_of_elements, Hm|].
    destruct reps; [inversion Hr | simpl; lia].
Qed.

(** X10.  LCOM4 lies between 1 and the number of methods for a class with
    methods (and is 0 without); the normalized value of the class lies
    between 0 and 1. *)
Theorem lcom4_bounds ci :
  0 <= _calculate_lcom4 ci <= Z.of_nat (size (methods ci)) /\
  (methods ci <> ∅ -> 1 <= _calculate_lcom4 ci) /\
  (0 <= _calculate_normalized_lcom4 ci (_calculate_lcom4 ci) <= 1)%Q.
Proof.
  destruct (calculate_lcom4_count ci) as (n & Hn & Hc).
  destruct (lcom4_count_bounds ci n Hc) as [Hle Hge]. rewrite Hn.
  split; [lia|]. split; [intros Hne; specialize (Hge Hne); lia|].
  unfold _calculate_normalized_lcom4.
  destruct (decide (Z.of_nat (size (methods ci)) <= 1)) as [Hs|Hs].
  - split; [apply Qle_refl | discriminate].
  - assert (Hne : methods ci <> ∅).
    { intros E. rewrite E, size_empty in Hs. simpl in Hs. lia. }
    specialize (Hge Hne).
    assert (Hpos : (0 < inject_Z (Z.of_nat (size (methods ci)) - 1))%Q).
    { change 0%Q with (inject_Z 0). rewrite <- Zlt_Qlt. lia. }
    split.
    + apply Qle_shift_div_l; [exact Hpos|].
      rewrite Qmult_0_l. change 0%Q with (inject_Z 0).
      rewrite <- Zle_Qle. lia.
    + apply Qle_shift_div_r; [exact Hpos|].
      rewrite Qmult_1_l, <- Zle_Qle. lia.
Qed.

Lemma cohesive_chain_stays ci x y :
  (forall m1 m2, ~ cohesive ci m1 m2) -> rtc (cohesive ci) x y -> x = y.
Proof.
  intros Hno Hc. destruct Hc as [|x y z Hxy _]; [reflexivity|].
  destruct (Hno _ _ Hxy).
Qed.

(** X11.  The two ends of the scale: LCOM4 is the number of methods when no
    two methods share an attribute or call each other, and it is 1 exactly
    when the class has a method and every two methods are linked by a chain
    of such pairs. *)
Theorem lcom4_extremes ci :
  ((forall m1 m2, ~ cohesive ci m1 m2) ->
   _calculate_lcom4 ci = Z.of_nat (size (methods ci))) /\
  (_calculate_lcom4 ci = 1
   <-> methods ci <> ∅ /\
       forall m1 m2, m1 ∈ methods ci -> m2 ∈ methods ci ->
                     rtc (cohesive ci) m1 m2).
Proof.
  destruct (calculate_lcom4_count ci) as (n & Hn & Hc). rewrite Hn.
  assert (Hsym : forall x y, cohesive ci x y -> cohesive ci y x)
    by apply cohesive_sym.
  split.
  - intros Hno. f_equal.
    apply (component_count_unique _ _ _ _ Hsym Hc).
    exists (elements (methods ci)). split; [reflexivity|].
    split; [apply NoDup_elements|]. split; [auto|]. split.
    + intros v Hv. exists v. split; [exact Hv | reflexivity].
    + intros r1 r2 _ _. apply cohesive_chain_stays, Hno.
  - split.
    + intros H1. assert (n = 1%nat) as -> by lia.
      destruct Hc as (reps & Hlen & _ & Hin & Hcov & _).
      destruct reps as [|r [|? ?]]; try discriminate.
      split.
      * intros E. specialize (Hin r ltac:(left)).
        rewrite E, elements_empty in Hin. inversion Hin.
      * intros m1 m2 H1' H2'.
        destruct (Hcov m1) as (r1 & Hr1 & Hc1); [apply elem_of_elements, H1'|].
        destruct (Hcov m2) as (r2 & Hr2 & Hc2); [apply elem_of_elements, H2'|].
        apply list_elem_of_singleton in Hr1 as ->.
        apply list_elem_of_singleton in Hr2 as ->.
        etransitivity; [apply (chain_sym _ Hsym), Hc1 | exact Hc2].
    + intros [Hne Hall]. change 1 with (Z.of_nat 1). f_equal.
      apply set_choose_L in Hne as [m Hm].
      apply (component_count_unique _ _ _ _ Hsym Hc).
      exists [m]. split; [reflexivity|]. split; [apply NoDup_singleton|].
      split; [|split].
      * intros r Hr. apply list_elem_of_singleton in Hr as ->.
        apply elem_of_elements, Hm.
      * intros v Hv. exists m. split; [left|].
        apply Hall; [exact Hm | apply elem_of_elements, Hv].
      * intros r1 r2 Hr1 Hr2 _.
        apply list_elem_of_singleton in Hr1 as ->.
        apply list_elem_of_singleton in Hr2 as ->. reflexivity.
Qed.

(** ** The names of the bases *)




(** ** The per-method part of the metrics of a class *)

Lemma counted_NoDup ci :
  NoDup ((fun method => (method, default 1 (method_complexity ci !! method)))
           <$> elements (methods ci)).*1.
Proof.
  assert (E : forall l : list string,
             ((fun method =>
                 (method, default 1 (method_complexity ci !! method)))
                <$> l).*1 = l).
  { induction l as [|x l IH]; [reflexivity|].
    rewrite !fmap_cons, IH. reflexivity. }
  rewrite E. apply NoDup_elements.
Qed.

(** X15.  The [methods] part of the metrics of a class lists every method
    of the class with the complexity recorded for it (1 when none is), and
    nothing else; WMC is the total of the listed complexities. *)
Theorem class_metrics_methods builtins st class_name ci :
  let cm := _calculate_class_metrics builtins st class_name ci in
  (forall m c,
      methods_complexity cm !! m = Some c
      <-> m ∈ methods ci /\ c = default 1 (method_complexity ci !! m)) /\
  wmc cm = sum (map snd (map_to_list (methods_complexity cm))).
Proof.
  cbn zeta. unfold _calculate_class_metrics. cbn [methods_complexity wmc].
  split.
  - intros m c. rewrite lookup_set_to_map.
    + split.
      * intros (y & Hy & E). injection E as -> ->. auto.
      * intros [Hm ->]. exists m. auto.
    + intros y y' _ _ E. exact E.
  - unfold _calculate_wmc, set_to_map.
    apply sum_Permutation.
    rewrite map_to_list_to_map by apply counted_NoDup.
    change (map snd) with (fmap (M:=list) (@snd string Z)).
    rewrite <- list_fmap_compose. reflexivity.
Qed.

End CKMore.

(* ===================================================================== *)
(** * Properties of the aggregation                                       *)
(* ===================================================================== *)

Module CombineProps.
Import Combine.

Section Generic.
Context {num : Type} `{PyNum num}.

Local Abbreviation summary := (list (string * CombinedClassMetrics num)).

Lemma of_dict_get {A : Type} (r : CombinedClassMetrics A) :
  of_dict (fun m => get m r) = r.
Proof. destruct r; reflexivity. Qed.

Lemma get_of_dict {A : Type} (d : metric -> A) m : get m (of_dict d) = d m.
Proof. destruct m; reflexivity. Qed.

Lemma of_dict_ext {A : Type} (d1 d2 : metric -> A) :
  (forall m, d1 m = d2 m) -> of_dict d1 = of_dict d2.
Proof. intros E. unfold of_dict. rewrite !E. reflexivity. Qed.

(** The seven lists hold the values of the classes, in their order. *)
Lemma collect_from (l : summary) vals m :
  get m (fold_left
           (fun vals kv => of_dict (fun m => (get m vals ++ [get m kv.2])%list))
           l vals)
  = (get m vals ++ map (fun kv => get m kv.2) l)%list.
Proof.
  revert vals. induction l as [|kv l IH]; intros vals; simpl.
  - rewrite app_nil_r. reflexivity.
  - rewrite IH, get_of_dict, <- app_assoc. reflexivity.
Qed.

Lemma collect_get (l : summary) m :
  get m (collect l) = map (fun kv => get m kv.2) l.
Proof. unfold collect. rewrite collect_from, get_of_dict. reflexivity. Qed.

(** The loop skips the metrics with a zero sum, adds up the shares of the
    others and counts them; it divides by a sum that is not zero only. *)
Lemma weight_loop_from sums cd (l : list metric) ws n :
  fold_left
    (fun acc other_metric =>
       st ← acc;
       if eq_zero (sums other_metric) then Ok st
       else
         ratio ← truediv (get other_metric cd) (sums other_metric);
         Ok (add st.1 ratio, S st.2))
    l (Ok (ws, n))
  = Ok (fold_left add
          (map (share sums cd) (filter (fun m => eq_zero (sums m) = false) l))
          ws,
        (n + length (filter (fun m => eq_zero (sums m) = false) l))%nat).
Proof.
  revert ws n. induction l as [|m l IH]; intros ws n; simpl.
  - rewrite Nat.add_0_r. reflexivity.
  - unfold truediv. rewrite filter_cons.
    destruct (decide (eq_zero (sums m) = false)) as [E|E].
    + rewrite E. simpl. rewrite IH. simpl. f_equal. f_equal. lia.
    + apply not_false_is_true in E. rewrite E. simpl. apply IH.
Qed.

Lemma weight_loop_spec sums cd l :
  weight_loop sums cd l
  = Ok (sum (map (share sums cd)
               (filter (fun m => eq_zero (sums m) = false) l)),
        length (filter (fun m => eq_zero (sums m) = false) l)).
Proof. unfold weight_loop. rewrite weight_loop_from. reflexivity. Qed.

Lemma weighted_value_spec sums cd target :
  weighted_value sums cd target
  = Ok (mul (get target cd) (spec_weight sums cd target)).
Proof.
  unfold weighted_value, spec_weight, valid_others.
  rewrite weight_loop_spec. simpl.
  destruct (filter _ (filter _ ck_metrics)) as [|m valid]; reflexivity.
Qed.

Lemma weighted_class_spec sums cd :
  weighted_class sums cd
  = Ok (of_dict (fun target => mul (get target cd) (spec_weight sums cd target))).
Proof.
  unfold weighted_class. rewrite !weighted_value_spec. reflexivity.
Qed.

Lemma mapM_Ok {A B : Type} (f : A -> result B) (g : A -> B) (l : list A) :
  (forall x, f x = Ok (g x)) -> mapM f l = Ok (map g l).
Proof.
  intros E. induction l as [|x l IH]; simpl; [reflexivity|].
  rewrite E, IH. reflexivity.
Qed.

(** C5.  [combine_metrics] returns, for every class and every target metric
    M, the original value of M times the weight of the specification: the
    mean, over the other metrics whose project-wide sum is not 0, of the
    class's value divided by that sum, and 1 when no such metric is left.
    The sum of a metric is the sum of its values over all the classes of
    the summary, from 0 in their order.  The metrics are the seven keys of
    [ck_metrics], [lcom4_normalized] among them, so that the other metrics
    of a target are the six remaining ones. *)
Theorem combine_metrics_weighting (class_metrics : summary) :
  combine_metrics class_metrics
  = Ok (map (fun kv =>
               (kv.1,
                of_dict (fun target =>
                           mul (get target kv.2)
                               (spec_weight
                                  (fun m =>
                                     fold_left add
                                       (map (fun c => get m c.2) class_metrics)
                                       zero)
                                  kv.2 target))))
            class_metrics) /\
  (forall target m,
      m ∈ filter (fun m => m ≠ target) ck_metrics <-> m ≠ target) /\
  (forall target,
      length (filter (fun m => m ≠ target) ck_metrics) = 6%nat).
Proof.
  split; [|split].
  - unfold combine_metrics. apply mapM_Ok. intros kv.
    rewrite weighted_class_spec. reflexivity.
  - intros target m. rewrite list_elem_of_filter. split; [tauto|].
    intros Hm. split; [exact Hm|]. destruct m; unfold ck_metrics; set_solver.
  - intros target. destruct target; reflexivity.
Qed.

Lemma spec_weight_all_zero sums cd target :
  (forall m, eq_zero (sums m) = true) -> spec_weight sums cd target = one.
Proof.
  intros Hz. unfold spec_weight, valid_others.
  replace (filter (fun m => eq_zero (sums m) = false) _) with (@nil metric);
    [reflexivity|].
  symmetry. induction (filter _ ck_metrics) as [|m l IH]; [reflexivity|].
  rewrite filter_cons, decide_False; [exact IH|].
  rewrite Hz. discriminate.
Qed.

(** C4.  When the project-wide sum of every metric is 0, [combine_metrics]
    raises nothing and returns the classes with their original values: the
    weight of every target metric is 1. *)
Theorem combine_metrics_zero_sums (class_metrics : summary)
    (mul_one : forall x : num, mul x one = x)
    (sums_zero : forall m, eq_zero (metric_sums class_metrics m) = true) :
  combine_metrics class_metrics = Ok class_metrics /\
  forall name class_data target,
    (name, class_data) ∈ class_metrics ->
    spec_weight (metric_sums class_metrics) class_data target = one.
Proof.
  split.
  - unfold combine_metrics.
    rewrite (mapM_Ok _ id); [rewrite map_id; reflexivity|].
    intros [k r]. simpl. rewrite weighted_class_spec. simpl. do 2 f_equal.
    transitivity (of_dict (fun m => get m r)); [|apply of_dict_get].
    apply of_dict_ext. intros m.
    rewrite spec_weight_all_zero by exact sums_zero. apply mul_one.
  - intros. apply spec_weight_all_zero, sums_zero.
Qed.


(** C2, as the code has it.  On a project without classes the weighting
    returns the empty mapping and the combined weighted summary is all
    zeros; [calculate_mean_metrics], [calculate_median_metrics] and with them
    [get_aggregated_metrics] raise [StatisticsError]. *)
Theorem aggregate_empty :
  combine_metrics (@nil (string * CombinedClassMetrics num)) = Ok [] /\
  calculate_weighted_metrics_combined (@nil (string * CombinedClassMetrics num))
  = of_dict (fun _ => zero) /\
  calculate_mean_metrics (@nil (string * CombinedClassMetrics num))
  = Raise StatisticsError /\
  calculate_median_metrics (@nil (string * CombinedClassMetrics num))
  = Raise StatisticsError /\
  get_aggregated_metrics (@nil (string * CombinedClassMetrics num))
  = Raise StatisticsError.
Proof. repeat split; reflexivity. Qed.

(** The weighting raises nothing: it divides by sums that are not zero and
    by counts above zero only. *)
Lemma combine_metrics_returns (class_metrics : summary) :
  exists w, combine_metrics class_metrics = Ok w.
Proof.
  eexists. unfold combine_metrics. apply mapM_Ok. intros kv.
  rewrite weighted_class_spec. reflexivity.
Qed.

(** The summaries raise on the project without classes only. *)
Lemma sorted_length (l : list num) : length (sorted l) = length l.
Proof.
  unfold sorted. induction l as [|x l IH]; simpl; [reflexivity|].
  rewrite <- IH. generalize (foldr insert_sorted [] l). clear.
  intros s. induction s as [|y s IHs]; simpl; [reflexivity|].
  destruct (leb x y); simpl; [reflexivity | rewrite IHs; reflexivity].
Qed.

Lemma mean_returns (data : list num) :
  data <> [] -> exists x, mean data = Ok x.
Proof. destruct data; [congruence | eauto]. Qed.

Lemma median_returns (data : list num) :
  data <> [] -> exists x, median data = Ok x.
Proof.
  intros Hne. unfold median. rewrite sorted_length.
  destruct data as [|x data]; [congruence|]. simpl length.
  destruct (Nat.odd (S (length data))); eauto.
Qed.

Lemma summarize_returns (f : list num -> result num)
    (class_metrics : summary) :
  class_metrics <> [] ->
  (forall data, data <> [] -> exists x, f data = Ok x) ->
  exists r, summarize f (collect class_metrics) = Ok r.
Proof.
  intros Hne Hf. unfold summarize.
  assert (Hm : forall m, exists x, f (get m (collect class_metrics)) = Ok x).
  { intros m. apply Hf. rewrite collect_get.
    destruct class_metrics; [congruence | discriminate]. }
  destruct (Hm Wmc) as [a Ha], (Hm Dit) as [b Hb], (Hm Noc) as [c Hc],
    (Hm Cbo) as [d Hd], (Hm Rfc) as [e He], (Hm Lcom4) as [g Hg],
    (Hm Lcom4_normalized) as [h Hh].
  simpl in Ha, Hb, Hc, Hd, He, Hg, Hh.
  rewrite Ha, Hb, Hc, Hd, He, Hg, Hh. simpl. eauto.
Qed.

Lemma aggregate_raises_iff_empty (class_summary : summary) :
  (exists e, get_aggregated_metrics class_summary = Raise e)
  <-> class_summary = [].
Proof.
  split.
  - intros [e He]. destruct class_summary as [|kv l]; [reflexivity|].
    exfalso. revert He. unfold get_aggregated_metrics.
    destruct (combine_metrics_returns (kv :: l)) as [w ->].
    destruct (summarize_returns mean (kv :: l)) as [? Hmean];
      [discriminate | apply mean_returns |].
    destruct (summarize_returns median (kv :: l)) as [? Hmedian];
      [discriminate | apply median_returns |].
    unfold calculate_mean_metrics, calculate_median_metrics.
    rewrite Hmean, Hmedian. discriminate.
  - intros ->. exists StatisticsError. reflexivity.
Qed.

End Generic.

(** Multiplying a rational by 1 leaves its numerator and denominator. *)
Lemma Qmult_one (x : Q) : mul x one = x.
Proof.
  destruct x as [a b]. unfold mul, one; simpl. unfold Qmult; simpl.
  rewrite Z.mul_1_r, Pos.mul_1_r. reflexivity.
Qed.

(** The project of one empty class: every metric, and every sum, is 0. *)
Lemma combine_metrics_zero_sums_witness :
  (forall m, eq_zero (metric_sums (Examples.summary Examples.empty_class) m)
             = true) /\
  combine_metrics (Examples.summary Examples.empty_class)
  = Ok (Examples.summary Examples.empty_class).
Proof.
  assert (Hz : forall m,
             eq_zero (metric_sums (Examples.summary Examples.empty_class) m)
             = true)
    by (intros []; vm_compute; reflexivity).
  split; [exact Hz|].
  apply (combine_metrics_zero_sums _ Qmult_one Hz).
Defined.

(** The project without a class: the aggregation raises. *)
Lemma aggregate_no_class_raises :
  Examples.summary Examples.no_class = [] /\
  get_aggregated_metrics (Examples.summary Examples.no_class)
  = Raise StatisticsError /\
  forall r, get_aggregated_metrics (Examples.summary Examples.no_class)
            <> Ok r.
Proof.
  split; [reflexivity|]. split; [reflexivity|]. intros r. discriminate.
Qed.

(** Two classes whose weighted WMC is 1 each: the combined value is 2. *)
Example weighted_combined_two_classes :
  wmc (calculate_weighted_metrics_combined
         [("A", of_dict (fun _ => 1%Q)); ("B", of_dict (fun _ => 1%Q))])
  = 2%Q.
Proof. reflexivity. Qed.

(** The aggregation of the parent and child classes returns, and its
    combined weighted WMC is the sum of the two weighted values. *)
Example aggregate_single_inheritance :
  exists r,
    get_aggregated_metrics (Examples.summary Examples.single_inheritance)
    = Ok r /\
    map (fun kv => Qred (wmc kv.2)) (weighted_metrics r)
    = [(2 # 5)%Q; (3 # 5)%Q] /\
    Qred (wmc (weighted_metrics_combined r)) = 1%Q.
Proof.
  eexists. split; [vm_compute; reflexivity|].
  split; vm_compute; reflexivity.
Qed.

End CombineProps.

(* ===================================================================== *)
(** * Further properties of the aggregation                               *)
(* ===================================================================== *)

Module CombineMore.
Import Combine CombineProps.

Section Generic.
Context {num : Type} `{PyNum num}.

Local Abbreviation summary := (list (string * CombinedClassMetrics num)).

Lemma summarize_get (f : list num -> result num) vals r m :
  summarize f vals = Ok r -> f (get m vals) = Ok (get m r).
Proof.
  unfold summarize. 
  destruct (f (wmc vals)) eqn:E1; simpl; [|discriminate].
  destruct (f (dit vals)) eqn:E2; simpl; [|discriminate].
  destruct (f (noc vals)) eqn:E3; simpl; [|discriminate].
  destruct (f (cbo vals)) eqn:E4; simpl; [|discriminate].
  destruct (f (rfc vals)) eqn:E5; simpl; [|discriminate].
  destruct (f (lcom4 vals)) eqn:E6; simpl; [|discriminate].
  destruct (f (lcom4_normalized vals)) eqn:E7; simpl; [|discriminate].
  intros [= <-]. destruct m; simpl; assumption.
Qed.

Lemma original_metrics_id (l : summary) :
  map (fun kv => (kv.1, of_dict (fun m => get m kv.2))) l = l.
Proof.
  induction l as [|[k v] l IH]; simpl; [reflexivity|].
  rewrite of_dict_get, IH. reflexivity.
Qed.

Lemma combine_metrics_names (l w : summary) :
  combine_metrics l = Ok w -> map fst w = map fst l.
Proof.
  unfold combine_metrics.
  rewrite (mapM_Ok _
             (fun kv => (kv.1,
                         of_dict (fun target =>
                                    mul (get target kv.2)
                                        (spec_weight (metric_sums l) kv.2 target)))))
    by (intros kv; rewrite weighted_class_spec; reflexivity).
  intros [= <-]. rewrite map_map. reflexivity.
Qed.

(** X16.  For a project with at least one class the aggregation returns:
    the original metrics are the class summary, the weighted metrics list
    the same classes in the same order, every mean is the sum of the
    metric over the classes divided by their number, and every median is
    [statistics.median] of the values of the metric. *)
Theorem aggregated_contents (class_summary : summary) :
  class_summary <> [] ->
  exists r,
    get_aggregated_metrics class_summary = Ok r /\
    original_metrics r = class_summary /\
    map fst (weighted_metrics r) = map fst class_summary /\
    (forall m,
        get m (mean_metrics r)
        = div (sum (map (fun kv => get m kv.2) class_summary))
              (of_nat (length class_summary))) /\
    (forall m,
        median (map (fun kv => get m kv.2) class_summary)
        = Ok (get m (median_metrics r))).
Proof.
  intros Hne.
  destruct (combine_metrics_returns class_summary) as [w Hw].
  destruct (summarize_returns mean class_summary Hne mean_returns)
    as [mn Hmn].
  destruct (summarize_returns median class_summary Hne median_returns)
    as [md Hmd].
  exists (mkCombinedProject class_summary w
            (calculate_weighted_metrics_combined w) mn md).
  split.
  { unfold get_aggregated_metrics, calculate_mean_metrics,
      calculate_median_metrics.
    rewrite Hw, Hmn, Hmd. simpl. rewrite original_metrics_id. reflexivity. }
  split; [reflexivity|].
  split; [exact (combine_metrics_names _ _ Hw)|].
  split.
  - intros m. cbn [mean_metrics].
    pose proof (summarize_get mean _ _ m Hmn) as E.
    rewrite collect_get in E. clear Hw Hmn Hmd.
    destruct class_summary as [|kv l]; [congruence|].
    cbn [map mean] in E. injection E as <-.
    cbn [map length]. rewrite length_map. reflexivity.
  - intros m. cbn [median_metrics].
    pose proof (summarize_get median _ _ m Hmd) as E.
    rewrite collect_get in E. exact E.
Qed.

(** X17.  The aggregation fails for the project without classes only, and
    then with [StatisticsError]: no division by zero reaches the caller,
    whatever the metric values are. *)
Theorem aggregate_raises_only_empty (class_summary : summary) e :
  get_aggregated_metrics class_summary = Raise e
  <-> class_summary = [] /\ e = StatisticsError.
Proof.
  split.
  - intros Hr. destruct class_summary as [|kv l].
    + split; [reflexivity|]. cbv in Hr. congruence.
    + exfalso.
      destruct (combine_metrics_returns (kv :: l)) as [w Hw].
      destruct (summarize_returns mean (kv :: l) ltac:(discriminate)
                  mean_returns) as [mn Hmn].
      destruct (summarize_returns median (kv :: l) ltac:(discriminate)
                  median_returns) as [md Hmd].
      unfold get_aggregated_metrics, calculate_mean_metrics,
        calculate_median_metrics in Hr.
      rewrite Hw, Hmn, Hmd in Hr. discriminate.
  - intros [-> ->]. reflexivity.
Qed.

End Generic.

Lemma aggregated_contents_witness :
  exists r,
    get_aggregated_metrics (Examples.summary Examples.single_inheritance)
    = Ok r /\
    map fst (weighted_metrics r) = ["Parent"; "Child"].
Proof.
  destruct (aggregated_contents
              (Examples.summary Examples.single_inheritance))
    as (r & Hr & _ & Hn & _); [discriminate|].
  exists r. split; [exact Hr | exact Hn].
Defined.

End CombineMore.
